(** * Voucher Wallet: the voucher lifecycle and derivation engine

    A shallow embedding of the business logic of the Vouchers page
    (status derivation, ledger mutations, list projection and the Excel
    interchange codec) and of the Dashboard's status derivation.

    Conventions of the embedding.
    - A JavaScript [number] is an exact finite decimal [m / 10^k], or one
      of [NaN], [+Infinity], [-Infinity]: the decimal that the store
      returns and that [String] prints.  Comparisons, [Math.min] and
      [Math.max] are those of the doubles.  The sum and the difference
      are exact, where the source rounds to a double: they are proved to
      be the source's on whole amounts (integers from 0 to below 2^53),
      and a difference of two doubles has the sign of the exact one.  The
      properties that depend on more than that sign are stated for whole
      amounts.  [Double], further down, is the binary64 arithmetic
      itself; it shows what the source does on other amounts.  Numbers
      beyond the range of a double and the sign of zero are not modelled.
    - A persisted status is one of the three values of the type
      [VoucherStatus] of the source; a row without a status is not
      modelled.
    - A JavaScript string is a [string] of 8-bit characters; case mapping
      and white space are the ASCII ones.
    - [Date.now()] and the local time zone are ambient in the source; they
      are explicit parameters here ([now] in milliseconds since the epoch,
      [tza] the local offset from UTC in milliseconds, taken constant).
    - The async functions talk to the store and to the user; each is
      modelled by the single [Effect] it issues for given inputs. *)

From Stdlib Require Import ZArith QArith Lia Lqa Bool List String Ascii.
From Stdlib Require Import Sorted Permutation.
From Stdlib Require SpecFloat.
Import ListNotations.
Local Open Scope string_scope.
Local Open Scope Z_scope.

(* ================================================================== *)
(** * JavaScript built-ins used by the source *)
(* ================================================================== *)

Module JS.

(** ** Characters and strings *)

Definition char_code (c : ascii) : Z := Z.of_nat (nat_of_ascii c).

(** [\d] of the regular expressions. *)
Definition is_digit (c : ascii) : bool :=
  (48 <=? char_code c) && (char_code c <=? 57).

Definition digit_val (c : ascii) : Z := char_code c - 48.

Definition digit_char (d : Z) : ascii := ascii_of_nat (Z.to_nat (48 + d)).

(** White space and line terminators stripped by [trim] (ASCII part). *)
Definition is_space (c : ascii) : bool :=
  ((9 <=? char_code c) && (char_code c <=? 13)) || (char_code c =? 32).

Definition is_empty (s : string) : bool :=
  match s with EmptyString => true | _ => false end.

Fixpoint trimStart (s : string) : string :=
  match s with
  | String c r => if is_space c then trimStart r else s
  | EmptyString => EmptyString
  end.

Fixpoint trimEnd (s : string) : string :=
  match s with
  | String c r =>
      let r' := trimEnd r in
      if is_space c && is_empty r' then EmptyString else String c r'
  | EmptyString => EmptyString
  end.

(** [s.trim()] *)
Definition trim (s : string) : string := trimEnd (trimStart s).

Definition lower_char (c : ascii) : ascii :=
  if (65 <=? char_code c) && (char_code c <=? 90)
  then ascii_of_nat (nat_of_ascii c + 32) else c.

(** [s.toLowerCase()] *)
Fixpoint toLowerCase (s : string) : string :=
  match s with
  | String c r => String (lower_char c) (toLowerCase r)
  | EmptyString => EmptyString
  end.

Fixpoint startsWith (s t : string) : bool :=
  match t, s with
  | EmptyString, _ => true
  | String b t', String a s' => Ascii.eqb a b && startsWith s' t'
  | String _ _, EmptyString => false
  end.

(** [s.includes(t)] *)
Fixpoint includes (s t : string) : bool :=
  startsWith s t ||
  match s with
  | String _ r => includes r t
  | EmptyString => false
  end.

(** [s.replace(/^0+(?=\d)/, "")]: a leading run of zeros is removed as
    far as a digit still follows it. *)
Fixpoint strip_leading_zeros (s : string) : string :=
  match s with
  | String "0"%char r =>
      match r with
      | String c _ => if is_digit c then strip_leading_zeros r else s
      | EmptyString => s
      end
  | _ => s
  end.

(** [s.replace(/[^\d.]/g, "")] *)
Fixpoint keep_digits_and_dots (s : string) : string :=
  match s with
  | String c r =>
      if is_digit c || Ascii.eqb c "."%char
      then String c (keep_digits_and_dots r) else keep_digits_and_dots r
  | EmptyString => EmptyString
  end.

(** ** Numbers *)

(** [Fin m k] is the number [m / 10^k]. *)
Inductive number : Type :=
| Fin (m : Z) (k : nat)
| NaN
| PosInf
| NegInf.

Fixpoint pow10 (k : nat) : Z :=
  match k with O => 1 | S k' => 10 * pow10 k' end.

(** The representation without trailing fractional zeros. *)
Fixpoint norm (m : Z) (k : nat) : number :=
  match k with
  | O => Fin m 0
  | S k' => if m mod 10 =? 0 then norm (m / 10) k' else Fin m k
  end.

Definition canonical (x : number) : Prop :=
  match x with Fin m k => norm m k = Fin m k | _ => True end.

Definition int (z : Z) : number := Fin z 0.

(** [Number.isFinite(x)] *)
Definition isFinite (x : number) : bool :=
  match x with Fin _ _ => true | _ => false end.

Definition neg (x : number) : number :=
  match x with
  | Fin m k => Fin (- m) k
  | NaN => NaN
  | PosInf => NegInf
  | NegInf => PosInf
  end.

(** [x + y] *)
Definition add (x y : number) : number :=
  match x, y with
  | NaN, _ | _, NaN => NaN
  | PosInf, NegInf | NegInf, PosInf => NaN
  | PosInf, _ | _, PosInf => PosInf
  | NegInf, _ | _, NegInf => NegInf
  | Fin m1 k1, Fin m2 k2 => norm (m1 * pow10 k2 + m2 * pow10 k1) (k1 + k2)
  end.

(** [x - y] *)
Definition sub (x y : number) : number := add x (neg y).

(** [x < y]; every comparison with [NaN] is false. *)
Definition ltb (x y : number) : bool :=
  match x, y with
  | NaN, _ | _, NaN => false
  | Fin m1 k1, Fin m2 k2 => m1 * pow10 k2 <? m2 * pow10 k1
  | NegInf, NegInf => false
  | NegInf, _ => true
  | _, NegInf => false
  | PosInf, _ => false
  | Fin _ _, PosInf => true
  end.

(** [x <= y] *)
Definition leb (x y : number) : bool :=
  match x, y with
  | NaN, _ | _, NaN => false
  | Fin m1 k1, Fin m2 k2 => m1 * pow10 k2 <=? m2 * pow10 k1
  | NegInf, _ => true
  | _, PosInf => true
  | _, NegInf => false
  | PosInf, _ => false
  end.

(** [x > y] and [x >= y] *)
Definition gtb (x y : number) : bool := ltb y x.
Definition geb (x y : number) : bool := leb y x.

(** [Math.max(x, y)] and [Math.min(x, y)] *)
Definition Math_max (x y : number) : number :=
  match x, y with
  | NaN, _ | _, NaN => NaN
  | _, _ => if ltb x y then y else x
  end.

Definition Math_min (x y : number) : number :=
  match x, y with
  | NaN, _ | _, NaN => NaN
  | _, _ => if ltb y x then y else x
  end.

(** Truthiness of a number: [0] and [NaN] are falsy. *)
Definition truthy_num (x : number) : bool :=
  match x with
  | Fin m _ => negb (m =? 0)
  | NaN => false
  | _ => true
  end.

(** [x || 0] *)
Definition or0 (x : number) : number := if truthy_num x then x else int 0.

(** ** [Number(s)] on a string (StringToNumber) *)

Fixpoint span_digits (s : string) : string * string :=
  match s with
  | String c r =>
      if is_digit c
      then let (d, t) := span_digits r in (String c d, t)
      else (EmptyString, s)
  | EmptyString => (EmptyString, EmptyString)
  end.

Fixpoint digits_val (s : string) (acc : Z) : Z :=
  match s with
  | String c r => digits_val r (10 * acc + digit_val c)
  | EmptyString => acc
  end.

(** The exponent part [[eE][+-]?\d+], or nothing, up to the end of the
    literal. *)
Definition parse_exponent (s : string) : option Z :=
  match s with
  | EmptyString => Some 0
  | String c r =>
      if Ascii.eqb c "e"%char || Ascii.eqb c "E"%char then
        let '(sg, r') :=
          match r with
          | String "+"%char t => (1, t)
          | String "-"%char t => (-1, t)
          | _ => (1, r)
          end in
        let (d, t) := span_digits r' in
        if is_empty d || negb (is_empty t) then None
        else Some (sg * digits_val d 0)
      else None
  end.

(** The number [m * 10^(e - fl)]: [m] read from the integer and fraction
    digits, [fl] fraction digits, exponent [e]. *)
Definition scale (m : Z) (fl : nat) (e : Z) : number :=
  if e <? 0 then norm m (fl + Z.to_nat (- e))
  else if Nat.leb (Z.to_nat e) fl then norm m (fl - Z.to_nat e)
  else Fin (m * pow10 (Z.to_nat e - fl)) 0.

(** StrUnsignedDecimalLiteral *)
Definition parse_unsigned (s : string) : number :=
  if String.eqb s "Infinity" then PosInf else
  let (i, r1) := span_digits s in
  let (f, r2) :=
    match r1 with
    | String "."%char t => span_digits t
    | _ => (EmptyString, r1)
    end in
  if is_empty i && is_empty f then NaN else
  match parse_exponent r2 with
  | Some e => scale (digits_val (i ++ f) 0) (String.length f) e
  | None => NaN
  end.

(** StrDecimalLiteral *)
Definition parse_decimal (s : string) : number :=
  match s with
  | String "+"%char r => parse_unsigned r
  | String "-"%char r => neg (parse_unsigned r)
  | _ => parse_unsigned s
  end.

Definition radix_digit (c : ascii) : Z :=
  if is_digit c then digit_val c
  else if (97 <=? char_code c) && (char_code c <=? 102) then char_code c - 87
  else if (65 <=? char_code c) && (char_code c <=? 70) then char_code c - 55
  else 99.

Fixpoint radix_val (radix : Z) (s : string) (acc : Z) : option Z :=
  match s with
  | String c r =>
      if radix_digit c <? radix
      then radix_val radix r (radix * acc + radix_digit c) else None
  | EmptyString => Some acc
  end.

(** NonDecimalIntegerLiteral, after its two-character prefix *)
Definition parse_radix (radix : Z) (s : string) : number :=
  if is_empty s then NaN else
  match radix_val radix s 0 with
  | Some n => int n
  | None => NaN
  end.

Definition Number_of_string (s : string) : number :=
  let t := trim s in
  match t with
  | EmptyString => int 0
  | String "0"%char (String c r) =>
      if Ascii.eqb c "x"%char || Ascii.eqb c "X"%char then parse_radix 16 r
      else if Ascii.eqb c "o"%char || Ascii.eqb c "O"%char then parse_radix 8 r
      else if Ascii.eqb c "b"%char || Ascii.eqb c "B"%char then parse_radix 2 r
      else parse_decimal t
  | _ => parse_decimal t
  end.

(** ** [String(x)] on a number (Number::toString, radix 10) *)

Fixpoint digits_fuel (fuel : nat) (n : Z) : string :=
  match fuel with
  | O => EmptyString
  | S f =>
      if n <? 10 then String (digit_char n) EmptyString
      else digits_fuel f (n / 10) ++ String (digit_char (n mod 10)) EmptyString
  end.

(** The decimal digits of [n >= 0], without leading zeros. *)
Definition digits (n : Z) : string :=
  digits_fuel (S (Z.to_nat (Z.log2 n))) n.

Fixpoint zeros (n : nat) : string :=
  match n with O => EmptyString | S n' => String "0"%char (zeros n') end.

Fixpoint strip_trailing_zeros (s : string) : string :=
  match s with
  | String c r =>
      let r' := strip_trailing_zeros r in
      if Ascii.eqb c "0"%char && is_empty r' then EmptyString else String c r'
  | EmptyString => EmptyString
  end.

(** The text of [m / 10^k] for [m > 0]: with [s] the significant digits
    and [n] the position of the decimal point, positional notation for
    [-6 < n <= 21] and exponential notation otherwise. *)
Definition positive_to_string (m : Z) (k : nat) : string :=
  let d := digits m in
  let s := strip_trailing_zeros d in
  let n := Z.of_nat (String.length d) - Z.of_nat k in
  let sl := Z.of_nat (String.length s) in
  if (sl <=? n) && (n <=? 21) then s ++ zeros (Z.to_nat (n - sl))
  else if (0 <? n) && (n <=? 21) then
    substring 0 (Z.to_nat n) s ++ "." ++
    substring (Z.to_nat n) (String.length s - Z.to_nat n) s
  else if (-6 <? n) && (n <=? 0) then "0." ++ zeros (Z.to_nat (- n)) ++ s
  else
    let e := n - 1 in
    let es := (if e <? 0 then "-" else "+") ++ digits (Z.abs e) in
    if sl =? 1 then s ++ "e" ++ es
    else substring 0 1 s ++ "." ++
         substring 1 (String.length s - 1) s ++ "e" ++ es.

Definition String_of_number (x : number) : string :=
  match x with
  | NaN => "NaN"
  | PosInf => "Infinity"
  | NegInf => "-Infinity"
  | Fin m k =>
      match norm m k with
      | Fin m' k' =>
          if m' =? 0 then "0"
          else if m' <? 0 then "-" ++ positive_to_string (- m') k'
          else positive_to_string m' k'
      | _ => "NaN"
      end
  end.

(** ** [Date] *)

(** A [Date] object is its time value in milliseconds since the epoch;
    [None] is the Invalid Date, whose time value is [NaN]. *)
Definition Date : Type := option Z.

Definition msPerDay : Z := 86400000.

Definition DayFromYear (y : Z) : Z :=
  365 * (y - 1970) + (y - 1969) / 4 - (y - 1901) / 100 + (y - 1601) / 400.

Definition InLeapYear (y : Z) : bool :=
  (y mod 4 =? 0) && (negb (y mod 100 =? 0) || (y mod 400 =? 0)).

Definition DaysInMonth (y m : Z) : Z :=
  if m =? 2 then (if InLeapYear y then 29 else 28)
  else if (m =? 4) || (m =? 6) || (m =? 9) || (m =? 11) then 30
  else 31.

Fixpoint days_before (y : Z) (months : nat) : Z :=
  match months with
  | O => 0
  | S n => days_before y n + DaysInMonth y (Z.of_nat (S n))
  end.

(** Day number of the calendar date [y]-[m]-[d] (MakeDay). *)
Definition MakeDay (y m d : Z) : Z :=
  DayFromYear y + days_before y (Z.to_nat (m - 1)) + d - 1.

Definition all_digits (s : string) : bool :=
  let (_, r) := span_digits s in is_empty r.

(** The calendar date written [YYYY-MM-DD], if [s] is one. *)
Definition parse_iso_date (s : string) : option (Z * Z * Z) :=
  let ys := substring 0 4 s in
  let ms := substring 5 2 s in
  let ds := substring 8 2 s in
  if (String.length s =? 10)%nat
     && all_digits ys && all_digits ms && all_digits ds
     && String.eqb (substring 4 1 s) "-" && String.eqb (substring 7 1 s) "-"
  then
    let y := digits_val ys 0 in
    let m := digits_val ms 0 in
    let d := digits_val ds 0 in
    if (1 <=? m) && (m <=? 12) && (1 <=? d) && (d <=? DaysInMonth y m)
    then Some (y, m, d) else None
  else None.

(** [new Date(s)] for a date-only string: the date at midnight UTC.
    Strings of any other shape, for which the source would consult the
    host's date parser, read as the Invalid Date here. *)
Definition Date_new (s : string) : Date :=
  match parse_iso_date s with
  | Some (y, m, d) => Some (MakeDay y m d * msPerDay)
  | None => None
  end.

(** [d.setHours(h, m, s, ms)]: the clock fields of the local day of [d]
    are replaced; [tza] is the local offset from UTC. *)
Definition Date_setHours (tza : Z) (d : Date) (h m s ms : Z) : Date :=
  match d with
  | Some t =>
      let day := (t + tza) / msPerDay in
      Some (day * msPerDay + (h * 3600000 + m * 60000 + s * 1000 + ms) - tza)
  | None => None
  end.

(** [d.getTime()] *)
Definition Date_getTime (d : Date) : number :=
  match d with Some t => int t | None => NaN end.

(** ** [Array.prototype.sort] *)

(** The sort is stable, and an element moves behind another one only when
    the comparator is positive on them ([NaN] counts as zero).  For a
    consistent comparator every stable sort returns the same array; the
    model is insertion from the right. *)
Section ArraySort.
Context {A : Type}.
Variable comparefn : A -> A -> number.

Fixpoint sort_insert (x : A) (l : list A) : list A :=
  match l with
  | [] => [x]
  | y :: r =>
      if gtb (comparefn x y) (int 0) then y :: sort_insert x r else x :: l
  end.

Definition Array_sort (l : list A) : list A := fold_right sort_insert [] l.
End ArraySort.

(** ** Untyped values ([any]) read from a sheet *)

Inductive any : Type :=
| AStr (s : string)
| ANum (x : number)
| ABool (b : bool)
| AUndef.

Definition truthy (a : any) : bool :=
  match a with
  | AStr s => negb (is_empty s)
  | ANum x => truthy_num x
  | ABool b => b
  | AUndef => false
  end.

(** [a || b] *)
Definition or_else (a b : any) : any := if truthy a then a else b.

(** [String(a)] *)
Definition String_of (a : any) : string :=
  match a with
  | AStr s => s
  | ANum x => String_of_number x
  | ABool true => "true"
  | ABool false => "false"
  | AUndef => "undefined"
  end.

(** An object with string keys, in insertion order. *)
Definition object : Type := list (string * any).

(** [Object.keys(o)] *)
Definition Object_keys (o : object) : list string := map fst o.

(** [o[k]] *)
Fixpoint get (o : object) (k : string) : any :=
  match o with
  | [] => AUndef
  | (k', a) :: r => if String.eqb k' k then a else get r k
  end.

End JS.

Import JS.

(* ================================================================== *)
(** * Data model (types.ts) *)
(* ================================================================== *)

Inductive VoucherStatus : Type := unused | used | expired.

Definition VoucherStatus_eqb (a b : VoucherStatus) : bool :=
  match a, b with
  | unused, unused | used, used | expired, expired => true
  | _, _ => false
  end.

(** The string a status is in the source. *)
Definition status_text (s : VoucherStatus) : string :=
  match s with
  | unused => "unused"
  | used => "used"
  | expired => "expired"
  end.

Module Voucher.
Record t : Type := mk {
  id : string;
  user_id : option string;
  name : string;
  value : number;
  spent : number;
  category : string;
  code : option string;
  pin : option string;
  expires_on : option string;
  status : VoucherStatus;
  created_at : string
}.
End Voucher.
Abbreviation Voucher := Voucher.t.

(** [s || d] for a status: a status is a non-empty string. *)
Definition status_or (s d : VoucherStatus) : VoucherStatus :=
  if is_empty (status_text s) then d else s.

(** [s || null] for a string *)
Definition or_null (s : string) : option string :=
  if is_empty s then None else Some s.

(** [o ?? ""] for a nullable string *)
Definition or_empty (o : option string) : string :=
  match o with Some s => s | None => "" end.

(* ================================================================== *)
(** * The store calls and alerts a handler issues *)
(* ================================================================== *)

(** A row handed to [insert]. *)
Module Row.
Record t : Type := mk {
  user_id : string;
  name : string;
  value : number;
  spent : number;
  category : string;
  code : option string;
  pin : option string;
  expires_on : option string;
  status : VoucherStatus
}.
End Row.

(** The object handed to [update]: only the fields present are written. *)
Module Payload.
Record t : Type := mk {
  name : option string;
  value : option number;
  category : option string;
  code : option (option string);
  pin : option (option string);
  expires_on : option (option string);
  spent : option number;
  status : option VoucherStatus
}.
End Payload.

Inductive Effect : Type :=
| Nothing                                     (* plain [return] *)
| Alert (msg : string)                        (* [return alert(msg)] *)
| Insert (rows : list Row.t)                  (* one [insert] call *)
| Update (id : string) (payload : Payload.t)  (* [update(payload).eq("id", id)] *)
| SaveWorkbook (file sheet : string) (data : list (list any)).

Definition or_keep {A : Type} (o : option A) (a : A) : A :=
  match o with Some b => b | None => a end.

(** The stored row after [update(payload)]. *)
Definition apply_payload (p : Payload.t) (v : Voucher) : Voucher :=
  Voucher.mk
    (Voucher.id v)
    (Voucher.user_id v)
    (or_keep (Payload.name p) (Voucher.name v))
    (or_keep (Payload.value p) (Voucher.value v))
    (or_keep (Payload.spent p) (Voucher.spent v))
    (or_keep (Payload.category p) (Voucher.category v))
    (or_keep (Payload.code p) (Voucher.code v))
    (or_keep (Payload.pin p) (Voucher.pin v))
    (or_keep (Payload.expires_on p) (Voucher.expires_on v))
    (or_keep (Payload.status p) (Voucher.status v))
    (Voucher.created_at v).

(** What an effect makes of the stored voucher [v]: only an [update]
    addressed to its id changes it. *)
Definition stored_after (e : Effect) (v : Voucher) : Voucher :=
  match e with
  | Update i p => if String.eqb i (Voucher.id v) then apply_payload p v else v
  | _ => v
  end.

(* ================================================================== *)
(** * Status derivation *)
(* ================================================================== *)

(** [end.getTime() < Date.now()] for the end of the local day of
    [expires_on]; false without an expiry date. *)
Definition past_expiry (tza now : Z) (expires_on : option string) : bool :=
  match expires_on with
  | Some s =>
      if is_empty s then false
      else
        let end_ := Date_setHours tza (Date_new s) 23 59 59 999 in
        ltb (Date_getTime end_) (int now)
  | None => false
  end.

(** Vouchers page *)
Definition deriveStatus (tza now : Z) (v : Voucher) : VoucherStatus :=
  if past_expiry tza now (Voucher.expires_on v) then expired
  else status_or (Voucher.status v) unused.

Module Dashboard.
Definition deriveStatus (tza now : Z) (v : Voucher) : VoucherStatus :=
  if past_expiry tza now (Voucher.expires_on v) then expired
  else Voucher.status v.
End Dashboard.

(** [cleanNumString], the filter on the numeric inputs *)
Definition cleanNumString (s : string) : string :=
  if is_empty s then "" else strip_leading_zeros (keep_digits_and_dots s).

(* ================================================================== *)
(** * Ledger mutations *)
(* ================================================================== *)

(** [Number(s.replace(/^0+(?=\d)/, ""))] *)
Definition parse_amount (s : string) : number :=
  Number_of_string (strip_leading_zeros s).

Module AddForm.
Record t : Type := mk {
  name : string;
  value : string;
  initialUsed : string;
  code : string;
  pin : string;
  expires : string;
  category : string
}.
End AddForm.

Definition addVoucher (user : option string) (f : AddForm.t) : Effect :=
  match user with
  | None => Nothing
  | Some uid =>
      let numericValue := parse_amount (AddForm.value f) in
      let numericInitialUsed :=
        if is_empty (AddForm.initialUsed f) then int 0
        else parse_amount (AddForm.initialUsed f) in
      if is_empty (trim (AddForm.name f)) then Alert "Please enter name"
      else if negb (isFinite numericValue) || leb numericValue (int 0)
      then Alert "Enter a valid amount > 0"
      else if negb (isFinite numericInitialUsed)
              || ltb numericInitialUsed (int 0)
      then Alert "Initial used amount must be ≥ 0"
      else if gtb numericInitialUsed numericValue
      then Alert "Initial used amount cannot exceed total value"
      else
        Insert [ Row.mk uid
                   (trim (AddForm.name f))
                   numericValue
                   numericInitialUsed
                   (AddForm.category f)
                   (or_null (trim (AddForm.code f)))
                   (or_null (trim (AddForm.pin f)))
                   (or_null (AddForm.expires f))
                   (if geb numericInitialUsed numericValue
                    then used else unused) ]
  end.

Definition savePartialUsage (useItem : option Voucher) (useAmount : string)
  : Effect :=
  match useItem with
  | None => Nothing
  | Some item =>
      let amt := parse_amount useAmount in
      if negb (isFinite amt) || leb amt (int 0)
      then Alert "Amount must be > 0"
      else
        let remaining :=
          sub (or0 (Voucher.value item)) (or0 (Voucher.spent item)) in
        if gtb amt remaining then Alert "Amount exceeds remaining balance"
        else
          let newSpent := add (or0 (Voucher.spent item)) amt in
          let newStatus :=
            if geb newSpent (or0 (Voucher.value item)) then used else unused in
          Update (Voucher.id item)
            (Payload.mk None None None None None None
               (Some newSpent) (Some newStatus))
  end.

Module EditForm.
Record t : Type := mk {
  name : string;
  value : string;
  category : string;
  code : string;
  pin : string;
  expires_on : string
}.
End EditForm.

Definition saveEdit (list : Datatypes.list Voucher)
  (editItem : option Voucher)
  (editForm : EditForm.t) : Effect :=
  match editItem with
  | None => Nothing
  | Some item =>
      let numericValue := parse_amount (EditForm.value editForm) in
      if is_empty (trim (EditForm.name editForm))
      then Alert "Please enter name"
      else if negb (isFinite numericValue) || leb numericValue (int 0)
      then Alert "Enter a valid amount > 0"
      else
        let current :=
          find (fun x => String.eqb (Voucher.id x) (Voucher.id item)) list in
        let payload (spent : option number) (status : option VoucherStatus) :=
          Payload.mk
            (Some (trim (EditForm.name editForm)))
            (Some numericValue)
            (Some (EditForm.category editForm))
            (Some (or_null (trim (EditForm.code editForm))))
            (Some (or_null (trim (EditForm.pin editForm))))
            (Some (or_null (EditForm.expires_on editForm)))
            spent status in
        match current with
        | Some cur =>
            let clampedSpent :=
              Math_min (or0 (Voucher.spent cur)) numericValue in
            let newStatus :=
              if geb clampedSpent numericValue then used
              else status_or (Voucher.status cur) unused in
            Update (Voucher.id item)
              (payload (Some clampedSpent) (Some newStatus))
        | None => Update (Voucher.id item) (payload None None)
        end
  end.

Definition toggleStatus (v : Voucher) : Effect :=
  let makeUsed := VoucherStatus_eqb (Voucher.status v) unused in
  let payload :=
    if makeUsed
    then Payload.mk None None None None None None
           (Some (Voucher.value v)) (Some used)
    else Payload.mk None None None None None None
           (Some (int 0)) (Some unused) in
  Update (Voucher.id v) payload.

(* ================================================================== *)
(** * List projection *)
(* ================================================================== *)

Inductive SortKey : Type :=
| created_desc
| value_desc
| value_asc
| expiry_asc
| remaining_desc
| status_used_first
| status_unused_first.

(** [Math.max(0, (v.value || 0) - (v.spent || 0))] *)
Definition remaining (v : Voucher) : number :=
  Math_max (int 0) (sub (or0 (Voucher.value v)) (or0 (Voucher.spent v))).

Definition expMs (v : Voucher) : number :=
  match Voucher.expires_on v with
  | Some s => if is_empty s then PosInf else Date_getTime (Date_new s)
  | None => PosInf
  end.

(** [{ used: 0, unused: 1, expired: 2 }] and
    [{ unused: 0, used: 1, expired: 2 }] *)
Definition rank_used_first (s : VoucherStatus) : Z :=
  match s with used => 0 | unused => 1 | expired => 2 end.

Definition rank_unused_first (s : VoucherStatus) : Z :=
  match s with unused => 0 | used => 1 | expired => 2 end.

Definition inCategory (filterCategory : string) (v : Voucher) : bool :=
  if String.eqb filterCategory "All" then true
  else String.eqb (Voucher.category v) filterCategory.

Definition inSearch (term : string) (v : Voucher) : bool :=
  is_empty term
  || includes (toLowerCase (Voucher.name v)) term
  || match Voucher.code v with
     | Some c => includes (toLowerCase c) term
     | None => false
     end
  || includes (toLowerCase (Voucher.category v)) term.

Definition filtered (tza now : Z) (list : Datatypes.list Voucher)
  (filterCategory search : string) (sort : SortKey)
  : Datatypes.list Voucher :=
  let term := toLowerCase (trim search) in
  let arr :=
    filter (fun v => inCategory filterCategory v && inSearch term v) list in
  match sort with
  | value_desc =>
      Array_sort
        (fun a b => sub (or0 (Voucher.value b)) (or0 (Voucher.value a))) arr
  | value_asc =>
      Array_sort
        (fun a b => sub (or0 (Voucher.value a)) (or0 (Voucher.value b))) arr
  | expiry_asc => Array_sort (fun a b => sub (expMs a) (expMs b)) arr
  | remaining_desc =>
      Array_sort (fun a b => sub (remaining b) (remaining a)) arr
  | status_used_first =>
      Array_sort
        (fun a b =>
           let sa := deriveStatus tza now a in
           let sb := deriveStatus tza now b in
           sub (int (rank_used_first sa)) (int (rank_used_first sb))) arr
  | status_unused_first =>
      Array_sort
        (fun a b =>
           let sa := deriveStatus tza now a in
           let sb := deriveStatus tza now b in
           sub (int (rank_unused_first sa)) (int (rank_unused_first sb))) arr
  | created_desc => arr
  end.

(* ================================================================== *)
(** * Interchange codec *)
(* ================================================================== *)

(** ** Export *)

(** The object built for one voucher in [exportExcel]. *)
Definition export_row (tza now : Z) (v : Voucher) : object :=
  [ ("name", AStr (Voucher.name v));
    ("value", ANum (Voucher.value v));
    ("spent", ANum (Voucher.spent v));
    ("remaining", ANum (remaining v));
    ("category", AStr (Voucher.category v));
    ("code", AStr (or_empty (Voucher.code v)));
    ("pin", AStr (or_empty (Voucher.pin v)));
    ("expires_on", AStr (or_empty (Voucher.expires_on v)));
    ("status", AStr (status_text (deriveStatus tza now v)));
    ("created_at", AStr (Voucher.created_at v)) ].

(** [Object.keys(rows[0] ?? { sample: "" })] *)
Definition export_headers (rows : list object) : list string :=
  Object_keys (match rows with r :: _ => r | [] => [("sample", AStr "")] end).

(** The array of arrays handed to [aoa_to_sheet]. *)
Definition export_data (rows : list object) : list (list any) :=
  let headers := export_headers rows in
  map AStr headers :: map (fun r => map (fun h => get r h) headers) rows.

Definition exportExcel (tza now : Z) (list : Datatypes.list Voucher)
  : Effect :=
  let rows := map (export_row tza now) list in
  SaveWorkbook "vouchers.xlsx" "vouchers" (export_data rows).

(** ** The sheet library (xlsx), as far as the page uses it *)

(** A sheet is its grid of cells; [AUndef] is an empty cell.
    [sheet_to_json(ws, { defval: "" })] reads the first row as the keys and
    every later row that has a cell as one object, an empty cell reading as
    the default value. *)
Definition cell_or_default (a : any) : any :=
  match a with AUndef => AStr "" | _ => a end.

Definition is_blank (a : any) : bool :=
  match a with AUndef => true | _ => false end.

Fixpoint row_object (headers : list any) (cells : list any) : object :=
  match headers with
  | [] => []
  | h :: hs =>
      (String_of h, cell_or_default (hd AUndef cells))
        :: row_object hs (tl cells)
  end.

Definition sheet_to_json (ws : list (list any)) : list object :=
  match ws with
  | [] => []
  | headers :: body =>
      map (row_object headers)
        (filter (fun cells => negb (forallb is_blank cells)) body)
  end.

(** ** Import *)

Definition toNum (s : any) : number :=
  let n := Number_of_string (strip_leading_zeros (String_of s)) in
  if isFinite n then n else int 0.

(** [a ? String(a) : null] *)
Definition string_or_null (a : any) : option string :=
  if truthy a then Some (String_of a) else None.

(** The [map] step of [importExcel]. *)
Definition import_row (uid : string) (r : object) : Row.t :=
  let value := toNum (get r "value") in
  let spent := Math_max (int 0) (toNum (or_else (get r "spent") (ANum (int 0)))) in
  Row.mk uid
    (trim (String_of (or_else (get r "name") (AStr ""))))
    value
    (Math_min spent value)
    (String_of (or_else (get r "category") (AStr "General")))
    (string_or_null (get r "code"))
    (string_or_null (get r "pin"))
    (string_or_null (get r "expires_on"))
    (if geb spent value then used else unused).

(** The [filter] step of [importExcel]. *)
Definition valid_row (r : Row.t) : bool :=
  negb (is_empty (Row.name r)) && gtb (Row.value r) (int 0).

Definition import_payload (uid : string) (rows : list object) : list Row.t :=
  filter valid_row (map (import_row uid) rows).

(** [importExcel], from the first sheet [ws] of the file read. *)
Definition importExcel (user : option string) (ws : list (list any))
  : Effect :=
  match user with
  | None => Alert "Not logged in"
  | Some uid =>
      let rows := sheet_to_json ws in
      let payload := import_payload uid rows in
      match payload with
      | [] => Alert "No valid rows found."
      | _ => Insert payload
      end
  end.

(* ================================================================== *)
(** * Notions used to state the properties *)
(* ================================================================== *)

(** The rational a finite number denotes. *)
Definition Qof (x : number) : Q :=
  match x with
  | Fin m k => m # Z.to_pos (pow10 k)
  | _ => 0
  end.

(** A number as the store returns it: finite, and written without
    trailing fractional zeros. *)
Definition stored_number (x : number) : Prop :=
  isFinite x = true /\ canonical x.

(** The balance invariant [0 <= spent <= value]. *)
Definition ledger_ok (value spent : number) : Prop :=
  leb (int 0) spent = true /\ leb spent value = true.

Definition voucher_ledger_ok (v : Voucher) : Prop :=
  ledger_ok (Voucher.value v) (Voucher.spent v).

Definition row_ledger_ok (r : Row.t) : Prop :=
  ledger_ok (Row.value r) (Row.spent r).

(** The ledger mutations, as the user triggers them. *)
Inductive Mutation : Type :=
| MAdd (user : option string) (f : AddForm.t)
| MPartialUse (useItem : Voucher) (useAmount : string)
| MToggle (v : Voucher)
| MEdit (list : list Voucher) (editItem : Voucher) (editForm : EditForm.t)
| MImport (user : option string) (ws : list (list any)).

Definition run (m : Mutation) : Effect :=
  match m with
  | MAdd user f => addVoucher user f
  | MPartialUse useItem useAmount => savePartialUsage (Some useItem) useAmount
  | MToggle v => toggleStatus v
  | MEdit list editItem editForm => saveEdit list (Some editItem) editForm
  | MImport user ws => importExcel user ws
  end.

(** A voucher used in the examples: 1000 of value, 200 spent. *)
Definition sample_voucher : Voucher :=
  Voucher.mk "v1" (Some "u1") "Amazon" (int 1000) (int 200) "General"
    None None None unused "2025-01-01T00:00:00Z".

(** The stored voucher after one toggle. *)
Definition toggled (v : Voucher) : Voucher :=
  stored_after (toggleStatus v) v.

(** A voucher marked used with half of its value spent, as an edit that
    raises the value leaves it. *)
Definition half_used_voucher : Voucher :=
  Voucher.mk "v2" (Some "u1") "Flipkart" (int 2000) (int 1000) "Shopping"
    None None None used "2025-01-02T00:00:00Z".

(** The voucher and the form of the edit-down example. *)
Definition edit_down_voucher : Voucher :=
  Voucher.mk "v3" (Some "u1") "Nykaa" (int 1000) (int 700) "Shopping"
    None None None unused "2025-01-03T00:00:00Z".

Definition edit_down_form : EditForm.t :=
  EditForm.mk "Nykaa" "500" "Shopping" "" "" "".

(** A fully used voucher and a form that doubles its value. *)
Definition fully_used_voucher : Voucher :=
  Voucher.mk "v4" (Some "u1") "Myntra" (int 1000) (int 1000) "Shopping"
    None None None used "2025-01-04T00:00:00Z".

Definition edit_up_form : EditForm.t :=
  EditForm.mk "Myntra" "2000" "Shopping" "" "" "".

(** The end-of-day instant of the calendar date [y]-[m]-[d] in local
    time: 23:59:59.999 on that date, [tza] being the local offset from
    UTC. *)
Definition end_of_day_local (tza y m d : Z) : Z :=
  MakeDay y m d * msPerDay + (msPerDay - 1) - tza.

(** A voucher that expires on the first day of 2025. *)
Definition new_year_voucher : Voucher :=
  Voucher.mk "v5" (Some "u1") "Swiggy" (int 500) (int 0) "Food"
    None None (Some "2025-01-01") unused "2024-12-01T00:00:00Z".

(** The columns of the exported sheet. *)
Definition export_columns : list string :=
  [ "name"; "value"; "spent"; "remaining"; "category"; "code"; "pin";
    "expires_on"; "status"; "created_at" ].

(** The cells of the exported line of one voucher, column by column. *)
Definition export_cells (tza now : Z) (v : Voucher) : list any :=
  [ AStr (Voucher.name v);
    ANum (Voucher.value v);
    ANum (Voucher.spent v);
    ANum (Math_max (int 0)
            (sub (or0 (Voucher.value v)) (or0 (Voucher.spent v))));
    AStr (Voucher.category v);
    AStr (or_empty (Voucher.code v));
    AStr (or_empty (Voucher.pin v));
    AStr (or_empty (Voucher.expires_on v));
    AStr (status_text (deriveStatus tza now v));
    AStr (Voucher.created_at v) ].

(** ** Stable sorting, as a specification *)

(** [before a b] says that [a] must come strictly before [b].  Two
    elements are tied when neither must come before the other. *)
Definition tied {A : Type} (before : A -> A -> bool) (x y : A) : bool :=
  negb (before x y) && negb (before y x).

(** [output] is [input] sorted by [before], ties keeping the order they
    have in [input]: no element is followed by one that must come before
    it, [output] holds elements of [input] only, and every class of tied
    elements is the same sequence in both. *)
Definition StableSortBy {A : Type} (before : A -> A -> bool)
  (input output : list A) : Prop :=
  StronglySorted (fun x y => before y x = false) output
  /\ (forall x, In x output -> In x input)
  /\ (forall x, In x input ->
        filter (tied before x) output = filter (tied before x) input).

(** An expiry date as the store returns it: absent, or a calendar date
    written [YYYY-MM-DD]. *)
Definition stored_expiry (o : option string) : Prop :=
  match o with
  | None => True
  | Some s => parse_iso_date s <> None
  end.

(** A voucher as the store returns it. *)
Definition stored_voucher (v : Voucher) : Prop :=
  stored_number (Voucher.value v)
  /\ stored_number (Voucher.spent v)
  /\ stored_expiry (Voucher.expires_on v).

(** The day number of the expiry date; no expiry date is later than any
    day. *)
Definition expiry_day (v : Voucher) : number :=
  match Voucher.expires_on v with
  | Some s =>
      match parse_iso_date s with
      | Some (y, m, d) => int (MakeDay y m d)
      | None => NaN
      end
  | None => PosInf
  end.

(** The order each sort key asks for. *)
Definition sort_before (tza now : Z) (sort : SortKey) (a b : Voucher)
  : bool :=
  match sort with
  | created_desc => false
  | value_desc => ltb (Voucher.value b) (Voucher.value a)
  | value_asc => ltb (Voucher.value a) (Voucher.value b)
  | expiry_asc => ltb (expiry_day a) (expiry_day b)
  | remaining_desc =>
      ltb (Math_max (int 0) (sub (Voucher.value b) (Voucher.spent b)))
          (Math_max (int 0) (sub (Voucher.value a) (Voucher.spent a)))
  | status_used_first =>
      rank_used_first (deriveStatus tza now a)
      <? rank_used_first (deriveStatus tza now b)
  | status_unused_first =>
      rank_unused_first (deriveStatus tza now a)
      <? rank_unused_first (deriveStatus tza now b)
  end.


(** Two overspent vouchers. *)
Definition overspent_by_50 : Voucher :=
  Voucher.mk "o1" (Some "u1") "Ola" (int 100) (int 150) "Travel"
    None None None used "2025-02-02T00:00:00Z".


(** Three vouchers of the expiry example: no expiry, 2025-01-01 and
    2024-06-01. *)
Definition expiry_examples : list Voucher :=
  [ Voucher.mk "e1" (Some "u1") "Never" (int 100) (int 0) "General"
      None None None unused "2025-03-03T00:00:00Z";
    Voucher.mk "e2" (Some "u1") "Later" (int 100) (int 0) "General"
      None None (Some "2025-01-01") unused "2025-03-02T00:00:00Z";
    Voucher.mk "e3" (Some "u1") "Sooner" (int 100) (int 0) "General"
      None None (Some "2024-06-01") unused "2025-03-01T00:00:00Z" ].

(** ** Shapes of strings *)

Fixpoint digits_only (s : string) : bool :=
  match s with
  | String c r => is_digit c && digits_only r
  | EmptyString => true
  end.

Fixpoint no_space (s : string) : bool :=
  match s with
  | String c r => negb (is_space c) && no_space r
  | EmptyString => true
  end.

(** The string does not go on with a digit. *)
Definition no_digit_head (s : string) : bool :=
  match s with
  | String c _ => negb (is_digit c)
  | EmptyString => true
  end.

(** ** Round trip through the sheet *)

Definition voucher_tuple (v : Voucher) : string * number * number * string :=
  (Voucher.name v, Voucher.value v, Voucher.spent v, Voucher.category v).

Definition row_tuple (r : Row.t) : string * number * number * string :=
  (Row.name r, Row.value r, Row.spent r, Row.category r).

(** A voucher as add, edit and import write it: stored amounts with
    [0 <= spent <= value] and [value > 0], a trimmed non-empty name and a
    non-empty category. *)
Definition written_voucher (v : Voucher) : Prop :=
  stored_number (Voucher.value v)
  /\ stored_number (Voucher.spent v)
  /\ voucher_ledger_ok v
  /\ gtb (Voucher.value v) (int 0) = true
  /\ trim (Voucher.name v) = Voucher.name v
  /\ is_empty (Voucher.name v) = false
  /\ is_empty (Voucher.category v) = false.

(** A voucher of no value. *)
Definition free_voucher : Voucher :=
  Voucher.mk "f1" (Some "u1") "Free" (int 0) (int 0) "General"
    None None None used "2025-04-01T00:00:00Z".

(* ================================================================== *)
(** * Further handlers of the two pages *)
(* ================================================================== *)

(** [s || d] for strings *)
Definition str_or (s d : string) : string := if is_empty s then d else s.

(** [openEdit]: the voucher put in the modal and the form filled from
    it. *)
Definition openEdit (v : Voucher) : option Voucher * EditForm.t :=
  (Some v,
   EditForm.mk
     (str_or (Voucher.name v) "")
     (String_of_number (Voucher.value v))
     (str_or (Voucher.category v) "General")
     (str_or (or_empty (Voucher.code v)) "")
     (str_or (or_empty (Voucher.pin v)) "")
     (match Voucher.expires_on v with
      | Some s => if is_empty s then "" else substring 0 10 s
      | None => ""
      end)).

(** The totals of the Dashboard. *)
Module Totals.
Record t : Type := mk {
  totalValue : number;
  totalSpent : number;
  totalRem : number;
  unused : nat;
  used : nat;
  expired : nat
}.
End Totals.

Definition totals (tza now : Z) (vouchers : list Voucher) : Totals.t :=
  let totalValue :=
    fold_left (fun a v => add a (or0 (Voucher.value v))) vouchers (int 0) in
  let totalSpent :=
    fold_left (fun a v => add a (or0 (Voucher.spent v))) vouchers (int 0) in
  let totalRem := sub totalValue totalSpent in
  let count s :=
    List.length
      (filter (fun v => VoucherStatus_eqb (Dashboard.deriveStatus tza now v) s)
         vouchers) in
  Totals.mk totalValue totalSpent totalRem
    (count unused) (count used) (count expired).

(** The remaining amount in a line of the Dashboard's table. *)
Definition dashboard_remaining (v : Voucher) : number :=
  sub (or0 (Voucher.value v)) (or0 (Voucher.spent v)).

(** ** Notions for the further properties *)

Fixpoint digits_and_dots (s : string) : bool :=
  match s with
  | String c r => (is_digit c || Ascii.eqb c "."%char) && digits_and_dots r
  | EmptyString => true
  end.

(** A nullable text field as the page writes it: absent, or non-empty
    and trimmed. *)
Definition written_text (o : option string) : Prop :=
  match o with
  | None => True
  | Some s => trim s = s /\ is_empty s = false
  end.

(** A settled voucher: stored amounts with [0 <= spent <= value] and
    [value > 0], a trimmed non-empty name, a non-empty category, a code
    and a PIN that are absent or trimmed and non-empty, an expiry that is
    absent or a calendar date, a status other than expired, and the
    status used once the spent amount reaches the value.  This is how add
    and edit write a voucher; bulk import does not trim code and PIN. *)
Definition settled_voucher (v : Voucher) : Prop :=
  written_voucher v
  /\ written_text (Voucher.code v)
  /\ written_text (Voucher.pin v)
  /\ stored_expiry (Voucher.expires_on v)
  /\ Voucher.status v <> expired
  /\ (geb (Voucher.spent v) (Voucher.value v) = true
      -> Voucher.status v = used).

(** A row as the page inserts it. *)
Definition written_row (r : Row.t) : Prop :=
  trim (Row.name r) = Row.name r
  /\ is_empty (Row.name r) = false
  /\ isFinite (Row.value r) = true
  /\ gtb (Row.value r) (int 0) = true
  /\ row_ledger_ok r
  /\ Row.status r
     = (if geb (Row.spent r) (Row.value r) then used else unused).

(** One partial use of the amount [x], applied to the stored voucher. *)
Definition use_amount (x : number) (v : Voucher) : Voucher :=
  stored_after (savePartialUsage (Some v) (String_of_number x)) v.

(** The comparator [filtered] hands to [sort] for each sort key; for
    created_desc, which sorts nothing, the comparator that ties every
    pair. *)
Definition sort_comparefn (tza now : Z) (sort : SortKey)
  : Voucher -> Voucher -> number :=
  match sort with
  | value_desc =>
      fun a b => sub (or0 (Voucher.value b)) (or0 (Voucher.value a))
  | value_asc =>
      fun a b => sub (or0 (Voucher.value a)) (or0 (Voucher.value b))
  | expiry_asc => fun a b => sub (expMs a) (expMs b)
  | remaining_desc => fun a b => sub (remaining b) (remaining a)
  | status_used_first =>
      fun a b =>
        let sa := deriveStatus tza now a in
        let sb := deriveStatus tza now b in
        sub (int (rank_used_first sa)) (int (rank_used_first sb))
  | status_unused_first =>
      fun a b =>
        let sa := deriveStatus tza now a in
        let sb := deriveStatus tza now b in
        sub (int (rank_unused_first sa)) (int (rank_unused_first sb))
  | created_desc => fun _ _ => int 0
  end.


(* ================================================================== *)
(** * Binary64 arithmetic *)
(* ================================================================== *)

(** The source computes on IEEE 754 doubles; [JS.add] and [JS.sub] above
    are exact.  [Double] is the arithmetic of binary64, round to nearest
    even, as the Standard Library specifies it, with the handlers whose
    answer depends on a sum or a difference embedded on it.  On whole
    amounts (see [whole_amount] below) the two arithmetics agree, and so
    do the handlers: this is proved under "Binary64 on whole amounts".
    The properties that depend on a sum or a difference are stated for
    whole amounts, and counterexamples on [Double] show what the source
    does on other amounts. *)
Module Double.

Definition prec : Z := 53.
Definition emax : Z := 1024.

Definition double : Type := SpecFloat.spec_float.

Definition zero : double := SpecFloat.S754_zero false.

(** The double a decimal is read as, by [JSON.parse] for the amounts the
    store returns and by [Number] for a text: the nearest double, ties to
    even, from one correctly rounded division of the two integers. *)
Definition of_number (x : number) : double :=
  match x with
  | Fin Z0 _ => zero
  | Fin (Zpos p) k =>
      SpecFloat.SFdiv prec emax
        (SpecFloat.S754_finite false p 0)
        (SpecFloat.S754_finite false (Z.to_pos (pow10 k)) 0)
  | Fin (Zneg p) k =>
      SpecFloat.SFdiv prec emax
        (SpecFloat.S754_finite true p 0)
        (SpecFloat.S754_finite false (Z.to_pos (pow10 k)) 0)
  | NaN => SpecFloat.S754_nan
  | PosInf => SpecFloat.S754_infinity false
  | NegInf => SpecFloat.S754_infinity true
  end.


(** [x + y], [x - y], [x < y], [x <= y], [x > y], [x >= y] *)
Definition add : double -> double -> double := SpecFloat.SFadd prec emax.
Definition sub : double -> double -> double := SpecFloat.SFsub prec emax.
Definition ltb : double -> double -> bool := SpecFloat.SFltb.
Definition leb : double -> double -> bool := SpecFloat.SFleb.
Definition gtb (x y : double) : bool := ltb y x.
Definition geb (x y : double) : bool := leb y x.

(** [Number.isFinite(x)] *)
Definition isFinite (x : double) : bool :=
  match x with
  | SpecFloat.S754_zero _ | SpecFloat.S754_finite _ _ _ => true
  | _ => false
  end.

(** [x || 0] *)
Definition or0 (x : double) : double :=
  match x with
  | SpecFloat.S754_zero _ | SpecFloat.S754_nan => zero
  | _ => x
  end.

(** [Math.max(0, x)] *)
Definition Math_max0 (x : double) : double :=
  match x with
  | SpecFloat.S754_nan => x
  | _ => if ltb zero x then x else zero
  end.

(** The double of an integer below [2^53] in magnitude: its binary
    digits, moved up to 53 of them. *)
Definition mant (p : positive) : positive :=
  Z.to_pos (Zpos p * 2 ^ (53 - Zpos (SpecFloat.digits2_pos p))).

Definition expo (p : positive) : Z := Zpos (SpecFloat.digits2_pos p) - 53.

Definition of_Z (z : Z) : double :=
  match z with
  | Z0 => zero
  | Zpos p => SpecFloat.S754_finite false (mant p) (expo p)
  | Zneg p => SpecFloat.S754_finite true (mant p) (expo p)
  end.

(** What a handler answers in binary64: as [Effect], with the spent
    amount of the update a double. *)
Inductive Effect : Type :=
| Nothing
| Alert (msg : string)
| Update (id : string) (spent : double) (status : VoucherStatus).

(** [savePartialUsage], on the voucher as [JSON.parse] read it. *)
Definition savePartialUsage (useItem : option Voucher) (useAmount : string)
  : Effect :=
  match useItem with
  | None => Nothing
  | Some item =>
      let amt := of_number (parse_amount useAmount) in
      if negb (isFinite amt) || leb amt zero
      then Alert "Amount must be > 0"
      else
        let value := of_number (Voucher.value item) in
        let spent := of_number (Voucher.spent item) in
        let remaining := sub (or0 value) (or0 spent) in
        if gtb amt remaining then Alert "Amount exceeds remaining balance"
        else
          let newSpent := add (or0 spent) amt in
          let newStatus :=
            if geb newSpent (or0 value) then used else unused in
          Update (Voucher.id item) newSpent newStatus
  end.

(** [remaining] of [filtered]. *)
Definition remaining (v : Voucher) : double :=
  Math_max0
    (sub (or0 (of_number (Voucher.value v)))
         (or0 (of_number (Voucher.spent v)))).


(** [totalValue], [totalSpent] and [totalRem] of the Dashboard's
    [totals]. *)
Definition totals (vouchers : list Voucher) : double * double * double :=
  let totalValue :=
    fold_left (fun a v => add a (or0 (of_number (Voucher.value v))))
      vouchers zero in
  let totalSpent :=
    fold_left (fun a v => add a (or0 (of_number (Voucher.spent v))))
      vouchers zero in
  (totalValue, totalSpent, sub totalValue totalSpent).

(** The remaining amount in a line of the Dashboard's table. *)
Definition table_remaining (v : Voucher) : double :=
  sub (or0 (of_number (Voucher.value v))) (or0 (of_number (Voucher.spent v))).

End Double.

(** The answer of a handler of this embedding, read in binary64. *)
Definition binary64_effect (e : Effect) : Double.Effect :=
  match e with
  | Nothing => Double.Nothing
  | Alert msg => Double.Alert msg
  | Update id p =>
      match Payload.spent p, Payload.status p with
      | Some spent, Some status =>
          Double.Update id (Double.of_number spent) status
      | _, _ => Double.Nothing
      end
  | _ => Double.Nothing
  end.

(** ** Amounts on which the exact arithmetic is the program's *)

(** [Number.isSafeInteger(x)]: an integer of magnitude below [2^53]. *)
Definition isSafeInteger (x : number) : bool :=
  match x with
  | Fin m O => Z.abs m <? 2 ^ 53
  | _ => false
  end.

(** A whole amount: a safe integer that is not negative.  A double holds
    it exactly, the difference of two whole amounts is exact in binary64,
    and so is their sum when it is a whole amount. *)
Definition whole_amount (x : number) : bool :=
  isSafeInteger x && leb (int 0) x.

Definition whole_amounts (v : Voucher) : Prop :=
  whole_amount (Voucher.value v) = true
  /\ whole_amount (Voucher.spent v) = true.

(** What the sort key needs of a voucher for its comparator to be
    consistent, and to be the exact one: a finite value for the sorts by
    value, an expiry date that is a calendar date for the sort by expiry,
    whole amounts for the sort by remaining amount. *)
Definition sortable (sort : SortKey) (v : Voucher) : Prop :=
  match sort with
  | value_desc | value_asc => stored_number (Voucher.value v)
  | expiry_asc => stored_expiry (Voucher.expires_on v)
  | remaining_desc => whole_amounts v
  | status_used_first | status_unused_first | created_desc => True
  end.




Definition three_tenths_voucher : Voucher :=
  Voucher.mk "t2" (Some "u1") "Bakery" (Fin 3 1) (Fin 1 1) "Food"
    None None None unused "2025-04-03T00:00:00Z".


(* ================================================================== *)
(** * Facts about numbers *)
(* ================================================================== *)

Lemma pow10_S k : pow10 (S k) = 10 * pow10 k.
Proof. reflexivity. Qed.

Lemma pow10_pos k : 0 < pow10 k.
Proof. induction k; [reflexivity | rewrite pow10_S; lia]. Qed.

Lemma pow10_add a b : pow10 (a + b) = pow10 a * pow10 b.
Proof.
  induction a; [change (pow10 0) with 1; simpl Nat.add; lia |].
  simpl Nat.add. rewrite !pow10_S, IHa. lia.
Qed.

Lemma norm_value m k :
  exists m' k', norm m k = Fin m' k' /\ m' * pow10 k = m * pow10 k'.
Proof.
  revert m; induction k as [|k IH]; intros m.
  - exists m, 0%nat. split; [reflexivity | lia].
  - cbn [norm]. destruct (Z.eqb_spec (m mod 10) 0) as [E|E].
    + destruct (IH (m / 10)) as (m' & k' & Hn & Hv).
      exists m', k'. split; [exact Hn|].
      pose proof (Z.div_mod m 10 ltac:(lia)) as D. rewrite E in D.
      rewrite pow10_S.
      replace (m' * (10 * pow10 k)) with (10 * (m' * pow10 k)) by lia.
      rewrite Hv. nia.
    + exists m, (S k). split; [reflexivity | lia].
Qed.

Lemma Qof_Fin_eq m k m' k' :
  m' * pow10 k = m * pow10 k' -> Qof (Fin m' k') == Qof (Fin m k).
Proof.
  intros Hv. unfold Qof, Qeq; simpl.
  rewrite !Z2Pos.id by apply pow10_pos. exact Hv.
Qed.

Lemma ltb_Q m1 k1 m2 k2 :
  ltb (Fin m1 k1) (Fin m2 k2) = true <-> (Qof (Fin m1 k1) < Qof (Fin m2 k2))%Q.
Proof.
  unfold ltb, Qof, Qlt; simpl. rewrite !Z2Pos.id by apply pow10_pos.
  apply Z.ltb_lt.
Qed.

Lemma leb_Q m1 k1 m2 k2 :
  leb (Fin m1 k1) (Fin m2 k2) = true <-> (Qof (Fin m1 k1) <= Qof (Fin m2 k2))%Q.
Proof.
  unfold leb, Qof, Qle; simpl. rewrite !Z2Pos.id by apply pow10_pos.
  apply Z.leb_le.
Qed.

Lemma ltb_Q_false m1 k1 m2 k2 :
  ltb (Fin m1 k1) (Fin m2 k2) = false
  <-> (Qof (Fin m2 k2) <= Qof (Fin m1 k1))%Q.
Proof.
  rewrite <- not_true_iff_false, ltb_Q.
  split; [apply Qnot_lt_le | apply Qle_not_lt].
Qed.

Lemma leb_Q_false m1 k1 m2 k2 :
  leb (Fin m1 k1) (Fin m2 k2) = false
  <-> (Qof (Fin m2 k2) < Qof (Fin m1 k1))%Q.
Proof.
  rewrite <- not_true_iff_false, leb_Q.
  split; [apply Qnot_le_lt | apply Qlt_not_le].
Qed.

Lemma add_fin m1 k1 m2 k2 :
  exists m k, add (Fin m1 k1) (Fin m2 k2) = Fin m k
    /\ Qof (Fin m k) == (Qof (Fin m1 k1) + Qof (Fin m2 k2))%Q.
Proof.
  unfold add.
  destruct (norm_value (m1 * pow10 k2 + m2 * pow10 k1) (k1 + k2))
    as (m & k & -> & Hv).
  exists m, k. split; [reflexivity|].
  rewrite (Qof_Fin_eq _ _ _ _ Hv).
  unfold Qof, Qplus, Qeq; simpl.
  rewrite Pos2Z.inj_mul, !Z2Pos.id by apply pow10_pos.
  rewrite pow10_add. ring.
Qed.

Lemma sub_fin m1 k1 m2 k2 :
  exists m k, sub (Fin m1 k1) (Fin m2 k2) = Fin m k
    /\ Qof (Fin m k) == (Qof (Fin m1 k1) - Qof (Fin m2 k2))%Q.
Proof.
  unfold sub. cbn [neg].
  destruct (add_fin m1 k1 (- m2) k2) as (m & k & -> & Hv).
  exists m, k. split; [reflexivity|]. rewrite Hv.
  unfold Qof, Qminus, Qplus, Qopp, Qeq; simpl. ring.
Qed.

Lemma or0_fin m k :
  exists m' k', or0 (Fin m k) = Fin m' k' /\ Qof (Fin m' k') == Qof (Fin m k).
Proof.
  unfold or0, truthy_num. destruct (Z.eqb_spec m 0) as [->|_]; simpl.
  - exists 0, 0%nat. split; [reflexivity|]. unfold Qof, Qeq; simpl. reflexivity.
  - exists m, k. split; reflexivity.
Qed.

Lemma Qof_int z : Qof (Fin z 0) == inject_Z z.
Proof. reflexivity. Qed.

Lemma Math_max_fin a b c d :
  Math_max (Fin a b) (Fin c d)
  = if ltb (Fin a b) (Fin c d) then Fin c d else Fin a b.
Proof. reflexivity. Qed.

Lemma Math_min_fin a b c d :
  Math_min (Fin a b) (Fin c d)
  = if ltb (Fin c d) (Fin a b) then Fin c d else Fin a b.
Proof. reflexivity. Qed.

(** Name the finite results of [or0], [add] and [sub] on finite numbers,
    keeping the rational each one denotes. *)
Ltac name_results :=
  repeat match goal with
  | |- context [or0 (Fin ?m ?k)] =>
      let E := fresh "E" in
      destruct (or0_fin m k) as (? & ? & E & ?); rewrite E in *; clear E
  | H : context [or0 (Fin ?m ?k)] |- _ =>
      let E := fresh "E" in
      destruct (or0_fin m k) as (? & ? & E & ?); rewrite E in *; clear E
  | |- context [add (Fin ?a ?b) (Fin ?c ?d)] =>
      let E := fresh "E" in
      destruct (add_fin a b c d) as (? & ? & E & ?); rewrite E in *; clear E
  | H : context [add (Fin ?a ?b) (Fin ?c ?d)] |- _ =>
      let E := fresh "E" in
      destruct (add_fin a b c d) as (? & ? & E & ?); rewrite E in *; clear E
  | |- context [sub (Fin ?a ?b) (Fin ?c ?d)] =>
      let E := fresh "E" in
      destruct (sub_fin a b c d) as (? & ? & E & ?); rewrite E in *; clear E
  | H : context [sub (Fin ?a ?b) (Fin ?c ?d)] |- _ =>
      let E := fresh "E" in
      destruct (sub_fin a b c d) as (? & ? & E & ?); rewrite E in *; clear E
  end.

(** Turn comparisons of finite numbers into rational inequalities. *)
Ltac to_Q :=
  unfold gtb, geb, int in *;
  repeat match goal with
  | H : ltb (Fin _ _) (Fin _ _) = true |- _ => apply ltb_Q in H
  | H : ltb (Fin _ _) (Fin _ _) = false |- _ => apply ltb_Q_false in H
  | H : leb (Fin _ _) (Fin _ _) = true |- _ => apply leb_Q in H
  | H : leb (Fin _ _) (Fin _ _) = false |- _ => apply leb_Q_false in H
  | |- ltb (Fin _ _) (Fin _ _) = true => apply ltb_Q
  | |- ltb (Fin _ _) (Fin _ _) = false => apply ltb_Q_false
  | |- leb (Fin _ _) (Fin _ _) = true => apply leb_Q
  | |- leb (Fin _ _) (Fin _ _) = false => apply leb_Q_false
  end.

Ltac num_lra :=
  unfold gtb, geb, int in *; name_results; to_Q;
  change (Qof (Fin 0 0)) with 0%Q in *; lra.

Lemma isFinite_inv x : isFinite x = true -> exists m k, x = Fin m k.
Proof. destruct x; try discriminate. eauto. Qed.

Lemma toNum_finite a : isFinite (toNum a) = true.
Proof.
  unfold toNum.
  destruct (isFinite (Number_of_string (strip_leading_zeros (String_of a))))
    eqn:E; [exact E | reflexivity].
Qed.

(** Destructing the tests of a handler one by one. *)
Ltac split_if :=
  match goal with
  | |- context [if ?b then _ else _] => destruct b eqn:?
  | H : context [if ?b then _ else _] |- _ => destruct b eqn:?
  end.

(** Reducing the field accesses on a written record. *)
Ltac fields :=
  cbn [apply_payload or_keep
       Voucher.id Voucher.user_id Voucher.name Voucher.value Voucher.spent
       Voucher.category Voucher.code Voucher.pin Voucher.expires_on
       Voucher.status Voucher.created_at
       Payload.name Payload.value Payload.category Payload.code Payload.pin
       Payload.expires_on Payload.spent Payload.status
       Row.user_id Row.name Row.value Row.spent Row.category Row.code
       Row.pin Row.expires_on Row.status] in *.

Lemma norm_zero k : norm 0 k = Fin 0 0.
Proof. induction k; [reflexivity | exact IHk]. Qed.

Lemma or0_stored x : stored_number x -> or0 x = x.
Proof.
  intros [Hfin Hcan]. destruct x as [m k| | |]; try discriminate.
  unfold or0, truthy_num. destruct (Z.eqb_spec m 0) as [->|_]; [|reflexivity].
  cbn [negb]. unfold canonical in Hcan. rewrite norm_zero in Hcan.
  exact Hcan.
Qed.

Lemma ltb_int a b : ltb (int a) (int b) = (a <? b).
Proof. unfold ltb, int. change (pow10 0) with 1. rewrite !Z.mul_1_r. reflexivity. Qed.

(* ================================================================== *)
(** * Binary64 on whole amounts *)
(* ================================================================== *)

(** A whole amount is a stored number. *)
Lemma whole_amount_inv x :
  whole_amount x = true -> exists m, x = int m /\ 0 <= m < 2 ^ 53.
Proof.
  unfold whole_amount, isSafeInteger. intros H.
  apply andb_true_iff in H. destruct H as [Hs H0].
  destruct x as [m [|k]| | |]; try discriminate.
  exists m. split; [reflexivity|].
  unfold leb, int in H0. change (pow10 0) with 1 in H0.
  apply Z.leb_le in H0. apply Z.ltb_lt in Hs. lia.
Qed.

Lemma whole_amount_stored x : whole_amount x = true -> stored_number x.
Proof.
  intros H. destruct (whole_amount_inv _ H) as (m & -> & _).
  split; reflexivity.
Qed.

Lemma digits2_size p : SpecFloat.digits2_pos p = Pos.size p.
Proof. induction p; cbn; congruence. Qed.

(** [2^(d-1) <= p < 2^d] for [d] the number of binary digits of [p]. *)
Lemma digits2_bounds p :
  2 ^ (Zpos (SpecFloat.digits2_pos p) - 1) <= Zpos p
  < 2 ^ Zpos (SpecFloat.digits2_pos p).
Proof.
  induction p as [p IH|p IH|]; cbn [SpecFloat.digits2_pos].
  - rewrite Pos2Z.inj_succ.
    replace (Z.succ (Zpos (SpecFloat.digits2_pos p)) - 1)
      with (Z.succ (Zpos (SpecFloat.digits2_pos p) - 1)) by lia.
    rewrite !Z.pow_succ_r by lia. lia.
  - rewrite Pos2Z.inj_succ.
    replace (Z.succ (Zpos (SpecFloat.digits2_pos p)) - 1)
      with (Z.succ (Zpos (SpecFloat.digits2_pos p) - 1)) by lia.
    rewrite !Z.pow_succ_r by lia. lia.
  - cbn. lia.
Qed.

Lemma digits2_unique p d :
  2 ^ (d - 1) <= Zpos p < 2 ^ d -> Zpos (SpecFloat.digits2_pos p) = d.
Proof.
  intros [Hl Hu]. pose proof (digits2_bounds p) as [Bl Bu].
  set (e := Zpos (SpecFloat.digits2_pos p)) in *.
  assert (0 < e) by (unfold e; lia).
  assert (0 < d).
  { destruct (Z.ltb_spec 0 d); [assumption|]. exfalso.
    destruct (Z.eq_dec d 0) as [->|Hd]; [cbn in Hu; lia|].
    rewrite Z.pow_neg_r in Hu by lia. lia. }
  destruct (Z.lt_trichotomy e d) as [L|[E|G]]; [|exact E|].
  - assert (2 ^ e <= 2 ^ (d - 1)) by (apply Z.pow_le_mono_r; lia). lia.
  - assert (2 ^ d <= 2 ^ (e - 1)) by (apply Z.pow_le_mono_r; lia). lia.
Qed.

Lemma digits2_shift p t :
  0 <= t ->
  Zpos (SpecFloat.digits2_pos (Z.to_pos (Zpos p * 2 ^ t)))
  = Zpos (SpecFloat.digits2_pos p) + t.
Proof.
  intros Ht. pose proof (digits2_bounds p) as [Bl Bu].
  assert (P : 0 < 2 ^ t) by (apply Z.pow_pos_nonneg; lia).
  apply digits2_unique. rewrite Z2Pos.id by nia.
  replace (Zpos (SpecFloat.digits2_pos p) + t - 1)
    with ((Zpos (SpecFloat.digits2_pos p) - 1) + t) by lia.
  rewrite !Z.pow_add_r by lia. nia.
Qed.

Lemma iter_pos_nat {A : Type} (f : A -> A) p x :
  SpecFloat.iter_pos f p x = Nat.iter (Pos.to_nat p) f x.
Proof.
  assert (swap : forall n y, Nat.iter n f (f y) = f (Nat.iter n f y)).
  { induction n as [|n IH]; intros y; [reflexivity|].
    cbn [Nat.iter nat_rect]. change (nat_rect (fun _ => A) (f y) (fun _ => f) n)
      with (Nat.iter n f (f y)). rewrite IH. reflexivity. }
  assert (plus : forall n m y,
            Nat.iter (n + m) f y = Nat.iter n f (Nat.iter m f y)).
  { induction n as [|n IH]; intros m y; [reflexivity|].
    change (Nat.iter (S n + m) f y) with (f (Nat.iter (n + m) f y)).
    rewrite IH. reflexivity. }
  revert x. induction p as [p IH|p IH|]; intros x; cbn [SpecFloat.iter_pos].
  - rewrite !IH, Pos2Nat.inj_xI.
    change (Nat.iter (S (2 * Pos.to_nat p)) f x)
      with (f (Nat.iter (2 * Pos.to_nat p) f x)).
    replace (2 * Pos.to_nat p)%nat with (Pos.to_nat p + Pos.to_nat p)%nat
      by lia.
    rewrite plus, !swap. reflexivity.
  - rewrite !IH, Pos2Nat.inj_xO.
    replace (2 * Pos.to_nat p)%nat with (Pos.to_nat p + Pos.to_nat p)%nat
      by lia.
    rewrite plus. reflexivity.
  - reflexivity.
Qed.

Lemma shr_exact (k : nat) (z : Z) :
  0 < z ->
  Nat.iter k SpecFloat.shr_1
    (SpecFloat.Build_shr_record (z * 2 ^ Z.of_nat k) false false)
  = SpecFloat.Build_shr_record z false false.
Proof.
  revert z. induction k as [|k IH]; intros z Hz.
  - cbn [Nat.iter nat_rect]. change (2 ^ Z.of_nat 0) with 1.
    rewrite Z.mul_1_r. reflexivity.
  - change (Nat.iter (S k) SpecFloat.shr_1 ?x)
      with (SpecFloat.shr_1 (Nat.iter k SpecFloat.shr_1 x)).
    rewrite Nat2Z.inj_succ, Z.pow_succ_r by lia.
    replace (z * (2 * 2 ^ Z.of_nat k)) with ((2 * z) * 2 ^ Z.of_nat k) by lia.
    rewrite IH by lia. destruct z as [|q|q]; try lia. reflexivity.
Qed.

Lemma fexp64 d : -1021 <= d -> SpecFloat.fexp 53 1024 d = d - 53.
Proof. intros H. unfold SpecFloat.fexp, SpecFloat.emin. lia. Qed.

(** Rounding a mantissa of 53 digits followed by [j] zeros changes
    nothing. *)
Lemma binary_round_aux_exact s N j e :
  Zpos (SpecFloat.digits2_pos N) = 53 -> 0 <= j ->
  -1074 <= e + j <= 971 ->
  SpecFloat.binary_round_aux 53 1024 s (Zpos N * 2 ^ j) e SpecFloat.loc_Exact
  = SpecFloat.S754_finite s N (e + j).
Proof.
  intros HN Hj He.
  assert (P : 0 < 2 ^ j) by (apply Z.pow_pos_nonneg; lia).
  assert (D : SpecFloat.Zdigits2 (Zpos N * 2 ^ j) = 53 + j).
  { rewrite <- HN, <- (digits2_shift N j Hj).
    destruct (Zpos N * 2 ^ j) eqn:E; try lia. reflexivity. }
  unfold SpecFloat.binary_round_aux, SpecFloat.shr_fexp.
  rewrite D, fexp64 by lia.
  replace (53 + j + e - 53 - e) with j by lia.
  cbn [SpecFloat.shr_record_of_loc].
  assert (S1 : SpecFloat.shr
                 (SpecFloat.Build_shr_record (Zpos N * 2 ^ j) false false) e j
               = (SpecFloat.Build_shr_record (Zpos N) false false, e + j)).
  { unfold SpecFloat.shr. destruct j as [|p|p]; try lia.
    - change (2 ^ 0) with 1. rewrite Z.mul_1_r, Z.add_0_r. reflexivity.
    - rewrite iter_pos_nat. rewrite <- (positive_nat_Z p) at 1.
      rewrite shr_exact by lia. reflexivity. }
  rewrite S1. cbn [SpecFloat.shr_m SpecFloat.loc_of_shr_record
                   SpecFloat.round_nearest_even SpecFloat.Zdigits2].
  rewrite HN, fexp64 by lia.
  replace (53 + (e + j) - 53 - (e + j)) with 0 by lia.
  cbn [SpecFloat.shr SpecFloat.shr_record_of_loc SpecFloat.shr_m].
  destruct (Z.leb_spec (e + j) (1024 - 53)); [reflexivity | lia].
Qed.

Lemma small_digits p : Zpos p < 2 ^ 53 -> Zpos (SpecFloat.digits2_pos p) <= 53.
Proof.
  intros H. pose proof (digits2_bounds p) as [Bl _].
  destruct (Z.leb_spec (Zpos (SpecFloat.digits2_pos p)) 53); [assumption|].
  exfalso.
  assert (2 ^ 53 <= 2 ^ (Zpos (SpecFloat.digits2_pos p) - 1))
    by (apply Z.pow_le_mono_r; lia).
  lia.
Qed.

Lemma mant_val p :
  Zpos p < 2 ^ 53 ->
  Zpos (Double.mant p) = Zpos p * 2 ^ (53 - Zpos (SpecFloat.digits2_pos p)).
Proof.
  intros H. pose proof (small_digits p H). unfold Double.mant.
  assert (0 < 2 ^ (53 - Zpos (SpecFloat.digits2_pos p)))
    by (apply Z.pow_pos_nonneg; lia).
  rewrite Z2Pos.id by nia. reflexivity.
Qed.

Lemma mant_digits p :
  Zpos p < 2 ^ 53 -> Zpos (SpecFloat.digits2_pos (Double.mant p)) = 53.
Proof.
  intros H. pose proof (small_digits p H). unfold Double.mant.
  rewrite digits2_shift by lia. lia.
Qed.

Lemma iter_xO_val m k : Zpos (Pos.iter xO m k) = Zpos m * 2 ^ Zpos k.
Proof.
  induction k as [|k IH] using Pos.peano_ind.
  - cbn [Pos.iter]. change (2 ^ 1) with 2. lia.
  - rewrite Pos.iter_succ, Pos2Z.inj_xO, IH, Pos2Z.inj_succ, Z.pow_succ_r by lia.
    lia.
Qed.

(** Rounding the integer [n], written with [t] binary zeros after it,
    gives the double of [n]. *)
Lemma binary_round_int s n t :
  Zpos n < 2 ^ 53 -> 0 <= t ->
  SpecFloat.binary_round 53 1024 s (Z.to_pos (Zpos n * 2 ^ t)) (- t)
  = SpecFloat.S754_finite s (Double.mant n) (Double.expo n).
Proof.
  intros Hn Ht. pose proof (small_digits n Hn) as Hd.
  pose proof (mant_val n Hn) as Hm. pose proof (mant_digits n Hn) as HD.
  assert (P : 0 < 2 ^ t) by (apply Z.pow_pos_nonneg; lia).
  set (d := Zpos (SpecFloat.digits2_pos n)) in *.
  assert (0 < d) by (unfold d; lia).
  unfold SpecFloat.binary_round.
  rewrite digits2_shift by lia. fold d.
  rewrite fexp64 by lia.
  unfold SpecFloat.shl_align.
  replace (d + t + - t - 53 - - t) with (d - 53 + t) by lia.
  destruct (d - 53 + t) as [|q|q] eqn:E.
  - rewrite Z2Pos.id by nia.
    replace (Zpos n * 2 ^ t) with (Zpos (Double.mant n) * 2 ^ 0)
      by (rewrite Hm; replace (53 - d) with t by lia; change (2 ^ 0) with 1; lia).
    rewrite binary_round_aux_exact by lia.
    unfold Double.expo. fold d. f_equal. lia.
  - rewrite Z2Pos.id by nia.
    replace (Zpos n * 2 ^ t) with (Zpos (Double.mant n) * 2 ^ Zpos q).
    2:{ rewrite Hm, <- Z.mul_assoc, <- Z.pow_add_r by lia. f_equal. f_equal. lia. }
    rewrite binary_round_aux_exact by lia.
    unfold Double.expo. fold d. f_equal. lia.
  - rewrite iter_xO_val, Z2Pos.id by nia.
    replace (Zpos n * 2 ^ t * 2 ^ Zpos q) with (Zpos (Double.mant n) * 2 ^ 0).
    2:{ rewrite Hm. change (2 ^ 0) with 1.
        rewrite Z.mul_1_r, <- Z.mul_assoc, <- Z.pow_add_r by lia.
        f_equal. f_equal. lia. }
    rewrite binary_round_aux_exact by lia.
    unfold Double.expo. fold d. f_equal. lia.
Qed.

(** The double read from a whole decimal is the double of the integer. *)
Lemma of_number_int z :
  Z.abs z < 2 ^ 53 -> Double.of_number (int z) = Double.of_Z z.
Proof.
  assert (pos : forall s p, Zpos p < 2 ^ 53 ->
            SpecFloat.SFdiv 53 1024 (SpecFloat.S754_finite s p 0)
              (SpecFloat.S754_finite false 1 0)
            = SpecFloat.S754_finite s (Double.mant p) (Double.expo p)).
  { intros s p Hp. pose proof (small_digits p Hp) as Hd.
    pose proof (mant_val p Hp) as Hm. pose proof (mant_digits p Hp) as HD.
    set (d := Zpos (SpecFloat.digits2_pos p)) in *.
    assert (0 < d) by (unfold d; lia).
    unfold SpecFloat.SFdiv, SpecFloat.SFdiv_core_binary.
    cbn [SpecFloat.Zdigits2 SpecFloat.digits2_pos]. fold d.
    replace (d + 0 - (1 + 0)) with (d - 1) by lia.
    rewrite fexp64 by lia.
    replace (Z.min (d - 1 - 53) (0 - 0)) with (d - 54) by lia.
    replace (0 - 0 - (d - 54)) with (54 - d) by lia.
    destruct (54 - d) as [|q|q] eqn:E; try lia.
    rewrite Z.shiftl_mul_pow2 by lia.
    destruct (Z.div_eucl (Zpos p * 2 ^ Zpos q) 1) as [qq r] eqn:Ed.
    assert (qq = Zpos p * 2 ^ Zpos q /\ r = 0) as [-> ->].
    { pose proof (Z.div_1_r (Zpos p * 2 ^ Zpos q)) as D1.
      pose proof (Z.mod_1_r (Zpos p * 2 ^ Zpos q)) as D2.
      unfold Z.div in D1. unfold Z.modulo in D2. rewrite Ed in D1, D2.
      cbn [fst snd] in D1, D2. split; assumption. }
    change (SpecFloat.new_location 1 0) with SpecFloat.loc_Exact.
    rewrite xorb_false_r.
    replace (Zpos p * 2 ^ Zpos q) with (Zpos (Double.mant p) * 2 ^ 1).
    2:{ rewrite Hm, <- Z.mul_assoc, <- Z.pow_add_r by lia.
        f_equal. f_equal. lia. }
    rewrite binary_round_aux_exact by lia.
    unfold Double.expo. fold d. f_equal. lia. }
  intros Hz. unfold Double.of_number, int, Double.of_Z.
  change (Z.to_pos (pow10 0)) with 1%positive.
  destruct z as [|p|p]; [reflexivity| |]; apply pos; cbn in Hz; lia.
Qed.

Lemma expo_nonpos p : Zpos p < 2 ^ 53 -> Double.expo p <= 0.
Proof. intros H. pose proof (small_digits p H). unfold Double.expo. lia. Qed.

(** Aligning the double of [p] on a lower exponent. *)
Lemma shl_align_int p ez :
  Zpos p < 2 ^ 53 -> ez <= Double.expo p ->
  Zpos (fst (SpecFloat.shl_align (Double.mant p) (Double.expo p) ez))
  = Zpos p * 2 ^ (- ez).
Proof.
  intros Hp He. pose proof (small_digits p Hp) as Hd.
  pose proof (mant_val p Hp) as Hm. unfold SpecFloat.shl_align.
  unfold Double.expo in *.
  set (d := Zpos (SpecFloat.digits2_pos p)) in *.
  destruct (ez - (d - 53)) as [|q|q] eqn:E; cbn [fst]; try lia.
  - rewrite Hm. f_equal. f_equal. lia.
  - rewrite iter_xO_val, Hm, <- Z.mul_assoc, <- Z.pow_add_r by lia.
    f_equal. f_equal. lia.
Qed.

Lemma binary_normalize_int z ez :
  Z.abs z < 2 ^ 53 -> ez <= 0 ->
  SpecFloat.binary_normalize 53 1024 (z * 2 ^ (- ez)) ez false = Double.of_Z z.
Proof.
  intros Hz He.
  assert (P : 0 < 2 ^ (- ez)) by (apply Z.pow_pos_nonneg; lia).
  destruct z as [|p|p]; [reflexivity| |].
  - destruct (Zpos p * 2 ^ (- ez)) as [|m|m] eqn:E; try nia.
    cbn [SpecFloat.binary_normalize Double.of_Z].
    replace m with (Z.to_pos (Zpos p * 2 ^ (- ez))) by (rewrite E; reflexivity).
    replace ez with (- - ez) at 2 by lia.
    apply binary_round_int; cbn in Hz; lia.
  - destruct (Zneg p * 2 ^ (- ez)) as [|m|m] eqn:E; try nia.
    cbn [SpecFloat.binary_normalize Double.of_Z].
    assert (Em : m = Z.to_pos (Zpos p * 2 ^ (- ez))).
    { assert (Zpos m = Zpos p * 2 ^ (- ez)) by lia.
      rewrite <- H. reflexivity. }
    rewrite Em.
    replace ez with (- - ez) at 2 by lia.
    apply binary_round_int; cbn in Hz; lia.
Qed.

(** Sums and differences of whole amounts are exact. *)
Lemma add_int a b :
  0 <= a -> 0 <= b -> a + b < 2 ^ 53 ->
  Double.add (Double.of_Z a) (Double.of_Z b) = Double.of_Z (a + b).
Proof.
  intros Ha Hb Hab. unfold Double.add.
  destruct a as [|p|p]; try lia; destruct b as [|q|q]; try lia;
    try reflexivity.
  cbn [Double.of_Z SpecFloat.SFadd SpecFloat.cond_Zopp].
  assert (Hp : Zpos p < 2 ^ 53) by lia.
  assert (Hq : Zpos q < 2 ^ 53) by lia.
  pose proof (expo_nonpos p Hp). pose proof (expo_nonpos q Hq).
  set (ez := Z.min (Double.expo p) (Double.expo q)).
  rewrite (shl_align_int p ez), (shl_align_int q ez) by (unfold ez; lia).
  rewrite <- Z.mul_add_distr_r.
  apply (binary_normalize_int (Zpos p + Zpos q)); unfold ez; lia.
Qed.

Lemma sub_int a b :
  0 <= a < 2 ^ 53 -> 0 <= b < 2 ^ 53 ->
  Double.sub (Double.of_Z a) (Double.of_Z b) = Double.of_Z (a - b).
Proof.
  intros Ha Hb. unfold Double.sub.
  destruct a as [|p|p]; try lia; destruct b as [|q|q]; try lia;
    try reflexivity.
  cbn [Double.of_Z SpecFloat.SFsub SpecFloat.cond_Zopp].
  assert (Hp : Zpos p < 2 ^ 53) by lia.
  assert (Hq : Zpos q < 2 ^ 53) by lia.
  pose proof (expo_nonpos p Hp). pose proof (expo_nonpos q Hq).
  set (ez := Z.min (Double.expo p) (Double.expo q)).
  rewrite (shl_align_int p ez), (shl_align_int q ez) by (unfold ez; lia).
  rewrite <- Z.mul_sub_distr_r.
  apply (binary_normalize_int (Zpos p - Zpos q)); unfold ez; lia.
Qed.

Lemma compare_pos p q :
  Zpos p < 2 ^ 53 -> Zpos q < 2 ^ 53 ->
  match Z.compare (Double.expo p) (Double.expo q) with
  | Lt => Lt
  | Gt => Gt
  | Eq => Pos.compare_cont Eq (Double.mant p) (Double.mant q)
  end = (Zpos p ?= Zpos q).
Proof.
  intros Hp Hq.
  pose proof (small_digits p Hp) as Dp. pose proof (small_digits q Hq) as Dq.
  pose proof (digits2_bounds p) as [Lp Up].
  pose proof (digits2_bounds q) as [Lq Uq].
  pose proof (mant_val p Hp) as Mp. pose proof (mant_val q Hq) as Mq.
  unfold Double.expo.
  set (dp := Zpos (SpecFloat.digits2_pos p)) in *.
  set (dq := Zpos (SpecFloat.digits2_pos q)) in *.
  destruct (Z.compare_spec (dp - 53) (dq - 53)) as [E|L|G].
  - assert (dp = dq) as Ed by lia.
    change (Pos.compare_cont Eq (Double.mant p) (Double.mant q))
      with (Zpos (Double.mant p) ?= Zpos (Double.mant q)).
    rewrite Mp, Mq, Ed.
    assert (0 < 2 ^ (53 - dq)) by (apply Z.pow_pos_nonneg; lia).
    destruct (Z.compare_spec (Zpos p) (Zpos q)) as [E'|L'|G'].
    + rewrite E'. apply Z.compare_refl.
    + apply Z.compare_lt_iff. nia.
    + apply Z.compare_gt_iff. nia.
  - symmetry. apply Z.compare_lt_iff.
    assert (2 ^ dp <= 2 ^ (dq - 1)) by (apply Z.pow_le_mono_r; lia). lia.
  - symmetry. apply Z.compare_gt_iff.
    assert (2 ^ dq <= 2 ^ (dp - 1)) by (apply Z.pow_le_mono_r; lia). lia.
Qed.

(** Comparisons of whole amounts are those of the integers. *)
Lemma compare_int a b :
  Z.abs a < 2 ^ 53 -> Z.abs b < 2 ^ 53 ->
  SpecFloat.SFcompare (Double.of_Z a) (Double.of_Z b) = Some (a ?= b).
Proof.
  intros Ha Hb.
  destruct a as [|p|p], b as [|q|q]; try reflexivity;
    cbn [Double.of_Z SpecFloat.SFcompare]; f_equal.
  - apply compare_pos; cbn in Ha, Hb; lia.
  - change (Zneg p ?= Zneg q) with (CompOpp (Zpos p ?= Zpos q)).
    rewrite <- compare_pos by (cbn in Ha, Hb; lia).
    destruct (Double.expo p ?= Double.expo q); reflexivity.
Qed.

Lemma ltb_int_double a b :
  Z.abs a < 2 ^ 53 -> Z.abs b < 2 ^ 53 ->
  Double.ltb (Double.of_Z a) (Double.of_Z b) = (a <? b).
Proof.
  intros Ha Hb. unfold Double.ltb, SpecFloat.SFltb, Z.ltb.
  rewrite compare_int by assumption. reflexivity.
Qed.

Lemma leb_int_double a b :
  Z.abs a < 2 ^ 53 -> Z.abs b < 2 ^ 53 ->
  Double.leb (Double.of_Z a) (Double.of_Z b) = (a <=? b).
Proof.
  intros Ha Hb. unfold Double.leb, SpecFloat.SFleb, Z.leb.
  rewrite compare_int by assumption. destruct (a ?= b); reflexivity.
Qed.

Lemma safe_integer_inv x :
  isSafeInteger x = true -> exists m, x = int m /\ Z.abs m < 2 ^ 53.
Proof.
  unfold isSafeInteger. destruct x as [m [|k]| | |]; try discriminate.
  intros H. apply Z.ltb_lt in H. exists m. split; [reflexivity | exact H].
Qed.

Lemma add_ints a b : add (int a) (int b) = int (a + b).
Proof.
  unfold add, int. cbn [Nat.add norm]. change (pow10 0) with 1.
  rewrite !Z.mul_1_r. reflexivity.
Qed.

Lemma sub_ints a b : sub (int a) (int b) = int (a - b).
Proof.
  unfold sub, int. cbn [neg]. fold (int a). fold (int (- b)).
  rewrite add_ints. reflexivity.
Qed.

Lemma leb_ints a b : leb (int a) (int b) = (a <=? b).
Proof.
  unfold leb, int. change (pow10 0) with 1. rewrite !Z.mul_1_r. reflexivity.
Qed.

(** On whole amounts the sum, the difference and the comparisons of this
    embedding are those of binary64. *)
Lemma arithmetic_on_whole_amounts x y :
  whole_amount x = true -> whole_amount y = true ->
  Double.sub (Double.of_number x) (Double.of_number y)
  = Double.of_number (sub x y)
  /\ (whole_amount (add x y) = true ->
      Double.add (Double.of_number x) (Double.of_number y)
      = Double.of_number (add x y))
  /\ Double.ltb (Double.of_number x) (Double.of_number y) = ltb x y
  /\ Double.leb (Double.of_number x) (Double.of_number y) = leb x y.
Proof.
  intros Wx Wy.
  destruct (whole_amount_inv _ Wx) as (a & -> & Ha).
  destruct (whole_amount_inv _ Wy) as (b & -> & Hb).
  rewrite sub_ints, add_ints, ltb_int, leb_ints.
  rewrite !of_number_int by lia.
  split; [apply sub_int; lia|]. split; [|split].
  - intros W. destruct (whole_amount_inv _ W) as (c & E & Hc).
    injection E as <-. rewrite (of_number_int (a + b)) by lia.
    apply add_int; lia.
  - apply ltb_int_double; lia.
  - apply leb_int_double; lia.
Qed.

(** On a voucher of whole amounts and a typed amount that is a safe
    integer, [savePartialUsage] answers in binary64 what it answers in
    this embedding. *)
Lemma savePartialUsage_binary64 item useAmount :
  whole_amounts item ->
  isSafeInteger (parse_amount useAmount) = true ->
  Double.savePartialUsage (Some item) useAmount
  = binary64_effect (savePartialUsage (Some item) useAmount).
Proof.
  intros [Wv Ws] Wa.
  destruct (whole_amount_inv _ Wv) as (v & Ev & Hv).
  destruct (whole_amount_inv _ Ws) as (s & Es & Hs).
  destruct (safe_integer_inv _ Wa) as (n & En & Hn).
  unfold Double.savePartialUsage, savePartialUsage.
  rewrite Ev, Es, En.
  rewrite (or0_stored (int v)), (or0_stored (int s)) by (split; reflexivity).
  rewrite !of_number_int by lia.
  assert (O : forall z, Double.or0 (Double.of_Z z) = Double.of_Z z)
    by (intros [|p|p]; reflexivity).
  assert (F : forall z, Double.isFinite (Double.of_Z z) = true)
    by (intros [|p|p]; reflexivity).
  rewrite !O, F. cbn [isFinite int negb orb].
  change Double.zero with (Double.of_Z 0).
  rewrite leb_int_double by (cbn; lia). fold (int n). fold (int 0).
  rewrite leb_ints.
  destruct (Z.leb_spec n 0) as [Hle|Hpos]; [reflexivity|].
  rewrite sub_int, sub_ints by lia.
  unfold Double.gtb, gtb. rewrite ltb_int_double, ltb_int by lia.
  destruct (Z.ltb_spec (v - s) n) as [Hgt|Hok]; [reflexivity|].
  rewrite add_int, add_ints by lia.
  unfold Double.geb, geb. rewrite leb_int_double, leb_ints by lia.
  cbn [binary64_effect Payload.spent Payload.status].
  rewrite of_number_int by lia. reflexivity.
Qed.

(* ================================================================== *)
(** * The balance invariant *)
(* ================================================================== *)





Lemma find_by_id (l : list Voucher) i cur :
  find (fun x => String.eqb (Voucher.id x) i) l = Some cur ->
  In cur l /\ Voucher.id cur = i.
Proof.
  intros H. apply find_some in H. destruct H as [Hin Heq].
  split; [exact Hin | apply String.eqb_eq; exact Heq].
Qed.




Lemma import_row_ledger uid o :
  valid_row (import_row uid o) = true -> row_ledger_ok (import_row uid o).
Proof.
  unfold valid_row, row_ledger_ok, ledger_ok, import_row; fields.
  intros H. apply andb_true_iff in H. destruct H as [_ Hpos].
  destruct (isFinite_inv _ (toNum_finite (get o "value"))) as (mv & kv & Ev).
  destruct (isFinite_inv _
    (toNum_finite (or_else (get o "spent") (ANum (int 0))))) as (ms & ks & Es).
  rewrite Ev, Es in *.
  unfold int in *. rewrite Math_max_fin.
  destruct (ltb (Fin 0 0) (Fin ms ks)) eqn:L1; rewrite Math_min_fin;
    match goal with |- context [ltb ?a ?b] => destruct (ltb a b) eqn:L2 end;
    split; num_lra.
Qed.






(* ================================================================== *)
(** * Partial use, toggle and edit *)
(* ================================================================== *)

Lemma status_or_id s d : status_or s d = s.
Proof. destruct s; reflexivity. Qed.

Lemma ltb_leb_false x y : ltb x y = true -> leb y x = false.
Proof.
  destruct x, y; try discriminate; try reflexivity. intros. to_Q. lra.
Qed.

Lemma leb_ltb_false x y : leb x y = true -> ltb y x = false.
Proof.
  destruct x, y; try discriminate; try reflexivity. intros. to_Q. lra.
Qed.

Lemma ltb_int0_finite a r :
  ltb (int 0) a = true -> leb a r = true -> isFinite r = true ->
  isFinite a = true.
Proof. destruct a, r; try discriminate; reflexivity. Qed.

(** C3, counterexample.  A voucher marked used with 1000 of 2000 spent
    accepts a partial use of 100; the new spent stays below the value and
    the status written is unused, not the prior status.  And in binary64
    a voucher worth 0.3 with 0.1 spent refuses the amount 0.2, which is
    not above [0.3 - 0.1]: the difference is computed as
    0.19999999999999998. *)
Lemma partial_use_status_counterexample :
  (let v := half_used_voucher in
   let a := parse_amount "100" in
   let v' := stored_after (savePartialUsage (Some v) "100") v in
   ltb (int 0) a = true
   /\ leb a (sub (Voucher.value v) (Voucher.spent v)) = true
   /\ geb (Voucher.spent v') (Voucher.value v') = false
   /\ Voucher.status v' <> Voucher.status v)
  /\ (let v := three_tenths_voucher in
      let a := parse_amount "0.2" in
      ltb (int 0) a = true
      /\ leb a (sub (Voucher.value v) (Voucher.spent v)) = true
      /\ Double.sub (Double.of_number (Voucher.value v))
                    (Double.of_number (Voucher.spent v))
         = Double.of_number (Fin 19999999999999998 17)
      /\ Double.savePartialUsage (Some v) "0.2"
         = Double.Alert "Amount exceeds remaining balance").
Proof.
  cbv zeta. split.
  - repeat split; try reflexivity. vm_compute. discriminate.
  - repeat split; vm_compute; reflexivity.
Qed.

(** C3, amended.  Partial use on a voucher whose value and spent amount
    are whole amounts, of an amount that is a safe integer, with
    [remaining = value - spent]: an amount [a <= 0] or [a > remaining]
    is answered by an alert and leaves the voucher as it is; an amount
    with [0 < a <= remaining] is written as [spent' = spent + a] with
    status used when [spent' >= value] and status unused otherwise.
    The handler answers the same in binary64. *)
Theorem partial_use_outcome (item : Voucher) (useAmount : string) :
  whole_amounts item ->
  isSafeInteger (parse_amount useAmount) = true ->
  let a := parse_amount useAmount in
  let remaining := sub (Voucher.value item) (Voucher.spent item) in
  let e := savePartialUsage (Some item) useAmount in
  ((leb a (int 0) = true \/ gtb a remaining = true) ->
     (exists msg, e = Alert msg) /\ stored_after e item = item)
  /\ (ltb (int 0) a = true -> leb a remaining = true ->
        e = Update (Voucher.id item)
              (Payload.mk None None None None None None
                 (Some (add (Voucher.spent item) a))
                 (Some (if geb (add (Voucher.spent item) a)
                              (Voucher.value item)
                        then used else unused))))
  /\ Double.savePartialUsage (Some item) useAmount = binary64_effect e.
Proof.
  intros [Wv Ws] Wa a remaining e.
  pose proof (whole_amount_stored _ Wv) as Hv.
  pose proof (whole_amount_stored _ Ws) as Hs.
  split; [|split].
  - subst e. unfold savePartialUsage.
    rewrite (or0_stored _ Hv), (or0_stored _ Hs). fold a. fold remaining.
    intros [Hle | Hgt].
    + rewrite Hle, orb_true_r. split; [eauto | reflexivity].
    + destruct (negb (isFinite a) || leb a (int 0));
        [split; [eauto | reflexivity]|].
      rewrite Hgt. split; [eauto | reflexivity].
  - subst e. unfold savePartialUsage.
    rewrite (or0_stored _ Hv), (or0_stored _ Hs). fold a. fold remaining.
    intros Hpos Hle.
    assert (Hrem : isFinite remaining = true).
    { destruct Hv as [Fv _], Hs as [Fs _]. subst remaining.
      destruct (Voucher.value item), (Voucher.spent item); try discriminate.
      name_results. reflexivity. }
    rewrite (ltb_int0_finite _ _ Hpos Hle Hrem).
    rewrite (ltb_leb_false _ _ Hpos). cbn [negb orb].
    unfold gtb. rewrite (leb_ltb_false _ _ Hle). reflexivity.
  - apply savePartialUsage_binary64; [split; assumption | exact Wa].
Qed.

Lemma partial_use_outcome_witness :
  whole_amounts sample_voucher
  /\ savePartialUsage (Some sample_voucher) "800"
     = Update "v1"
         (Payload.mk None None None None None None
            (Some (int 1000)) (Some used))
  /\ stored_after (savePartialUsage (Some sample_voucher) "801")
       sample_voucher = sample_voucher
  /\ Double.savePartialUsage (Some sample_voucher) "800"
     = Double.Update "v1" (Double.of_number (int 1000)) used.
Proof.
  assert (W : whole_amounts sample_voucher) by (split; reflexivity).
  pose proof (partial_use_outcome sample_voucher "800" W eq_refl) as H800.
  pose proof (partial_use_outcome sample_voucher "801" W eq_refl) as H801.
  cbv zeta in H800, H801.
  destruct H800 as (_ & Hok & Hd). destruct H801 as (Hno & _ & _).
  pose proof (Hok eq_refl eq_refl) as E.
  split; [exact W|]. split; [exact E|]. split.
  - exact (proj2 (Hno (or_intror eq_refl))).
  - rewrite Hd, E. reflexivity.
Defined.

(** C4, counterexample.  A partly used voucher (200 of 1000 spent, status
    unused) comes back from two toggles with nothing spent. *)
Lemma toggle_twice_counterexample :
  Voucher.spent (toggled (toggled sample_voucher)) = int 0
  /\ Voucher.spent (toggled (toggled sample_voucher))
     <> Voucher.spent sample_voucher.
Proof. split; [reflexivity | vm_compute; discriminate]. Qed.

(** C4, amended.  For a voucher whose persisted status is unused or used,
    one toggle from unused writes [spent = value] and status used, one
    toggle from used writes [spent = 0] and status unused, and two toggles
    restore the status; the spent amount after two toggles is [0] from
    unused and [value] from used, so that the voucher is restored exactly
    when it was at one of these two extremes. *)
Theorem toggle_twice (v : Voucher) :
  Voucher.status v <> expired ->
  (Voucher.status v = unused ->
     Voucher.spent (toggled v) = Voucher.value v
     /\ Voucher.status (toggled v) = used)
  /\ (Voucher.status v = used ->
        Voucher.spent (toggled v) = int 0
        /\ Voucher.status (toggled v) = unused)
  /\ Voucher.status (toggled (toggled v)) = Voucher.status v
  /\ Voucher.spent (toggled (toggled v))
     = (if VoucherStatus_eqb (Voucher.status v) unused
        then int 0 else Voucher.value v)
  /\ (Voucher.spent v
      = (if VoucherStatus_eqb (Voucher.status v) unused
         then int 0 else Voucher.value v) ->
      toggled (toggled v) = v).
Proof.
  intros Hne. destruct v as [i u n val sp c cd pn ex st cr].
  unfold toggled, toggleStatus, stored_after; fields.
  destruct st; try (exfalso; apply Hne; reflexivity);
    cbn [VoucherStatus_eqb]; fields; rewrite ?String.eqb_refl; fields;
    cbn [VoucherStatus_eqb]; rewrite ?String.eqb_refl; fields.
  - repeat split; try discriminate. intros ->. reflexivity.
  - repeat split; try discriminate. intros ->. reflexivity.
Qed.

Lemma toggle_twice_witness :
  Voucher.status fully_used_voucher <> expired
  /\ toggled (toggled fully_used_voucher) = fully_used_voucher.
Proof.
  assert (H : Voucher.status fully_used_voucher <> expired)
    by (intro E; discriminate E).
  split; [exact H|].
  exact (proj2 (proj2 (proj2 (proj2 (toggle_twice fully_used_voucher H))))
           eq_refl).
Defined.

Lemma saveEdit_valid l item form cur :
  is_empty (trim (EditForm.name form)) = false ->
  isFinite (parse_amount (EditForm.value form)) = true ->
  gtb (parse_amount (EditForm.value form)) (int 0) = true ->
  find (fun x => String.eqb (Voucher.id x) (Voucher.id item)) l = Some cur ->
  let nv := parse_amount (EditForm.value form) in
  let clamped := Math_min (or0 (Voucher.spent cur)) nv in
  saveEdit l (Some item) form
  = Update (Voucher.id item)
      (Payload.mk
         (Some (trim (EditForm.name form)))
         (Some nv)
         (Some (EditForm.category form))
         (Some (or_null (trim (EditForm.code form))))
         (Some (or_null (trim (EditForm.pin form))))
         (Some (or_null (EditForm.expires_on form)))
         (Some clamped)
         (Some (if geb clamped nv then used else Voucher.status cur))).
Proof.
  intros Hname Hfin Hpos Hfind nv clamped. unfold saveEdit.
  rewrite Hname, Hfin, (ltb_leb_false _ _ Hpos), Hfind. cbn [negb orb].
  rewrite status_or_id. reflexivity.
Qed.




(** C10.  An edit never forces the status to follow the balance: when the
    clamped spent stays strictly below the new value, the status written
    is the prior status.  So the edit that raises the value of a fully
    used voucher from 1000 to 2000 stores status used with
    [spent < value]. *)
Theorem edit_keeps_status :
  (forall (list : list Voucher) (item cur : Voucher) (form : EditForm.t),
     is_empty (trim (EditForm.name form)) = false ->
     isFinite (parse_amount (EditForm.value form)) = true ->
     gtb (parse_amount (EditForm.value form)) (int 0) = true ->
     find (fun x => String.eqb (Voucher.id x) (Voucher.id item)) list
       = Some cur ->
     let v' := stored_after (saveEdit list (Some item) form) cur in
     ltb (Voucher.spent v') (Voucher.value v') = true ->
     Voucher.status v' = Voucher.status cur)
  /\ (let v' := stored_after
                  (saveEdit [fully_used_voucher] (Some fully_used_voucher)
                     edit_up_form) fully_used_voucher in
      Voucher.status v' = used
      /\ ltb (Voucher.spent v') (Voucher.value v') = true).
Proof.
  split.
  - intros l item cur form Hname Hfin Hpos Hfind v'. subst v'.
    rewrite (saveEdit_valid _ _ _ _ Hname Hfin Hpos Hfind).
    destruct (find_by_id _ _ _ Hfind) as [_ Hid].
    unfold stored_after. rewrite Hid, String.eqb_refl. fields.
    intros Hlt. unfold geb. rewrite (ltb_leb_false _ _ Hlt). reflexivity.
  - split; reflexivity.
Qed.

Lemma edit_keeps_status_witness :
  Voucher.status
    (stored_after
       (saveEdit [fully_used_voucher] (Some fully_used_voucher) edit_up_form)
       fully_used_voucher)
  = Voucher.status fully_used_voucher.
Proof.
  exact (proj1 edit_keeps_status [fully_used_voucher] fully_used_voucher
           fully_used_voucher edit_up_form
           eq_refl eq_refl eq_refl eq_refl eq_refl).
Defined.

(* ================================================================== *)
(** * Status derivation *)
(* ================================================================== *)

(** C2, at the failing input.  In a time zone five hours west of UTC, at
    local midnight opening 1 January 2025, a voucher that expires on
    2025-01-01 is already derived as expired on both pages, although the
    end of that day in local time still lies ahead. *)
Theorem deriveStatus_expires_a_day_early :
  let tza := -18000000 in
  let now := 1735707600000 in
  parse_iso_date "2025-01-01" = Some (2025, 1, 1)
  /\ now < end_of_day_local tza 2025 1 1
  /\ deriveStatus tza now new_year_voucher = expired
  /\ Dashboard.deriveStatus tza now new_year_voucher = expired.
Proof. cbv zeta. repeat split. Qed.

(* ================================================================== *)
(** * Export *)
(* ================================================================== *)

Lemma export_row_cells tza now v :
  map (fun h => get (export_row tza now v) h) export_columns
  = export_cells tza now v.
Proof. reflexivity. Qed.

Lemma export_data_cons tza now v l :
  export_data (map (export_row tza now) (v :: l))
  = map AStr export_columns :: map (export_cells tza now) (v :: l).
Proof.
  unfold export_data. cbn [map export_headers].
  change (Object_keys (export_row tza now v)) with export_columns.
  f_equal. rewrite export_row_cells. f_equal.
  rewrite map_map. apply map_ext. intros w. apply export_row_cells.
Qed.

Lemma sub_nonneg_max v s :
  stored_number v -> stored_number s -> leb s v = true ->
  Math_max (int 0) (sub v s) = sub v s.
Proof.
  intros [Hv _] [Hs _] Hle.
  destruct (isFinite_inv _ Hv) as (mv & kv & ->).
  destruct (isFinite_inv _ Hs) as (ms & ks & ->).
  unfold sub, neg, add.
  destruct (Z.eq_dec (mv * pow10 ks + - ms * pow10 kv) 0) as [E|E].
  - rewrite E, norm_zero. reflexivity.
  - destruct (norm_value (mv * pow10 ks + - ms * pow10 kv) (kv + ks))
      as (m' & k' & En & Hval).
    rewrite En. unfold int. rewrite Math_max_fin.
    replace (ltb (Fin 0 0) (Fin m' k')) with true; [reflexivity|].
    symmetry. unfold ltb. apply Z.ltb_lt.
    unfold leb in Hle. apply Z.leb_le in Hle.
    pose proof (pow10_pos k'). pose proof (pow10_pos (kv + ks)).
    change (pow10 0) with 1. nia.
Qed.

(** C9, counterexample.  For the empty list the sheet has the single
    header cell [sample] and not the ten export columns. *)
Lemma export_empty_counterexample :
  exportExcel 0 0 []
  = SaveWorkbook "vouchers.xlsx" "vouchers" [[AStr "sample"]]
  /\ [AStr "sample"] <> map AStr export_columns.
Proof. split; [reflexivity | discriminate]. Qed.

(** C9, amended.  Export writes one sheet named vouchers.  For a
    non-empty list its header row is the ten columns name, value, spent,
    remaining, category, code, pin, expires_on, status, created_at in this
    order, followed by one line per voucher in list order with the cells
    in the same order, status being the derived status and remaining
    being [max(0, value - spent)], which is [value - spent] for a stored
    voucher with [spent <= value].  For the empty list the sheet holds
    the single header cell [sample] and no line. *)
Theorem export_sheet_layout (tza now : Z) (list : list Voucher) :
  exportExcel tza now list
  = SaveWorkbook "vouchers.xlsx" "vouchers"
      ((match list with
        | [] => [AStr "sample"]
        | _ => map AStr export_columns
        end) :: map (export_cells tza now) list)
  /\ (forall v, In v list ->
        nth_error (export_cells tza now v) 3 = Some (ANum (remaining v))
        /\ (stored_number (Voucher.value v) ->
            stored_number (Voucher.spent v) ->
            leb (Voucher.spent v) (Voucher.value v) = true ->
            remaining v = sub (Voucher.value v) (Voucher.spent v))).
Proof.
  split.
  - unfold exportExcel. destruct list as [|v l]; [reflexivity|].
    rewrite export_data_cons. reflexivity.
  - intros v _. split; [reflexivity|].
    intros Hv Hs Hle. unfold remaining.
    rewrite (or0_stored _ Hv), (or0_stored _ Hs).
    apply sub_nonneg_max; assumption.
Qed.

(* ================================================================== *)
(** * Bulk import *)
(* ================================================================== *)

Lemma min_reaches_iff x v :
  isFinite x = true -> isFinite v = true ->
  geb (Math_min x v) v = geb x v.
Proof.
  intros Hx Hv.
  destruct (isFinite_inv _ Hx) as (mx & kx & ->).
  destruct (isFinite_inv _ Hv) as (mv & kv & ->).
  rewrite Math_min_fin. unfold geb.
  destruct (ltb (Fin mv kv) (Fin mx kx)) eqn:L.
  - destruct (leb (Fin mv kv) (Fin mx kx)) eqn:L2; [num_lra | num_lra].
  - reflexivity.
Qed.

Lemma max0_finite x : isFinite x = true -> isFinite (Math_max (int 0) x) = true.
Proof.
  intros Hx. destruct (isFinite_inv _ Hx) as (m & k & ->).
  unfold int. rewrite Math_max_fin. destruct (ltb _ _); reflexivity.
Qed.

(** C6.  Bulk import of the rows of a sheet.  Each numeric field reads as
    the number its text denotes, or [0] when that is not finite; the spent
    amount written is [min(max(0, spent), value)], which lies in
    [[0, value]] on every row kept; the status written is used exactly
    when the spent amount written reaches the value, and unused otherwise;
    the rows kept are those with a non-empty trimmed name and a positive
    value, in sheet order; they go to the store in one insert, and without
    any such row the import answers with an alert and inserts nothing. *)
Theorem import_rows_outcome (uid : string) (ws : list (list any)) :
  (forall a,
     let n := Number_of_string (strip_leading_zeros (String_of a)) in
     isFinite (toNum a) = true
     /\ (isFinite n = true -> toNum a = n)
     /\ (isFinite n = false -> toNum a = int 0))
  /\ (forall r,
        let row := import_row uid r in
        Row.name row = trim (String_of (or_else (get r "name") (AStr "")))
        /\ Row.value row = toNum (get r "value")
        /\ Row.spent row
           = Math_min
               (Math_max (int 0)
                  (toNum (or_else (get r "spent") (ANum (int 0)))))
               (Row.value row)
        /\ Row.status row
           = (if geb (Row.spent row) (Row.value row) then used else unused)
        /\ (valid_row row = true ->
            leb (int 0) (Row.spent row) = true
            /\ leb (Row.spent row) (Row.value row) = true))
  /\ (let kept :=
        filter (fun row => negb (is_empty (Row.name row))
                           && gtb (Row.value row) (int 0))
          (map (import_row uid) (sheet_to_json ws)) in
      importExcel (Some uid) ws
      = match kept with
        | [] => Alert "No valid rows found."
        | _ => Insert kept
        end).
Proof.
  split; [|split].
  - intros a n. split; [apply toNum_finite|].
    unfold toNum. fold n. split; intros ->; reflexivity.
  - intros r row. subst row.
    split; [reflexivity|]. split; [reflexivity|]. split; [reflexivity|].
    split.
    + unfold import_row; fields.
      rewrite min_reaches_iff; [reflexivity | | apply toNum_finite].
      apply max0_finite, toNum_finite.
    + exact (import_row_ledger uid r).
  - reflexivity.
Qed.

(* ================================================================== *)
(** * List projection *)
(* ================================================================== *)

(** ** The order of numbers other than [NaN] *)

Lemma sub_sign x y :
  x <> NaN -> y <> NaN -> gtb (sub x y) (int 0) = ltb y x.
Proof.
  intros Hx Hy.
  destruct x as [mx kx| | |], y as [my ky| | |];
    try (exfalso; congruence); try reflexivity.
  destruct (ltb (Fin my ky) (Fin mx kx)) eqn:L; num_lra.
Qed.

Lemma ltb_asym x y : ltb x y = true -> ltb y x = false.
Proof.
  destruct x, y; try discriminate; try reflexivity. intros. to_Q. lra.
Qed.

Lemma ltb_negtrans x y z :
  x <> NaN -> y <> NaN -> z <> NaN ->
  ltb y x = false -> ltb z y = false -> ltb z x = false.
Proof.
  intros Hx Hy Hz.
  destruct x, y, z; try (exfalso; congruence);
    try discriminate; try reflexivity.
  intros. to_Q. lra.
Qed.

(** ** Insertion from the right is a stable sort *)

Section StableSort.
Context {A : Type}.
Variable P : A -> Prop.
Variable comparefn : A -> A -> number.
Variable before : A -> A -> bool.

Hypothesis comparefn_sign :
  forall x y, P x -> P y -> gtb (comparefn x y) (int 0) = before y x.
Hypothesis before_asym :
  forall x y, P x -> P y -> before x y = true -> before y x = false.
Hypothesis before_negtrans :
  forall x y z, P x -> P y -> P z ->
    before y x = false -> before z y = false -> before z x = false.

Lemma sort_insert_In x l y :
  In y (sort_insert comparefn x l) <-> y = x \/ In y l.
Proof.
  induction l as [|h t IH]; cbn [sort_insert].
  - cbn. intuition.
  - destruct (gtb (comparefn x h) (int 0)); cbn [In]; [rewrite IH|];
      intuition.
Qed.

Lemma Array_sort_In l y : In y (Array_sort comparefn l) <-> In y l.
Proof.
  induction l as [|h t IH]; [reflexivity|].
  cbn [Array_sort fold_right]. fold (Array_sort comparefn t).
  rewrite sort_insert_In, IH. cbn [In]. intuition.
Qed.

Lemma sort_insert_sorted x l :
  P x -> Forall P l ->
  StronglySorted (fun a b => before b a = false) l ->
  StronglySorted (fun a b => before b a = false)
    (sort_insert comparefn x l).
Proof.
  intros Px Pl Hs. induction l as [|h t IH]; cbn [sort_insert].
  - constructor; constructor.
  - inversion Pl as [|? ? Ph Pt]; subst.
    inversion Hs as [|? ? Hst Hh]; subst.
    rewrite (comparefn_sign x h Px Ph).
    destruct (before h x) eqn:B.
    + constructor; [apply IH; assumption|].
      apply Forall_forall. intros y Hy.
      apply sort_insert_In in Hy. destruct Hy as [->|Hy].
      * apply before_asym; assumption.
      * rewrite Forall_forall in Hh. apply Hh. exact Hy.
    + constructor; [exact Hs|].
      constructor; [exact B|].
      apply Forall_forall. intros y Hy.
      rewrite Forall_forall in Hh, Pt.
      apply (before_negtrans x h y); auto.
Qed.

Lemma sort_insert_stable x l w :
  P w -> P x -> Forall P l ->
  filter (tied before w) (sort_insert comparefn x l)
  = filter (tied before w) (x :: l).
Proof.
  intros Pw Px Pl. induction l as [|h t IH]; [reflexivity|].
  inversion Pl as [|? ? Ph Pt]; subst.
  cbn [sort_insert]. rewrite (comparefn_sign x h Px Ph).
  destruct (before h x) eqn:B; [|reflexivity].
  cbn [filter]. rewrite (IH Pt). cbn [filter].
  destruct (tied before w h) eqn:Th, (tied before w x) eqn:Tx;
    try reflexivity.
  exfalso. unfold tied in Th, Tx.
  apply andb_true_iff in Th, Tx.
  destruct Th as [Th1 Th2], Tx as [Tx1 Tx2].
  apply negb_true_iff in Th1, Th2, Tx1, Tx2.
  rewrite (before_negtrans x w h Px Pw Ph Tx1 Th2) in B. discriminate.
Qed.

Lemma Array_sort_Forall l : Forall P l -> Forall P (Array_sort comparefn l).
Proof.
  intros H. apply Forall_forall. intros y Hy.
  rewrite Forall_forall in H. apply H. apply Array_sort_In. exact Hy.
Qed.

Lemma Array_sort_sorted l :
  Forall P l ->
  StronglySorted (fun a b => before b a = false) (Array_sort comparefn l).
Proof.
  induction l as [|h t IH]; intros Pl; [constructor|].
  inversion Pl as [|? ? Ph Pt]; subst.
  cbn [Array_sort fold_right]. fold (Array_sort comparefn t).
  apply sort_insert_sorted; auto using Array_sort_Forall.
Qed.

Lemma Array_sort_stable l w :
  P w -> Forall P l ->
  filter (tied before w) (Array_sort comparefn l)
  = filter (tied before w) l.
Proof.
  intros Pw. induction l as [|h t IH]; intros Pl; [reflexivity|].
  inversion Pl as [|? ? Ph Pt]; subst.
  cbn [Array_sort fold_right]. fold (Array_sort comparefn t).
  rewrite sort_insert_stable; auto using Array_sort_Forall.
  cbn [filter]. rewrite (IH Pt). reflexivity.
Qed.
End StableSort.

Lemma stable_sort_intro {A : Type} (P : A -> Prop)
    (comparefn : A -> A -> number) (before : A -> A -> bool) (l : list A) :
  (forall x y, P x -> P y -> gtb (comparefn x y) (int 0) = before y x) ->
  (forall x y, P x -> P y -> before x y = true -> before y x = false) ->
  (forall x y z, P x -> P y -> P z ->
     before y x = false -> before z y = false -> before z x = false) ->
  Forall P l ->
  StableSortBy before l (Array_sort comparefn l).
Proof.
  intros Hsign Hasym Htrans Pl. split; [|split].
  - apply (Array_sort_sorted P comparefn before); assumption.
  - intros x Hx. apply Array_sort_In in Hx. exact Hx.
  - intros x Hx. apply (Array_sort_stable P comparefn before); try assumption.
    rewrite Forall_forall in Pl. auto.
Qed.

Lemma unsorted_is_stable {A : Type} (l : list A) :
  StableSortBy (fun _ _ => false) l l.
Proof.
  split; [|split]; [|auto|auto].
  induction l as [|h t IH]; constructor; [exact IH|].
  apply Forall_forall. reflexivity.
Qed.

(** ** The keys of stored vouchers *)

Lemma stored_number_not_nan x : stored_number x -> x <> NaN.
Proof. intros [H _] ->. discriminate. Qed.

Lemma remaining_stored v :
  stored_voucher v ->
  remaining v
  = Math_max (int 0) (sub (Voucher.value v) (Voucher.spent v))
  /\ remaining v <> NaN.
Proof.
  intros (Hv & Hs & _). unfold remaining.
  rewrite (or0_stored _ Hv), (or0_stored _ Hs). split; [reflexivity|].
  destruct Hv as [Hv _], Hs as [Hs _].
  destruct (isFinite_inv _ Hv) as (mv & kv & ->).
  destruct (isFinite_inv _ Hs) as (ms & ks & ->).
  destruct (sub_fin mv kv ms ks) as (m & k & -> & _).
  unfold int. rewrite Math_max_fin. destruct (ltb _ _); discriminate.
Qed.

Lemma parse_iso_date_nonempty s : parse_iso_date s <> None -> is_empty s = false.
Proof. destruct s; [intros H; exfalso; apply H; reflexivity | reflexivity]. Qed.

Lemma expMs_stored v :
  stored_voucher v ->
  expMs v <> NaN /\ expiry_day v <> NaN
  /\ forall w, stored_voucher w ->
       ltb (expMs v) (expMs w) = ltb (expiry_day v) (expiry_day w).
Proof.
  assert (shape : forall u, stored_voucher u ->
            (expMs u = PosInf /\ expiry_day u = PosInf)
            \/ exists d, expMs u = int (d * msPerDay)
                         /\ expiry_day u = int d).
  { intros u (_ & _ & He). unfold expMs, expiry_day, stored_expiry in *.
    destruct (Voucher.expires_on u) as [s|]; [|left; split; reflexivity].
    rewrite (parse_iso_date_nonempty _ He). unfold Date_new.
    destruct (parse_iso_date s) as [[[y m] d]|]; [|congruence].
    right. exists (MakeDay y m d). split; reflexivity. }
  intros Hv.
  destruct (shape v Hv) as [[-> ->]|(d & -> & ->)].
  - split; [discriminate|]. split; [discriminate|].
    intros w Hw. destruct (shape w Hw) as [[-> ->]|(e & -> & ->)]; reflexivity.
  - split; [discriminate|]. split; [discriminate|].
    intros w Hw. destruct (shape w Hw) as [[-> ->]|(e & -> & ->)];
      [reflexivity|].
    unfold ltb, int. change (pow10 0) with 1. rewrite !Z.mul_1_r.
    unfold msPerDay.
    destruct (Z.ltb_spec d e); destruct (Z.ltb_spec (d * 86400000) (e * 86400000));
      try reflexivity; lia.
Qed.

Lemma filter_and {A : Type} (f g : A -> bool) (l : list A) :
  filter (fun x => f x && g x) l = filter g (filter f l).
Proof.
  induction l as [|h t IH]; [reflexivity|]. cbn [filter].
  destruct (f h); cbn [andb filter]; [|exact IH].
  destruct (g h); rewrite IH; reflexivity.
Qed.

Lemma Forall_filter {A : Type} (P : A -> Prop) (f : A -> bool) (l : list A) :
  Forall P l -> Forall P (filter f l).
Proof.
  rewrite !Forall_forall. intros H x Hx. apply filter_In in Hx. apply H, Hx.
Qed.








Lemma expMs_expiry v :
  stored_expiry (Voucher.expires_on v) ->
  expMs v <> NaN /\ expiry_day v <> NaN
  /\ forall w, stored_expiry (Voucher.expires_on w) ->
       ltb (expMs v) (expMs w) = ltb (expiry_day v) (expiry_day w).
Proof.
  assert (shape : forall u, stored_expiry (Voucher.expires_on u) ->
            (expMs u = PosInf /\ expiry_day u = PosInf)
            \/ exists d, expMs u = int (d * msPerDay)
                         /\ expiry_day u = int d).
  { intros u He. unfold expMs, expiry_day, stored_expiry in *.
    destruct (Voucher.expires_on u) as [s|]; [|left; split; reflexivity].
    rewrite (parse_iso_date_nonempty _ He). unfold Date_new.
    destruct (parse_iso_date s) as [[[y m] d]|]; [|congruence].
    right. exists (MakeDay y m d). split; reflexivity. }
  intros Hv.
  destruct (shape v Hv) as [[-> ->]|(d & -> & ->)].
  - split; [discriminate|]. split; [discriminate|].
    intros w Hw. destruct (shape w Hw) as [[-> ->]|(e & -> & ->)]; reflexivity.
  - split; [discriminate|]. split; [discriminate|].
    intros w Hw. destruct (shape w Hw) as [[-> ->]|(e & -> & ->)];
      [reflexivity|].
    rewrite !ltb_int. unfold msPerDay.
    destruct (Z.ltb_spec d e); destruct (Z.ltb_spec (d * 86400000) (e * 86400000));
      try reflexivity; lia.
Qed.

Lemma remaining_whole v :
  whole_amounts v ->
  remaining v
  = Math_max (int 0) (sub (Voucher.value v) (Voucher.spent v))
  /\ remaining v <> NaN.
Proof.
  intros [Wv Ws].
  destruct (whole_amount_inv _ Wv) as (mv & Ev & _).
  destruct (whole_amount_inv _ Ws) as (ms & Es & _).
  pose proof (whole_amount_stored _ Wv) as Hv.
  pose proof (whole_amount_stored _ Ws) as Hs.
  unfold remaining. rewrite (or0_stored _ Hv), (or0_stored _ Hs).
  split; [reflexivity|]. rewrite Ev, Es. unfold int.
  destruct (sub_fin mv 0 ms 0) as (m & k & -> & _).
  rewrite Math_max_fin. destruct (ltb _ _); discriminate.
Qed.

(** The sort of [filtered] is a stable sort of the kept vouchers by the
    sort key, on vouchers that the key can sort. *)
Lemma filtered_sorts tza now list filterCategory search sort :
  Forall (sortable sort) list ->
  StableSortBy (sort_before tza now sort)
    (filter (inSearch (toLowerCase (trim search)))
       (filter (inCategory filterCategory) list))
    (filtered tza now list filterCategory search sort).
Proof.
  intros Hst. unfold filtered. rewrite filter_and.
  set (kept := filter (inSearch (toLowerCase (trim search)))
                 (filter (inCategory filterCategory) list)).
  assert (Hk : Forall (sortable sort) kept)
    by (unfold kept; auto using Forall_filter).
  destruct sort; cbn [sort_before].
  - apply unsorted_is_stable.
  - apply (stable_sort_intro (sortable value_desc)); [| | |exact Hk];
      cbn [sort_before sortable].
    + intros x y Hx Hy.
      rewrite (or0_stored _ Hx), (or0_stored _ Hy).
      apply sub_sign; apply stored_number_not_nan; assumption.
    + intros x y _ _. apply ltb_asym.
    + intros x y z Hx Hy Hz H1 H2.
      apply (ltb_negtrans _ (Voucher.value y)); auto;
        apply stored_number_not_nan; assumption.
  - apply (stable_sort_intro (sortable value_asc)); [| | |exact Hk];
      cbn [sort_before sortable].
    + intros x y Hx Hy.
      rewrite (or0_stored _ Hx), (or0_stored _ Hy).
      apply sub_sign; apply stored_number_not_nan; assumption.
    + intros x y _ _. apply ltb_asym.
    + intros x y z Hx Hy Hz.
      apply ltb_negtrans; apply stored_number_not_nan; assumption.
  - apply (stable_sort_intro (sortable expiry_asc)); [| | |exact Hk];
      cbn [sort_before sortable].
    + intros x y Hx Hy.
      destruct (expMs_expiry x Hx) as (Nx & _ & _).
      destruct (expMs_expiry y Hy) as (Ny & _ & Ey).
      rewrite (sub_sign _ _ Nx Ny). apply Ey. exact Hx.
    + intros x y _ _. apply ltb_asym.
    + intros x y z Hx Hy Hz H1 H2.
      destruct (expMs_expiry x Hx) as (_ & Nx & _).
      destruct (expMs_expiry y Hy) as (_ & Ny & _).
      destruct (expMs_expiry z Hz) as (_ & Nz & _).
      apply (ltb_negtrans _ (expiry_day y)); auto.
  - apply (stable_sort_intro (sortable remaining_desc)); [| | |exact Hk];
      cbn [sort_before sortable].
    + intros x y Hx Hy.
      destruct (remaining_whole x Hx) as (Ex & Nx).
      destruct (remaining_whole y Hy) as (Ey & Ny).
      rewrite (sub_sign _ _ Ny Nx), Ex, Ey. reflexivity.
    + intros x y _ _. apply ltb_asym.
    + intros x y z Hx Hy Hz.
      destruct (remaining_whole x Hx) as (Ex & Nx).
      destruct (remaining_whole y Hy) as (Ey & Ny).
      destruct (remaining_whole z Hz) as (Ez & Nz).
      rewrite <- Ex, <- Ey, <- Ez. intros H1 H2.
      apply (ltb_negtrans _ (remaining y)); assumption.
  - apply (stable_sort_intro (sortable status_used_first)); [| | |exact Hk];
      cbn [sort_before].
    + intros x y _ _. cbv zeta.
      rewrite sub_sign by discriminate. apply ltb_int.
    + intros x y _ _ H. apply Z.ltb_lt in H. apply Z.ltb_ge. lia.
    + intros x y z _ _ _ H1 H2.
      apply Z.ltb_ge in H1, H2. apply Z.ltb_ge. lia.
  - apply (stable_sort_intro (sortable status_unused_first)); [| | |exact Hk];
      cbn [sort_before].
    + intros x y _ _. cbv zeta.
      rewrite sub_sign by discriminate. apply ltb_int.
    + intros x y _ _ H. apply Z.ltb_lt in H. apply Z.ltb_ge. lia.
    + intros x y z _ _ _ H1 H2.
      apply Z.ltb_ge in H1, H2. apply Z.ltb_ge. lia.
Qed.




(* ================================================================== *)
(** * The text of a number reads back as the number *)
(* ================================================================== *)

(** ** Digits *)

Lemma digit_char_spec d :
  0 <= d < 10 ->
  is_digit (digit_char d) = true
  /\ digit_val (digit_char d) = d
  /\ is_space (digit_char d) = false
  /\ (d <> 0 -> digit_char d <> "0"%char)
  /\ (d = 0 -> digit_char d = "0"%char).
Proof.
  intros H.
  assert (d = 0 \/ d = 1 \/ d = 2 \/ d = 3 \/ d = 4 \/ d = 5 \/ d = 6
          \/ d = 7 \/ d = 8 \/ d = 9) as Hd by lia.
  repeat (destruct Hd as [->|Hd]); try subst d;
    (repeat split; try reflexivity; try (intros; discriminate);
     try (intros E; exfalso; apply E; reflexivity)).
Qed.

Lemma append_nil_r s : s ++ "" = s.
Proof. induction s; [reflexivity | cbn; rewrite IHs; reflexivity]. Qed.

Lemma append_assoc (a b c : string) : (a ++ b) ++ c = a ++ (b ++ c).
Proof. induction a; [reflexivity | cbn; rewrite IHa; reflexivity]. Qed.

Lemma append_length (a b : string) :
  String.length (a ++ b) = (String.length a + String.length b)%nat.
Proof. induction a; [reflexivity | cbn; rewrite IHa; reflexivity]. Qed.

Lemma digits_only_app a b :
  digits_only (a ++ b) = digits_only a && digits_only b.
Proof.
  induction a; [reflexivity|]. cbn. rewrite IHa, andb_assoc. reflexivity.
Qed.

Lemma no_space_app a b : no_space (a ++ b) = no_space a && no_space b.
Proof.
  induction a; [reflexivity|]. cbn. rewrite IHa, andb_assoc. reflexivity.
Qed.

Lemma is_digit_not_space c : is_digit c = true -> is_space c = false.
Proof.
  unfold is_digit, is_space. intros H. apply andb_true_iff in H.
  destruct H as [H1 H2]. apply Z.leb_le in H1, H2.
  apply orb_false_iff. split.
  - apply andb_false_iff. right. apply Z.leb_gt. lia.
  - apply Z.eqb_neq. lia.
Qed.

Lemma digits_only_no_space s : digits_only s = true -> no_space s = true.
Proof.
  induction s as [|c r IH]; [reflexivity|]. cbn. intros H.
  apply andb_true_iff in H. destruct H as [Hc Hr].
  rewrite (is_digit_not_space _ Hc), (IH Hr). reflexivity.
Qed.

Lemma digits_val_app a b acc :
  digits_val (a ++ b) acc = digits_val b (digits_val a acc).
Proof.
  revert acc. induction a as [|c r IH]; intros acc; [reflexivity|].
  cbn. apply IH.
Qed.

Lemma digits_val_acc s acc :
  digits_val s acc = acc * pow10 (String.length s) + digits_val s 0.
Proof.
  revert acc. induction s as [|c r IH]; intros acc.
  - cbn. change (pow10 0) with 1. lia.
  - cbn [digits_val String.length]. rewrite IH.
    rewrite (IH (10 * 0 + digit_val c)). rewrite pow10_S. lia.
Qed.

Lemma digits_val_zeros n acc : digits_val (zeros n) acc = acc * pow10 n.
Proof.
  revert acc. induction n as [|n IH]; intros acc.
  - cbn. change (pow10 0) with 1. lia.
  - cbn [zeros digits_val]. rewrite IH, pow10_S.
    change (digit_val "0") with 0. lia.
Qed.

Lemma zeros_length n : String.length (zeros n) = n.
Proof. induction n; [reflexivity | cbn; rewrite IHn; reflexivity]. Qed.

Lemma digits_only_zeros n : digits_only (zeros n) = true.
Proof. induction n; [reflexivity | exact IHn]. Qed.

(** The digits of a natural number: only digits, at least one, the value
    read back, no leading zero, and the last digit is the residue. *)
Lemma digits_fuel_spec f n :
  0 <= n < 2 ^ Z.of_nat f -> (f <> 0)%nat ->
  let s := digits_fuel f n in
  digits_only s = true
  /\ digits_val s 0 = n
  /\ (exists t, s = t ++ String (digit_char (n mod 10)) "")
  /\ (0 < n -> exists c r, s = String c r /\ c <> "0"%char).
Proof.
  revert n. induction f as [|f IH]; intros n Hn Hf; [congruence|].
  cbn [digits_fuel]. destruct (Z.ltb_spec n 10) as [L|L].
  - destruct (digit_char_spec n ltac:(lia)) as (Hd & Hv & _ & Hnz & _).
    cbn zeta. repeat split.
    + cbn. rewrite Hd. reflexivity.
    + cbn. rewrite Hv. reflexivity.
    + exists "". rewrite Z.mod_small by lia. reflexivity.
    + intros Hpos. exists (digit_char n), "". split; [reflexivity|].
      apply Hnz. lia.
  - assert (Hq : 0 <= n / 10 < 2 ^ Z.of_nat f).
    { split; [apply Z.div_pos; lia|].
      rewrite Nat2Z.inj_succ, Z.pow_succ_r in Hn by lia.
      apply Z.div_lt_upper_bound; lia. }
    assert (Hf' : (f <> 0)%nat).
    { intros ->. change (2 ^ Z.of_nat 0) with 1 in Hq.
      assert (1 <= n / 10) by (apply Z.div_le_lower_bound; lia). lia. }
    destruct (IH (n / 10) Hq Hf') as (Hd & Hv & _ & Hhd).
    destruct (digit_char_spec (n mod 10)
                ltac:(apply Z.mod_pos_bound; lia)) as (Hd1 & Hv1 & _).
    cbn zeta. repeat split.
    + rewrite digits_only_app, Hd. cbn. rewrite Hd1. reflexivity.
    + rewrite digits_val_app, Hv. cbn [digits_val]. rewrite Hv1.
      pose proof (Z.div_mod n 10 ltac:(lia)). lia.
    + eexists. reflexivity.
    + intros _. destruct Hhd as (c & r & E & Hc).
      { apply Z.div_str_pos. lia. }
      rewrite E. exists c, (r ++ String (digit_char (n mod 10)) "").
      split; [reflexivity | exact Hc].
Qed.

Lemma digits_spec n :
  0 <= n ->
  digits_only (digits n) = true
  /\ digits_val (digits n) 0 = n
  /\ (exists t, digits n = t ++ String (digit_char (n mod 10)) "")
  /\ (0 < n -> exists c r, digits n = String c r /\ c <> "0"%char).
Proof.
  intros Hn. apply digits_fuel_spec; [|discriminate].
  split; [exact Hn|].
  destruct (Z.eq_dec n 0) as [->|Hz]; [reflexivity|].
  rewrite Nat2Z.inj_succ, Z2Nat.id by apply Z.log2_nonneg.
  apply Z.log2_spec. lia.
Qed.

(** ** Leading and trailing parts *)

Lemma strip_trailing_zeros_spec s :
  exists z, s = strip_trailing_zeros s ++ zeros z.
Proof.
  induction s as [|c r [z IH]]; [exists 0%nat; reflexivity|].
  cbn [strip_trailing_zeros].
  destruct (Ascii.eqb_spec c "0"%char) as [->|Hc]; cbn [andb].
  - destruct (strip_trailing_zeros r) eqn:E; cbn [is_empty].
    + exists (S z). cbn. rewrite IH at 1. reflexivity.
    + exists z. cbn. rewrite IH at 1. reflexivity.
  - exists z. cbn. rewrite IH at 1. reflexivity.
Qed.

Lemma strip_trailing_zeros_noop t c :
  c <> "0"%char ->
  strip_trailing_zeros (t ++ String c "") = t ++ String c "".
Proof.
  intros Hc. induction t as [|a t IH]; cbn [append strip_trailing_zeros].
  - destruct (Ascii.eqb_spec c "0"%char); [contradiction | reflexivity].
  - rewrite IH. destruct t; cbn [append is_empty];
      rewrite andb_false_r; reflexivity.
Qed.

Lemma digits_only_strip s :
  digits_only s = true -> digits_only (strip_trailing_zeros s) = true.
Proof.
  intros H. destruct (strip_trailing_zeros_spec s) as [z E].
  rewrite E, digits_only_app in H. apply andb_true_iff in H. apply H.
Qed.

Lemma span_digits_app d r :
  digits_only d = true -> no_digit_head r = true ->
  span_digits (d ++ r) = (d, r).
Proof.
  intros Hd Hr. induction d as [|c d IH].
  - cbn [append]. destruct r as [|c r]; [reflexivity|].
    cbn [span_digits]. cbn in Hr. apply negb_true_iff in Hr.
    rewrite Hr. reflexivity.
  - cbn in Hd. apply andb_true_iff in Hd. destruct Hd as [Hc Hd].
    cbn [append span_digits]. rewrite Hc, (IH Hd). reflexivity.
Qed.

Lemma split_at n s :
  (n <= String.length s)%nat ->
  exists a b, s = a ++ b /\ String.length a = n
    /\ substring 0 n s = a
    /\ substring n (String.length s - n) s = b.
Proof.
  revert n. induction s as [|c r IH]; intros n Hn.
  - cbn in Hn. assert (n = 0)%nat as -> by lia.
    exists "", "". repeat split; reflexivity.
  - destruct n as [|n].
    + exists "", (String c r). repeat split; try reflexivity.
      cbn [substring String.length Nat.sub].
      f_equal. clear. induction r as [|a r IH]; [reflexivity|].
      cbn. rewrite IH. reflexivity.
    + cbn in Hn. destruct (IH n ltac:(lia)) as (a & b & E & L & S1 & S2).
      exists (String c a), b. repeat split.
      * cbn. rewrite <- E. reflexivity.
      * cbn. rewrite L. reflexivity.
      * cbn. rewrite S1. reflexivity.
      * cbn. exact S2.
Qed.

Lemma trimEnd_no_space s : no_space s = true -> trimEnd s = s.
Proof.
  induction s as [|c r IH]; [reflexivity|]. cbn [no_space trimEnd].
  intros H. apply andb_true_iff in H. destruct H as [Hc Hr].
  apply negb_true_iff in Hc. rewrite Hc, (IH Hr). reflexivity.
Qed.

Lemma trim_no_space s : no_space s = true -> trim s = s.
Proof.
  intros H. unfold trim.
  assert (trimStart s = s) as ->.
  { destruct s as [|c r]; [reflexivity|]. cbn in H. cbn [trimStart].
    apply andb_true_iff in H. destruct H as [Hc _].
    apply negb_true_iff in Hc. rewrite Hc. reflexivity. }
  apply trimEnd_no_space. exact H.
Qed.

Lemma strip_leading_zeros_nonzero c r :
  c <> "0"%char -> strip_leading_zeros (String c r) = String c r.
Proof.
  intros Hc. destruct c as [[] [] [] [] [] [] [] []];
    try reflexivity. exfalso. apply Hc. reflexivity.
Qed.

Lemma Number_head_digit c r :
  is_digit c = true -> c <> "0"%char -> no_space (String c r) = true ->
  Number_of_string (String c r) = parse_unsigned (String c r).
Proof.
  intros Hd Hz Hs. unfold Number_of_string. rewrite (trim_no_space _ Hs).
  destruct c as [[] [] [] [] [] [] [] []];
    try (vm_compute in Hd; discriminate Hd);
    try (exfalso; apply Hz; reflexivity); reflexivity.
Qed.

Lemma not_Infinity c r :
  is_digit c = true -> String.eqb (String c r) "Infinity" = false.
Proof.
  intros Hd. cbn [String.eqb].
  destruct (Ascii.eqb_spec c "I"%char) as [->|]; [discriminate Hd|reflexivity].
Qed.

(** The exponent part of a text, with the exponent it denotes. *)
Lemma digits_nonempty n : 0 <= n -> is_empty (digits n) = false.
Proof.
  intros Hn. destruct (digits_spec n Hn) as (_ & _ & (t & E) & _).
  rewrite E. destruct t; reflexivity.
Qed.

Lemma parse_exponent_text e :
  parse_exponent
    ("e" ++ (if e <? 0 then "-" else "+") ++ digits (Z.abs e))
  = Some e.
Proof.
  assert (Ha : 0 <= Z.abs e) by lia.
  destruct (digits_spec _ Ha) as (Hd & Hv & _ & _).
  pose proof (span_digits_app (digits (Z.abs e)) "" Hd eq_refl) as Hsp.
  rewrite append_nil_r in Hsp.
  destruct (Z.ltb_spec e 0); cbn [append parse_exponent Ascii.eqb Bool.eqb
                                  orb];
    rewrite Hsp, (digits_nonempty _ Ha), Hv; cbn [is_empty negb orb];
    f_equal; lia.
Qed.

Lemma read_after_digits i r1 f r2 e :
  digits_only i = true -> is_empty i = false ->
  no_digit_head r1 = true ->
  (let (f', r2') :=
     match r1 with
     | String "."%char t => span_digits t
     | _ => (EmptyString, r1)
     end in f' = f /\ r2' = r2) ->
  parse_exponent r2 = Some e ->
  parse_unsigned (i ++ r1) = scale (digits_val (i ++ f) 0) (String.length f) e.
Proof.
  intros Hi Hne Hr1 Hfr He. unfold parse_unsigned.
  destruct i as [|c i']; [discriminate|].
  cbn [append]. rewrite not_Infinity
    by (cbn in Hi; apply andb_true_iff in Hi; apply Hi).
  change (String c (i' ++ r1)) with (String c i' ++ r1).
  rewrite (span_digits_app _ _ Hi Hr1).
  destruct (match r1 with
            | String "."%char t => span_digits t
            | _ => (EmptyString, r1)
            end) as [f' r2'].
  destruct Hfr as [-> ->]. cbn [is_empty andb]. rewrite He. reflexivity.
Qed.

(** ** The text of a positive number *)

Lemma norm_scale_le m k m' k' : norm m k = Fin m' k' -> (k' <= k)%nat.
Proof.
  revert m. induction k as [|k IH]; intros m; cbn [norm].
  - intros H. injection H as _ <-. lia.
  - destruct (m mod 10 =? 0).
    + intros H. apply IH in H. lia.
    + intros H. injection H as _ <-. lia.
Qed.

Lemma canonical_last_digit m k : norm m (S k) = Fin m (S k) -> m mod 10 <> 0.
Proof.
  cbn [norm]. destruct (Z.eqb_spec (m mod 10) 0) as [E|E]; [|intros _; exact E].
  intros H. apply norm_scale_le in H. lia.
Qed.

(** The digits of [m > 0], their significant part [s] and the zeros
    [z] after it. *)
Lemma digits_parts m k :
  0 < m -> norm m k = Fin m k ->
  exists c r z,
    strip_trailing_zeros (digits m) = String c r
    /\ digits m = String c r ++ zeros z
    /\ c <> "0"%char
    /\ digits_only (String c r) = true
    /\ digits_val (String c r) 0 * pow10 z = m
    /\ (k <> 0%nat -> z = 0%nat).
Proof.
  intros Hm Hc.
  destruct (digits_spec m ltac:(lia)) as (Hd & Hv & (t & Elast) & Hhead).
  destruct (Hhead Hm) as (c & r & Ed & Hc0).
  destruct (strip_trailing_zeros_spec (digits m)) as [z Ez].
  pose proof (digits_only_strip _ Hd) as Hs.
  assert (Hval : digits_val (strip_trailing_zeros (digits m)) 0 * pow10 z = m).
  { rewrite <- Hv at 2. rewrite Ez at 2.
    rewrite digits_val_app, digits_val_zeros. reflexivity. }
  destruct (strip_trailing_zeros (digits m)) as [|c' r'] eqn:Es.
  { cbn in Hval. lia. }
  assert (c' = c) as ->.
  { rewrite Ed in Ez. cbn in Ez. injection Ez as -> _. reflexivity. }
  exists c, r', z. repeat split; try assumption.
  intros Hk. destruct k as [|k]; [congruence|].
  pose proof (canonical_last_digit _ _ Hc) as Hlast.
  destruct (digit_char_spec (m mod 10)
              ltac:(apply Z.mod_pos_bound; lia)) as (_ & _ & _ & Hnz & _).
  rewrite Elast, (strip_trailing_zeros_noop _ _ (Hnz Hlast)) in Es.
  rewrite <- Elast in Es. rewrite Es in Ez.
  apply (f_equal String.length) in Ez.
  rewrite append_length, zeros_length in Ez. lia.
Qed.

Lemma scale_exact m k : norm m k = Fin m k -> scale m k 0 = Fin m k.
Proof.
  intros H. unfold scale. cbn [Z.ltb Z.compare Z.to_nat Nat.leb].
  rewrite Nat.sub_0_r. exact H.
Qed.

Lemma exponent_text_no_space e :
  no_space ((if e <? 0 then "-" else "+") ++ digits (Z.abs e)) = true.
Proof.
  destruct (digits_spec (Z.abs e) ltac:(lia)) as (Hd & _).
  apply digits_only_no_space in Hd.
  destruct (e <? 0); cbn; exact Hd.
Qed.

Lemma no_space_sep a (c : ascii) b :
  no_space a = true -> is_space c = false -> no_space b = true ->
  no_space (a ++ String c b) = true.
Proof.
  intros Ha Hc Hb. rewrite no_space_app, Ha. cbn [no_space andb].
  rewrite Hc, Hb. reflexivity.
Qed.

Lemma read_int i r2 e :
  digits_only i = true -> is_empty i = false ->
  (r2 = "" /\ e = 0)
  \/ r2 = "e" ++ (if e <? 0 then "-" else "+") ++ digits (Z.abs e) ->
  parse_unsigned (i ++ r2) = scale (digits_val i 0) 0 e.
Proof.
  intros Hi Hne Hr2.
  rewrite (read_after_digits i r2 "" r2 e);
    [rewrite append_nil_r; reflexivity | .. ]; try assumption.
  - destruct Hr2 as [[-> _]| ->]; reflexivity.
  - destruct Hr2 as [[-> _]| ->]; split; reflexivity.
  - destruct Hr2 as [[-> ->]| ->]; [reflexivity | apply parse_exponent_text].
Qed.

Lemma read_frac i f r2 e :
  digits_only i = true -> is_empty i = false -> digits_only f = true ->
  (r2 = "" /\ e = 0)
  \/ r2 = "e" ++ (if e <? 0 then "-" else "+") ++ digits (Z.abs e) ->
  parse_unsigned (i ++ "." ++ f ++ r2)
  = scale (digits_val (i ++ f) 0) (String.length f) e.
Proof.
  intros Hi Hne Hf Hr2.
  apply (read_after_digits i ("." ++ f ++ r2) f r2 e); try assumption.
  - reflexivity.
  - cbn [append]. rewrite span_digits_app; [split; reflexivity | exact Hf |].
    destruct Hr2 as [[-> _]| ->]; reflexivity.
  - destruct Hr2 as [[-> ->]| ->]; [reflexivity | apply parse_exponent_text].
Qed.

Lemma positive_to_string_reads m k :
  0 < m -> norm m k = Fin m k ->
  let str := positive_to_string m k in
  parse_unsigned str = Fin m k
  /\ no_space str = true
  /\ ((exists c r, str = String c r /\ is_digit c = true /\ c <> "0"%char)
      \/ exists r, str = String "0"%char (String "."%char r)).
Proof.
  intros Hm Hc.
  destruct (digits_parts m k Hm Hc)
    as (c & r & z & Es & Ed & Hc0 & Hds & Hval & Hz).
  unfold positive_to_string. rewrite Es, Ed, append_length, zeros_length.
  set (s := String c r) in *.
  assert (Hcd : is_digit c = true).
  { cbn in Hds. apply andb_true_iff in Hds. apply Hds. }
  pose proof (digits_only_no_space _ Hds) as Hsp.
  set (sl := Z.of_nat (String.length s)).
  set (n := Z.of_nat (String.length s + z) - Z.of_nat k).
  assert (Hsl : 1 <= sl) by (subst sl s; cbn [String.length]; lia).
  destruct ((sl <=? n) && (n <=? 21)) eqn:A.
  { (* an integer written out *)
    apply andb_true_iff in A. destruct A as [A1 A2].
    apply Z.leb_le in A1, A2.
    assert (k = 0%nat) as ->.
    { destruct k as [|k]; [reflexivity|].
      assert (z = 0%nat) by (apply Hz; discriminate). subst sl n. lia. }
    replace (Z.to_nat (n - sl)) with z by (subst sl n; lia).
    split; [|split].
    - rewrite <- (append_nil_r (s ++ zeros z)).
      rewrite (read_int (s ++ zeros z) "" 0); [| | |left; split; reflexivity].
      + rewrite digits_val_app, digits_val_zeros, Hval. reflexivity.
      + rewrite digits_only_app, Hds, digits_only_zeros. reflexivity.
      + reflexivity.
    - rewrite no_space_app, Hsp.
      apply digits_only_no_space, digits_only_zeros.
    - left. exists c, (r ++ zeros z). repeat split; assumption. }
  destruct ((0 <? n) && (n <=? 21)) eqn:B.
  { (* digits on both sides of the point *)
    apply andb_true_iff in B. destruct B as [B1 B2].
    apply Z.ltb_lt in B1. apply Z.leb_le in B2.
    apply andb_false_iff in A.
    assert (Hn : n < sl).
    { destruct A as [A|A]; [apply Z.leb_gt in A; exact A|].
      apply Z.leb_gt in A. lia. }
    assert (Hk : k <> 0%nat) by (intros ->; subst sl n; lia).
    pose proof (Hz Hk) as ->.
    destruct (split_at (Z.to_nat n) s ltac:(subst sl; lia))
      as (a & b & Eab & La & -> & ->).
    assert (Hab : digits_only a = true /\ digits_only b = true).
    { rewrite Eab, digits_only_app in Hds. apply andb_true_iff in Hds.
      exact Hds. }
    destruct Hab as [Ha Hb].
    assert (Lb : String.length b = k).
    { apply (f_equal String.length) in Eab. rewrite append_length in Eab.
      subst sl n. lia. }
    split; [|split].
    - rewrite <- (append_nil_r b) at 1.
      rewrite (read_frac a b "" 0); [| | | |left; split; reflexivity];
        try assumption.
      + rewrite <- Eab, Lb.
        change (pow10 0) with 1 in Hval. rewrite Z.mul_1_r in Hval.
        rewrite Hval. apply scale_exact. exact Hc.
      + destruct a; [cbn [String.length] in La; lia | reflexivity].
    - apply no_space_sep; [apply digits_only_no_space; exact Ha | reflexivity |].
      apply digits_only_no_space; exact Hb.
    - left. destruct a as [|c' a']; [cbn [String.length] in La; lia|].
      unfold s in Eab. cbn [append] in Eab. injection Eab as Ec _.
      subst c'. exists c, (a' ++ "." ++ b). repeat split; assumption. }
  destruct ((-6 <? n) && (n <=? 0)) eqn:C.
  { (* a fraction below one *)
    apply andb_true_iff in C. destruct C as [C1 C2].
    apply Z.ltb_lt in C1. apply Z.leb_le in C2.
    assert (Hk : k <> 0%nat) by (intros ->; subst sl n; lia).
    pose proof (Hz Hk) as ->.
    change (pow10 0) with 1 in Hval. rewrite Z.mul_1_r in Hval.
    split; [|split].
    - change ("0." ++ zeros (Z.to_nat (- n)) ++ s)
        with ("0" ++ "." ++ (zeros (Z.to_nat (- n)) ++ s)).
      rewrite <- (append_nil_r (zeros (Z.to_nat (- n)) ++ s)).
      rewrite (read_frac "0" (zeros (Z.to_nat (- n)) ++ s) "" 0);
        [| | | |left; split; reflexivity]; try reflexivity.
      + change ("0" ++ zeros (Z.to_nat (- n)) ++ s)
          with (zeros (S (Z.to_nat (- n))) ++ s).
        rewrite digits_val_app, digits_val_zeros, Z.mul_0_l, Hval.
        rewrite append_length, zeros_length.
        replace (Z.to_nat (- n) + String.length s)%nat with k
          by (subst sl n; lia).
        apply scale_exact. exact Hc.
      + rewrite digits_only_app, digits_only_zeros. exact Hds.
    - change (no_space (zeros (Z.to_nat (- n)) ++ s) = true).
      rewrite no_space_app, Hsp.
      rewrite (digits_only_no_space _ (digits_only_zeros _)). reflexivity.
    - right. eexists. reflexivity. }
  (* exponential notation *)
  apply andb_false_iff in A, B, C.
  assert (Hn : 21 < n \/ n <= -6).
  { destruct (Z.ltb_spec 0 n), (Z.leb_spec n 21), (Z.ltb_spec (-6) n),
      (Z.leb_spec n 0), (Z.leb_spec sl n);
      cbn in A, B, C; intuition (try discriminate; try lia). }
  set (e := n - 1).
  set (es := (if e <? 0 then "-" else "+") ++ digits (Z.abs e)).
  pose proof (exponent_text_no_space e) as Hes. fold es in Hes.
  destruct (Z.eqb_spec sl 1) as [S1|S1].
  { split; [|split].
    - rewrite (read_int s ("e" ++ es) e);
        [| exact Hds | reflexivity | right; reflexivity].
      unfold scale. destruct (Z.ltb_spec e 0) as [En|En].
      + assert (Hk : k <> 0%nat) by (intros ->; subst sl n e; lia).
        pose proof (Hz Hk) as ->.
        change (pow10 0) with 1 in Hval. rewrite Z.mul_1_r in Hval.
        rewrite Hval. replace (0 + Z.to_nat (- e))%nat with k
          by (subst sl n e; lia).
        exact Hc.
      + assert (k = 0%nat) as ->.
        { destruct k as [|k]; [reflexivity|].
          assert (z = 0%nat) by (apply Hz; discriminate).
          subst sl n e. lia. }
        replace (Nat.leb (Z.to_nat e) 0) with false
          by (symmetry; apply Nat.leb_gt; subst sl n e; lia).
        replace (Z.to_nat e - 0)%nat with z by (subst sl n e; lia).
        rewrite Hval. reflexivity.
    - apply no_space_sep; [exact Hsp | reflexivity | exact Hes].
    - left. exists c, (r ++ "e" ++ es). repeat split; assumption. }
  destruct (split_at 1 s ltac:(subst sl; lia))
    as (a & b & Eab & La & -> & ->).
  assert (Hab : digits_only a = true /\ digits_only b = true).
  { rewrite Eab, digits_only_app in Hds. apply andb_true_iff in Hds.
    exact Hds. }
  destruct Hab as [Ha Hb].
  assert (Lb : (String.length b = String.length s - 1)%nat).
  { apply (f_equal String.length) in Eab. rewrite append_length in Eab. lia. }
  split; [|split].
  - rewrite (read_frac a b ("e" ++ es) e);
      [| exact Ha | | exact Hb | right; reflexivity].
    2:{ destruct a; [cbn [String.length] in La; lia | reflexivity]. }
    rewrite <- Eab, Lb. unfold scale.
    destruct (Z.ltb_spec e 0) as [En|En].
    + assert (Hk : k <> 0%nat) by (intros ->; subst sl n e; lia).
      pose proof (Hz Hk) as ->.
      change (pow10 0) with 1 in Hval. rewrite Z.mul_1_r in Hval.
      rewrite Hval.
      replace (String.length s - 1 + Z.to_nat (- e))%nat with k
        by (subst sl n e; lia).
      exact Hc.
    + destruct (Nat.leb_spec (Z.to_nat e) (String.length s - 1)) as [Le|Le].
      * assert (z = 0%nat) as ->.
        { destruct k as [|k]; [subst sl n e; lia|]. apply Hz. discriminate. }
        change (pow10 0) with 1 in Hval. rewrite Z.mul_1_r in Hval.
        rewrite Hval.
        replace (String.length s - 1 - Z.to_nat e)%nat with k
          by (subst sl n e; lia).
        exact Hc.
      * assert (k = 0%nat) as ->.
        { destruct k as [|k]; [reflexivity|].
          assert (z = 0%nat) by (apply Hz; discriminate).
          subst sl n e. lia. }
        replace (Z.to_nat e - (String.length s - 1))%nat with z
          by (subst sl n e; lia).
        rewrite Hval. reflexivity.
  - apply no_space_sep; [apply digits_only_no_space; exact Ha | reflexivity |].
    apply no_space_sep; [apply digits_only_no_space; exact Hb | reflexivity |].
    exact Hes.
  - left. destruct a as [|c' a']; [cbn [String.length] in La; lia|].
    unfold s in Eab. cbn [append] in Eab. injection Eab as Ec _.
    subst c'. exists c, (a' ++ "." ++ b ++ "e" ++ es).
    repeat split; assumption.
Qed.

(** ** Any stored number *)

Lemma norm_opp m k : norm m k = Fin m k -> norm (- m) k = Fin (- m) k.
Proof.
  destruct k as [|k]; [reflexivity|]. intros H.
  pose proof (canonical_last_digit _ _ H) as Hm. cbn [norm].
  destruct (Z.eqb_spec ((- m) mod 10) 0) as [E|E]; [|reflexivity].
  exfalso. apply Hm.
  apply Z.mod_divide in E; [|lia]. apply Z.mod_divide; [lia|].
  apply Z.divide_opp_r in E. rewrite Z.opp_involutive in E. exact E.
Qed.

Lemma canonical_zero k : norm 0 k = Fin 0 k -> k = 0%nat.
Proof. rewrite norm_zero. intros H. injection H as <-. reflexivity. Qed.

(** The text [String(x)] of a stored number, read by [Number] after the
    removal of leading zeros, is the number [x]. *)
Lemma Number_reads_back x :
  stored_number x ->
  Number_of_string (strip_leading_zeros (String_of_number x)) = x.
Proof.
  intros [Hfin Hcan]. destruct x as [m k| | |]; try discriminate.
  unfold canonical in Hcan. unfold String_of_number. rewrite Hcan.
  destruct (Z.eqb_spec m 0) as [->|Hm0].
  { rewrite (canonical_zero _ Hcan). reflexivity. }
  destruct (Z.ltb_spec m 0) as [Hneg|Hpos].
  - destruct (positive_to_string_reads (- m) k ltac:(lia) (norm_opp _ _ Hcan))
      as (Hread & Hsp & _).
    cbn [append strip_leading_zeros]. unfold Number_of_string.
    rewrite trim_no_space by (cbn [no_space]; rewrite Hsp; reflexivity).
    cbn [parse_decimal]. rewrite Hread. cbn [neg].
    rewrite Z.opp_involutive. reflexivity.
  - destruct (positive_to_string_reads m k ltac:(lia) Hcan)
      as (Hread & Hsp & [(c & r & E & Hd & Hc)|(r & E)]).
    + rewrite E in *. rewrite (strip_leading_zeros_nonzero _ _ Hc).
      rewrite (Number_head_digit _ _ Hd Hc Hsp). exact Hread.
    + rewrite E in *. cbn [strip_leading_zeros is_digit].
      change (is_digit ".") with false. cbn iota.
      unfold Number_of_string. rewrite (trim_no_space _ Hsp).
      exact Hread.
Qed.

Lemma toNum_stored x : stored_number x -> toNum (ANum x) = x.
Proof.
  intros H. unfold toNum. cbn [String_of].
  rewrite (Number_reads_back _ H). destruct H as [-> _]. reflexivity.
Qed.

(* ================================================================== *)
(** * Export, then import *)
(* ================================================================== *)

Lemma sheet_of_export tza now list :
  sheet_to_json (export_data (map (export_row tza now) list))
  = map (fun v => row_object (map AStr export_columns)
                    (export_cells tza now v)) list.
Proof.
  destruct list as [|v l]; [reflexivity|].
  rewrite export_data_cons. unfold sheet_to_json.
  assert (E : forall t,
            filter (fun cells => negb (forallb is_blank cells))
              (map (export_cells tza now) t)
            = map (export_cells tza now) t).
  { induction t as [|w t IH]; [reflexivity|].
    cbn [map filter]. rewrite IH. reflexivity. }
  rewrite E, map_map. reflexivity.
Qed.

Lemma import_row_status uid r :
  Row.status (import_row uid r)
  = if geb (Row.spent (import_row uid r)) (Row.value (import_row uid r))
    then used else unused.
Proof.
  unfold import_row; fields.
  rewrite min_reaches_iff; [reflexivity | | apply toNum_finite].
  apply max0_finite, toNum_finite.
Qed.

Lemma stored_zero x :
  stored_number x -> leb (int 0) x = true -> ltb (int 0) x = false ->
  x = int 0.
Proof.
  intros [Hfin Hcan] H0 H1. destruct x as [m k| | |]; try discriminate.
  unfold leb, ltb, int in *. change (pow10 0) with 1 in *.
  apply Z.leb_le in H0. apply Z.ltb_ge in H1.
  pose proof (pow10_pos k).
  assert (m = 0) as -> by nia.
  rewrite (canonical_zero _ Hcan). reflexivity.
Qed.

Lemma import_of_export tza now uid v :
  written_voucher v ->
  let r := import_row uid
             (row_object (map AStr export_columns) (export_cells tza now v)) in
  valid_row r = true /\ row_tuple r = voucher_tuple v.
Proof.
  intros (Hv & Hs & [H0 H1] & Hpos & Htrim & Hname & Hcat).
  unfold import_row, valid_row, row_tuple, voucher_tuple; fields.
  change (get (row_object (map AStr export_columns) (export_cells tza now v))
            "value") with (ANum (Voucher.value v)).
  change (get (row_object (map AStr export_columns) (export_cells tza now v))
            "spent") with (ANum (Voucher.spent v)).
  change (get (row_object (map AStr export_columns) (export_cells tza now v))
            "name") with (AStr (Voucher.name v)).
  change (get (row_object (map AStr export_columns) (export_cells tza now v))
            "category") with (AStr (Voucher.category v)).
  rewrite (toNum_stored _ Hv).
  assert (Esp : toNum (or_else (ANum (Voucher.spent v)) (ANum (int 0)))
                = Voucher.spent v).
  { unfold or_else. cbn [truthy].
    pose proof (or0_stored _ Hs) as Hor. unfold or0 in Hor.
    destruct (truthy_num (Voucher.spent v)).
    - apply toNum_stored. exact Hs.
    - rewrite <- Hor. reflexivity. }
  rewrite Esp.
  assert (Emax : Math_max (int 0) (Voucher.spent v) = Voucher.spent v).
  { destruct (ltb (int 0) (Voucher.spent v)) eqn:L.
    - destruct Hs as [Hf _]. destruct (isFinite_inv _ Hf) as (m & k & E).
      rewrite E in *. unfold int in *. rewrite Math_max_fin, L. reflexivity.
    - rewrite (stored_zero _ Hs H0 L). reflexivity. }
  rewrite Emax.
  assert (Emin : Math_min (Voucher.spent v) (Voucher.value v)
                 = Voucher.spent v).
  { destruct Hs as [Hf _], Hv as [Hfv _].
    destruct (isFinite_inv _ Hf) as (m & k & E).
    destruct (isFinite_inv _ Hfv) as (mv & kv & Ev).
    rewrite E, Ev in *. rewrite Math_min_fin, (leb_ltb_false _ _ H1).
    reflexivity. }
  rewrite Emin.
  unfold or_else. cbn [truthy]. rewrite Hname, Hcat. cbn [negb String_of].
  rewrite Htrim, Hname, Hpos. split; reflexivity.
Qed.

Lemma import_payload_of_export tza now uid list :
  Forall written_voucher list ->
  import_payload uid
    (sheet_to_json (export_data (map (export_row tza now) list)))
  = map (fun v => import_row uid
                    (row_object (map AStr export_columns)
                       (export_cells tza now v))) list
  /\ map row_tuple
       (map (fun v => import_row uid
                        (row_object (map AStr export_columns)
                           (export_cells tza now v))) list)
     = map voucher_tuple list.
Proof.
  intros Hl. unfold import_payload. rewrite sheet_of_export, map_map.
  induction Hl as [|v l Hv _ [IH1 IH2]]; [split; reflexivity|].
  cbn [map filter].
  destruct (import_of_export tza now uid v Hv) as [-> ->].
  rewrite IH1, IH2. split; reflexivity.
Qed.

(** C8, counterexample.  A voucher of value [0] satisfies
    [0 <= spent <= value]; exported and imported again it is dropped, and
    the import inserts nothing. *)
Lemma roundtrip_counterexample :
  voucher_ledger_ok free_voucher
  /\ (let ws := export_data (map (export_row 0 0) [free_voucher]) in
      import_payload "u1" (sheet_to_json ws) = []
      /\ importExcel (Some "u1") ws = Alert "No valid rows found.").
Proof. split; [split; reflexivity | split; reflexivity]. Qed.

(** C8, amended.  For every list of vouchers as add, edit and import
    write them (stored amounts with [0 <= spent <= value] and
    [value > 0], trimmed non-empty name, non-empty category), importing
    the exported sheet yields, in list order, rows with the same
    (name, value, spent, category); the status of each row is computed
    from its spent and value, whatever the exported status column holds;
    and a non-empty list is inserted in one call. *)
Theorem export_import_roundtrip (tza now : Z) (uid : string)
    (list : list Voucher) :
  Forall written_voucher list ->
  let ws := export_data (map (export_row tza now) list) in
  let rows := import_payload uid (sheet_to_json ws) in
  map row_tuple rows = map voucher_tuple list
  /\ Forall (fun r => Row.status r
                      = if geb (Row.spent r) (Row.value r)
                        then used else unused) rows
  /\ importExcel (Some uid) ws
     = match list with
       | [] => Alert "No valid rows found."
       | _ => Insert rows
       end.
Proof.
  intros Hl ws rows.
  destruct (import_payload_of_export tza now uid list Hl) as [Hrows Htup].
  fold ws in Hrows. fold rows in Hrows.
  split; [|split].
  - rewrite Hrows. exact Htup.
  - apply Forall_forall. intros r Hr. unfold rows, import_payload in Hr.
    apply filter_In in Hr. destruct Hr as [Hr _].
    apply in_map_iff in Hr. destruct Hr as (o & <- & _).
    apply import_row_status.
  - unfold importExcel. fold ws. fold rows. rewrite Hrows.
    destruct list; reflexivity.
Qed.

Lemma export_import_roundtrip_witness :
  Forall written_voucher [sample_voucher; fully_used_voucher]
  /\ map row_tuple
       (import_payload "u1"
          (sheet_to_json
             (export_data
                (map (export_row 0 0) [sample_voucher; fully_used_voucher]))))
     = [("Amazon", int 1000, int 200, "General");
        ("Myntra", int 1000, int 1000, "Shopping")].
Proof.
  assert (H : Forall written_voucher [sample_voucher; fully_used_voucher]).
  { repeat constructor. }
  split; [exact H|].
  exact (proj1 (export_import_roundtrip 0 0 "u1"
                  [sample_voucher; fully_used_voucher] H)).
Defined.

(* ================================================================== *)
(** * Further properties: status derivation *)
(* ================================================================== *)

Lemma past_expiry_date tza now s y m d :
  parse_iso_date s = Some (y, m, d) ->
  past_expiry tza now (Some s)
  = (end_of_day_local tza y m d + tza / msPerDay * msPerDay <? now).
Proof.
  intros Hp. unfold past_expiry, Date_new.
  rewrite (parse_iso_date_nonempty s) by (rewrite Hp; discriminate).
  rewrite Hp. cbn [Date_setHours Date_getTime]. rewrite ltb_int.
  f_equal. unfold end_of_day_local, msPerDay.
  rewrite Z.div_add_l by lia. lia.
Qed.

(** In a time zone at or east of UTC (offset below one day) a voucher
    with a valid expiry date is derived as expired exactly when [now] is
    after 23:59:59.999 local time of that date, and keeps its stored
    status until then. *)
Theorem deriveStatus_east_of_utc (tza now : Z) (v : Voucher) (s : string)
    (y m d : Z) :
  0 <= tza < msPerDay ->
  Voucher.expires_on v = Some s ->
  parse_iso_date s = Some (y, m, d) ->
  deriveStatus tza now v
  = if end_of_day_local tza y m d <? now then expired else Voucher.status v.
Proof.
  intros Htz He Hp. unfold deriveStatus.
  rewrite He, (past_expiry_date _ _ _ _ _ _ Hp), status_or_id.
  rewrite (Z.div_small tza msPerDay Htz). rewrite Z.mul_0_l, Z.add_0_r.
  reflexivity.
Qed.

Lemma deriveStatus_east_of_utc_witness :
  deriveStatus 19800000 1735756199999 new_year_voucher = unused
  /\ deriveStatus 19800000 1735756200000 new_year_voucher = expired.
Proof.
  assert (Htz : 0 <= 19800000 < msPerDay) by (unfold msPerDay; lia).
  split.
  - exact (deriveStatus_east_of_utc 19800000 1735756199999 new_year_voucher
             "2025-01-01" 2025 1 1 Htz eq_refl eq_refl).
  - exact (deriveStatus_east_of_utc 19800000 1735756200000 new_year_voucher
             "2025-01-01" 2025 1 1 Htz eq_refl eq_refl).
Defined.

(** In a time zone west of UTC (by at most one day) the same voucher is
    derived as expired a whole day earlier: as soon as [now] is after
    23:59:59.999 local time of the day before its expiry date. *)
Theorem deriveStatus_west_of_utc (tza now : Z) (v : Voucher) (s : string)
    (y m d : Z) :
  - msPerDay <= tza < 0 ->
  Voucher.expires_on v = Some s ->
  parse_iso_date s = Some (y, m, d) ->
  deriveStatus tza now v
  = if end_of_day_local tza y m d - msPerDay <? now
    then expired else Voucher.status v.
Proof.
  intros Htz He Hp. unfold deriveStatus.
  rewrite He, (past_expiry_date _ _ _ _ _ _ Hp), status_or_id.
  assert (tza / msPerDay = -1) as ->.
  { symmetry. apply (Z.div_unique tza msPerDay (-1) (tza + msPerDay));
      unfold msPerDay in *; lia. }
  replace (end_of_day_local tza y m d + -1 * msPerDay)
    with (end_of_day_local tza y m d - msPerDay) by lia.
  reflexivity.
Qed.

Lemma deriveStatus_west_of_utc_witness :
  deriveStatus (-18000000) 1735707599999 new_year_voucher = unused
  /\ deriveStatus (-18000000) 1735707600000 new_year_voucher = expired.
Proof.
  assert (Htz : - msPerDay <= -18000000 < 0) by (unfold msPerDay; lia).
  split.
  - exact (deriveStatus_west_of_utc (-18000000) 1735707599999
             new_year_voucher "2025-01-01" 2025 1 1 Htz eq_refl eq_refl).
  - exact (deriveStatus_west_of_utc (-18000000) 1735707600000
             new_year_voucher "2025-01-01" 2025 1 1 Htz eq_refl eq_refl).
Defined.

Lemma past_expiry_mono tza now now' o :
  now <= now' -> past_expiry tza now o = true -> past_expiry tza now' o = true.
Proof.
  intros Hle. unfold past_expiry. destruct o as [s|]; [|discriminate].
  destruct (is_empty s); [discriminate|].
  destruct (Date_setHours tza (Date_new s) 23 59 59 999) as [t|];
    [|discriminate].
  cbn [Date_getTime]. rewrite !ltb_int. intros H.
  apply Z.ltb_lt in H. apply Z.ltb_lt. lia.
Qed.

(** Expiry is final: a voucher derived as expired at some instant is
    derived as expired at every later instant, on both pages. *)
Theorem deriveStatus_expired_forever (tza now now' : Z) (v : Voucher) :
  now <= now' ->
  deriveStatus tza now v = expired ->
  deriveStatus tza now' v = expired
  /\ Dashboard.deriveStatus tza now' v = expired.
Proof.
  intros Hle. unfold deriveStatus, Dashboard.deriveStatus.
  rewrite status_or_id.
  destruct (past_expiry tza now (Voucher.expires_on v)) eqn:P.
  - rewrite (past_expiry_mono _ _ _ _ Hle P). split; reflexivity.
  - intros ->. destruct (past_expiry tza now' _); split; reflexivity.
Qed.

Lemma deriveStatus_expired_forever_witness :
  deriveStatus 0 1800000000000 new_year_voucher = expired
  /\ Dashboard.deriveStatus 0 1800000000000 new_year_voucher = expired.
Proof.
  apply (deriveStatus_expired_forever 0 1735776000000 1800000000000
           new_year_voucher); [lia | reflexivity].
Defined.

(* ================================================================== *)
(** * Further properties: toggle and partial use *)
(* ================================================================== *)

(** A toggle leaves the voucher at an extreme (used with everything
    spent, or unused with nothing spent), changes no other field, and
    three toggles are one toggle. *)
Theorem toggle_reaches_extreme (v : Voucher) :
  let v' := toggled v in
  ((Voucher.status v' = used /\ Voucher.spent v' = Voucher.value v)
   \/ (Voucher.status v' = unused /\ Voucher.spent v' = int 0))
  /\ apply_payload
       (Payload.mk None None None None None None
          (Some (Voucher.spent v)) (Some (Voucher.status v))) v' = v
  /\ toggled (toggled v') = v'.
Proof.
  destruct v as [i u n val sp c cd pn ex st cr].
  unfold toggled, toggleStatus, stored_after; fields.
  destruct st; cbn [VoucherStatus_eqb]; fields;
    rewrite ?String.eqb_refl; fields; cbn [VoucherStatus_eqb];
    rewrite ?String.eqb_refl; fields; cbn [VoucherStatus_eqb];
    rewrite ?String.eqb_refl; fields;
    (split; [|split]; [ (left; split; reflexivity)
                          || (right; split; reflexivity)
                      | reflexivity | reflexivity ]).
Qed.

Lemma gtb_leb_false a r :
  isFinite a = true -> leb a (int 0) = false -> leb r (int 0) = true ->
  gtb a r = true.
Proof.
  intros Ha H1 H2. destruct a, r; try discriminate; try reflexivity.
  num_lra.
Qed.

(** A voucher with nothing left ([value <= spent]) refuses every partial
    use: whatever the amount typed, the answer is an alert and the voucher
    stays as it is. *)
Theorem spent_voucher_refuses_use (v : Voucher) (useAmount : string) :
  stored_number (Voucher.value v) ->
  stored_number (Voucher.spent v) ->
  leb (Voucher.value v) (Voucher.spent v) = true ->
  (exists msg, savePartialUsage (Some v) useAmount = Alert msg)
  /\ stored_after (savePartialUsage (Some v) useAmount) v = v.
Proof.
  intros Hv Hs Hle. unfold savePartialUsage.
  rewrite (or0_stored _ Hv), (or0_stored _ Hs).
  destruct (negb (isFinite (parse_amount useAmount))
            || leb (parse_amount useAmount) (int 0)) eqn:E;
    [split; [eauto | reflexivity]|].
  apply orb_false_iff in E. destruct E as [E1 E2].
  apply negb_false_iff in E1.
  rewrite gtb_leb_false; [split; [eauto | reflexivity] | exact E1 | exact E2 |].
  destruct Hv as [Hv _], Hs as [Hs _].
  destruct (isFinite_inv _ Hv) as (mv & kv & Ev).
  destruct (isFinite_inv _ Hs) as (ms & ks & Es).
  rewrite Ev, Es in *. num_lra.
Qed.

Lemma spent_voucher_refuses_use_witness :
  stored_after (savePartialUsage (Some fully_used_voucher) "1")
    fully_used_voucher = fully_used_voucher.
Proof.
  assert (Hv : stored_number (Voucher.value fully_used_voucher))
    by (split; reflexivity).
  assert (Hs : stored_number (Voucher.spent fully_used_voucher))
    by (split; reflexivity).
  exact (proj2 (spent_voucher_refuses_use fully_used_voucher "1" Hv Hs
                  eq_refl)).
Defined.

(** ** Canonical numbers *)

Lemma canonical_iff m k : norm m k = Fin m k <-> (k = 0%nat \/ m mod 10 <> 0).
Proof.
  split.
  - intros H. destruct k as [|k]; [left; reflexivity|].
    right. exact (canonical_last_digit _ _ H).
  - intros [->|H]; [reflexivity|]. destruct k as [|k]; [reflexivity|].
    cbn [norm]. destruct (Z.eqb_spec (m mod 10) 0); [contradiction|reflexivity].
Qed.

Lemma norm_canonical m k : canonical (norm m k).
Proof.
  revert m. induction k as [|k IH]; intros m; [reflexivity|].
  cbn [norm]. destruct (Z.eqb_spec (m mod 10) 0) as [E|E]; [apply IH|].
  unfold canonical. apply canonical_iff. right. exact E.
Qed.

Lemma add_stored x y :
  isFinite x = true -> isFinite y = true -> stored_number (add x y).
Proof.
  intros Hx Hy.
  destruct (isFinite_inv _ Hx) as (m1 & k1 & ->).
  destruct (isFinite_inv _ Hy) as (m2 & k2 & ->).
  unfold add. split; [|apply norm_canonical].
  destruct (norm_value (m1 * pow10 k2 + m2 * pow10 k1) (k1 + k2))
    as (m & k & -> & _). reflexivity.
Qed.

Lemma pow10_split a b : (a <= b)%nat -> pow10 b = pow10 (b - a) * pow10 a.
Proof. intros H. rewrite <- pow10_add. f_equal. lia. Qed.

Lemma canonical_unique_le m1 k1 m2 k2 :
  (k1 <= k2)%nat ->
  norm m1 k1 = Fin m1 k1 -> norm m2 k2 = Fin m2 k2 ->
  m1 * pow10 k2 = m2 * pow10 k1 -> m1 = m2 /\ k1 = k2.
Proof.
  intros Hle H1 H2 Hv.
  rewrite (pow10_split k1 k2 Hle) in Hv.
  pose proof (pow10_pos k1) as Hp.
  assert (Hm : m1 * pow10 (k2 - k1) = m2) by nia.
  destruct (Nat.eq_dec k1 k2) as [->|Hne].
  - rewrite Nat.sub_diag in Hm. change (pow10 0) with 1 in Hm.
    split; [lia | reflexivity].
  - exfalso. apply canonical_iff in H2. destruct H2 as [->|H2]; [lia|].
    apply H2. rewrite <- Hm.
    replace (k2 - k1)%nat with (S (k2 - k1 - 1)) by lia.
    rewrite pow10_S.
    replace (m1 * (10 * pow10 (k2 - k1 - 1)))
      with (m1 * pow10 (k2 - k1 - 1) * 10) by lia.
    apply Z.mod_mul. lia.
Qed.

(** Two stored numbers that denote the same rational are the same. *)
Lemma stored_eq x y :
  stored_number x -> stored_number y -> Qof x == Qof y -> x = y.
Proof.
  intros [Hx Cx] [Hy Cy] HQ.
  destruct (isFinite_inv _ Hx) as (m1 & k1 & ->).
  destruct (isFinite_inv _ Hy) as (m2 & k2 & ->).
  unfold canonical in Cx, Cy. unfold Qof, Qeq in HQ. cbn in HQ.
  rewrite !Z2Pos.id in HQ by apply pow10_pos.
  destruct (Nat.le_ge_cases k1 k2) as [L|L].
  - destruct (canonical_unique_le _ _ _ _ L Cx Cy HQ) as [-> ->]. reflexivity.
  - destruct (canonical_unique_le _ _ _ _ L Cy Cx (eq_sym HQ)) as [-> ->].
    reflexivity.
Qed.

Lemma add_assoc_fin x y z :
  isFinite x = true -> isFinite y = true -> isFinite z = true ->
  add (add x y) z = add x (add y z).
Proof.
  intros Hx Hy Hz.
  pose proof (add_stored x y Hx Hy) as Hxy.
  pose proof (add_stored y z Hy Hz) as Hyz.
  apply stored_eq.
  - apply add_stored; [apply Hxy | exact Hz].
  - apply add_stored; [exact Hx | apply Hyz].
  - destruct (isFinite_inv _ Hx) as (m1 & k1 & ->).
    destruct (isFinite_inv _ Hy) as (m2 & k2 & ->).
    destruct (isFinite_inv _ Hz) as (m3 & k3 & ->).
    destruct (add_fin m1 k1 m2 k2) as (a & ka & -> & Qa).
    destruct (add_fin m2 k2 m3 k3) as (b & kb & -> & Qb).
    destruct (add_fin a ka m3 k3) as (c & kc & -> & Qc).
    destruct (add_fin m1 k1 b kb) as (d & kd & -> & Qd).
    rewrite Qc, Qd, Qa, Qb. ring.
Qed.

(** ** Partial uses add up *)

Lemma savePartialUsage_accepts v s a :
  stored_number (Voucher.value v) -> stored_number (Voucher.spent v) ->
  parse_amount s = a -> isFinite a = true ->
  ltb (int 0) a = true ->
  leb a (sub (Voucher.value v) (Voucher.spent v)) = true ->
  stored_after (savePartialUsage (Some v) s) v
  = apply_payload
      (Payload.mk None None None None None None
         (Some (add (Voucher.spent v) a))
         (Some (if geb (add (Voucher.spent v) a) (Voucher.value v)
                then used else unused))) v.
Proof.
  intros Hv Hs Hp Hf Hpos Hle. unfold savePartialUsage.
  rewrite (or0_stored _ Hv), (or0_stored _ Hs), Hp, Hf.
  rewrite (ltb_leb_false _ _ Hpos). cbn [negb orb].
  unfold gtb. rewrite (leb_ltb_false _ _ Hle).
  unfold stored_after. rewrite String.eqb_refl. reflexivity.
Qed.

Lemma whole_is_safe x : whole_amount x = true -> isSafeInteger x = true.
Proof. unfold whole_amount. intros H. apply andb_true_iff in H. apply H. Qed.

(** Two partial uses in a row, of whole amounts on a voucher of whole
    amounts, come to the same stored voucher as one partial use of the
    sum of their amounts; and each of the three uses is answered in
    binary64 as it is here. *)
Theorem partial_uses_add_up (v : Voucher) (a b : number) :
  whole_amounts v ->
  whole_amount a = true -> whole_amount b = true ->
  ltb (int 0) a = true -> ltb (int 0) b = true ->
  leb (add a b) (sub (Voucher.value v) (Voucher.spent v)) = true ->
  use_amount b (use_amount a v) = use_amount (add a b) v
  /\ Double.savePartialUsage (Some v) (String_of_number a)
     = binary64_effect (savePartialUsage (Some v) (String_of_number a))
  /\ Double.savePartialUsage (Some (use_amount a v)) (String_of_number b)
     = binary64_effect
         (savePartialUsage (Some (use_amount a v)) (String_of_number b))
  /\ Double.savePartialUsage (Some v) (String_of_number (add a b))
     = binary64_effect
         (savePartialUsage (Some v) (String_of_number (add a b))).
Proof.
  intros [Wv Ws] Wa Wb Pa Pb Hle.
  pose proof (whole_amount_stored _ Wv) as Hv.
  pose proof (whole_amount_stored _ Ws) as Hs.
  pose proof (whole_amount_stored _ Wa) as Ha.
  pose proof (whole_amount_stored _ Wb) as Hb.
  pose proof (proj1 Hv) as Fv. pose proof (proj1 Hs) as Fs.
  pose proof (proj1 Ha) as Fa. pose proof (proj1 Hb) as Fb.
  pose proof (add_stored a b Fa Fb) as Hab.
  pose proof (add_stored (Voucher.spent v) a Fs Fa) as Hsa.
  assert (Pab : ltb (int 0) (add a b) = true
                /\ leb a (sub (Voucher.value v) (Voucher.spent v)) = true
                /\ leb b (sub (Voucher.value v) (add (Voucher.spent v) a))
                   = true).
  { destruct (isFinite_inv _ Fv) as (mv & kv & Ev).
    destruct (isFinite_inv _ Fs) as (ms & ks & Es).
    destruct (isFinite_inv _ Fa) as (ma & ka & Ea).
    destruct (isFinite_inv _ Fb) as (mb & kb & Eb).
    rewrite Ev, Es, Ea, Eb in *. repeat split; num_lra. }
  destruct Pab as (Pab & Lea & Leb).
  assert (E1 : use_amount a v
               = apply_payload
                   (Payload.mk None None None None None None
                      (Some (add (Voucher.spent v) a))
                      (Some (if geb (add (Voucher.spent v) a) (Voucher.value v)
                             then used else unused))) v).
  { unfold use_amount.
    apply (savePartialUsage_accepts v _ a Hv Hs
             (Number_reads_back a Ha) Fa Pa Lea). }
  split.
  - rewrite E1. unfold use_amount.
    rewrite (savePartialUsage_accepts v _ (add a b) Hv Hs
               (Number_reads_back _ Hab) (proj1 Hab) Pab Hle).
    set (v1 := apply_payload _ v).
    rewrite (savePartialUsage_accepts v1 _ b Hv Hsa
               (Number_reads_back b Hb) Fb Pb Leb).
    subst v1. unfold apply_payload; fields.
    rewrite (add_assoc_fin _ _ _ Fs Fa Fb). reflexivity.
  - (* the amounts at each use are whole *)
    destruct (whole_amount_inv _ Wv) as (zv & Ev & Bv).
    destruct (whole_amount_inv _ Ws) as (zs & Es & Bs).
    destruct (whole_amount_inv _ Wa) as (za & Ea & Ba).
    destruct (whole_amount_inv _ Wb) as (zb & Eb & Bb).
    assert (Hsum : za + zb <= zv - zs).
    { rewrite Ev, Es, Ea, Eb, add_ints, sub_ints, leb_ints in Hle.
      apply Z.leb_le in Hle. exact Hle. }
    assert (whole : forall z, 0 <= z < 2 ^ 53 -> whole_amount (int z) = true).
    { intros z Hz. unfold whole_amount, isSafeInteger.
      rewrite leb_ints. cbn [int].
      apply andb_true_iff. split; [apply Z.ltb_lt | apply Z.leb_le]; lia. }
    assert (Wab : whole_amount (add a b) = true)
      by (rewrite Ea, Eb, add_ints; apply whole; lia).
    assert (W1 : whole_amounts (use_amount a v)).
    { rewrite E1. unfold apply_payload, whole_amounts; fields.
      split; [exact Wv|]. rewrite Es, Ea, add_ints. apply whole. lia. }
    repeat split;
      apply savePartialUsage_binary64;
      try (split; assumption); try exact W1;
      unfold parse_amount; rewrite Number_reads_back by assumption;
      apply whole_is_safe; assumption.
Qed.

Lemma partial_uses_add_up_witness :
  use_amount (int 300) (use_amount (int 500) sample_voucher)
  = use_amount (int 800) sample_voucher.
Proof.
  exact (proj1 (partial_uses_add_up sample_voucher (int 500) (int 300)
                  (conj eq_refl eq_refl) eq_refl eq_refl
                  eq_refl eq_refl eq_refl)).
Defined.

(* ================================================================== *)
(** * Further properties: add and edit *)
(* ================================================================== *)

Lemma trimEnd_idem s : trimEnd (trimEnd s) = trimEnd s.
Proof.
  induction s as [|c r IH]; [reflexivity|]. cbn [trimEnd].
  destruct (is_space c && is_empty (trimEnd r)) eqn:E; [reflexivity|].
  cbn [trimEnd]. rewrite IH, E. reflexivity.
Qed.

Lemma trimStart_head s :
  trimStart s = "" \/ exists c r, trimStart s = String c r /\ is_space c = false.
Proof.
  induction s as [|c r IH]; [left; reflexivity|]. cbn [trimStart].
  destruct (is_space c) eqn:E; [exact IH|]. right. eauto.
Qed.

Lemma trim_idem s : trim (trim s) = trim s.
Proof.
  unfold trim.
  assert (trimStart (trimEnd (trimStart s)) = trimEnd (trimStart s)) as ->.
  { destruct (trimStart_head s) as [->|(c & r & -> & Hc)]; [reflexivity|].
    cbn [trimEnd]. rewrite Hc. cbn [andb trimStart]. rewrite Hc.
    reflexivity. }
  apply trimEnd_idem.
Qed.

Lemma leb_false_ltb x y :
  isFinite x = true -> isFinite y = true -> leb x y = false -> ltb y x = true.
Proof.
  intros Hx Hy. destruct x, y; try discriminate. intros. to_Q. lra.
Qed.

Lemma ltb_false_leb x y :
  isFinite x = true -> isFinite y = true -> ltb x y = false -> leb y x = true.
Proof.
  intros Hx Hy. destruct x, y; try discriminate. intros. to_Q. lra.
Qed.

(** An add reaches the store exactly when the trimmed name is not empty,
    the value is a finite number above zero and the initial used amount
    is a finite number from zero to the value; it then inserts one row. *)
Theorem addVoucher_accepts_iff (uid : string) (f : AddForm.t) :
  let numericValue := parse_amount (AddForm.value f) in
  let numericInitialUsed :=
    if is_empty (AddForm.initialUsed f) then int 0
    else parse_amount (AddForm.initialUsed f) in
  (exists r, addVoucher (Some uid) f = Insert [r])
  <-> (is_empty (trim (AddForm.name f)) = false
       /\ isFinite numericValue = true
       /\ gtb numericValue (int 0) = true
       /\ isFinite numericInitialUsed = true
       /\ leb (int 0) numericInitialUsed = true
       /\ leb numericInitialUsed numericValue = true).
Proof.
  intros nv ni. unfold addVoucher. fold nv. fold ni. split.
  - intros [r H].
    destruct (is_empty (trim (AddForm.name f))); [discriminate|].
    destruct (negb (isFinite nv) || leb nv (int 0)) eqn:Hv; [discriminate|].
    destruct (negb (isFinite ni) || ltb ni (int 0)) eqn:Hi; [discriminate|].
    destruct (gtb ni nv) eqn:Hgt; [discriminate|].
    apply orb_false_iff in Hv, Hi. destruct Hv as [Hvf Hvp], Hi as [Hif Hip].
    apply negb_false_iff in Hvf, Hif.
    repeat split; try assumption.
    + apply leb_false_ltb; [exact Hvf | reflexivity | exact Hvp].
    + apply ltb_false_leb; [exact Hif | reflexivity | exact Hip].
    + apply ltb_false_leb; assumption.
  - intros (Hn & Hvf & Hvp & Hif & Hip & Hle).
    rewrite Hn, Hvf, Hif, (ltb_leb_false _ _ Hvp), (leb_ltb_false _ _ Hip).
    cbn [negb orb]. unfold gtb. rewrite (leb_ltb_false _ _ Hle). eauto.
Qed.

Lemma written_add_row uid f r :
  addVoucher (Some uid) f = Insert [r] -> written_row r.
Proof.
  unfold addVoucher.
  set (nv := parse_amount (AddForm.value f)).
  set (ni := if is_empty (AddForm.initialUsed f) then int 0
             else parse_amount (AddForm.initialUsed f)).
  destruct (is_empty (trim (AddForm.name f))) eqn:Hn; [discriminate|].
  destruct (negb (isFinite nv) || leb nv (int 0)) eqn:Hv; [discriminate|].
  destruct (negb (isFinite ni) || ltb ni (int 0)) eqn:Hi; [discriminate|].
  destruct (gtb ni nv) eqn:Hgt; [discriminate|].
  intros H. injection H as <-.
  apply orb_false_iff in Hv, Hi. destruct Hv as [Hvf Hvp], Hi as [Hif Hip].
  apply negb_false_iff in Hvf, Hif.
  unfold written_row, row_ledger_ok, ledger_ok; fields.
  repeat split; try assumption.
  - apply trim_idem.
  - apply leb_false_ltb; [exact Hvf | reflexivity | exact Hvp].
  - apply ltb_false_leb; [exact Hif | reflexivity | exact Hip].
  - apply ltb_false_leb; assumption.
Qed.

Lemma written_import_row uid o :
  valid_row (import_row uid o) = true -> written_row (import_row uid o).
Proof.
  intros Hvalid. pose proof (import_row_ledger uid o Hvalid) as Hl.
  pose proof (import_row_status uid o) as Hst.
  unfold valid_row in Hvalid. apply andb_true_iff in Hvalid.
  destruct Hvalid as [Hn Hp]. apply negb_true_iff in Hn.
  unfold written_row. repeat split; try assumption; try apply Hl.
  - unfold import_row; fields. apply trim_idem.
  - unfold import_row; fields. apply toNum_finite.
Qed.

(** Whatever add or bulk import inserts is at least one row, and each row
    has a trimmed non-empty name, a finite value above zero, a spent
    amount from zero to the value, and the status used exactly when the
    spent amount reaches the value (so never the status expired). *)
Theorem inserted_rows_written (m : Mutation) (rows : list Row.t) :
  run m = Insert rows -> rows <> [] /\ Forall written_row rows.
Proof.
  destruct m as [user f|v a|v|l item form|user ws]; cbn [run].
  - destruct user as [uid|]; [|discriminate]. intros H.
    assert (exists r, rows = [r]) as [r ->].
    { unfold addVoucher in H.
      repeat split_if; try discriminate; injection H as <-; eauto. }
    split; [discriminate|]. constructor; [|constructor].
    exact (written_add_row uid f r H).
  - unfold savePartialUsage. repeat split_if; discriminate.
  - discriminate.
  - unfold saveEdit. repeat split_if; try discriminate.
    destruct (find _ l); discriminate.
  - unfold importExcel. destruct user as [uid|]; [|discriminate].
    destruct (import_payload uid (sheet_to_json ws)) as [|r0 rest] eqn:E;
      [discriminate|].
    intros H. injection H as <-. split; [discriminate|].
    rewrite <- E. apply Forall_forall. intros r Hr.
    unfold import_payload in Hr. apply filter_In in Hr.
    destruct Hr as [Hin Hvalid].
    apply in_map_iff in Hin. destruct Hin as (o & <- & _).
    apply written_import_row. exact Hvalid.
Qed.

Lemma inserted_rows_written_witness :
  Forall written_row
    [Row.mk "u1" "Amazon" (int 1000) (int 0) "General" None None None unused].
Proof.
  exact (proj2 (inserted_rows_written
                  (MAdd (Some "u1")
                     (AddForm.mk " Amazon " "01000" "" "" "" "" "General"))
                  _ eq_refl)).
Defined.

(** An edit reaches the store exactly when the trimmed name is not empty
    and the value is a finite number above zero, whatever the list holds;
    otherwise it answers with an alert and the voucher stays as it is. *)
Theorem saveEdit_accepts_iff (list : list Voucher) (item : Voucher)
    (form : EditForm.t) :
  let numericValue := parse_amount (EditForm.value form) in
  ((exists p, saveEdit list (Some item) form = Update (Voucher.id item) p)
   <-> (is_empty (trim (EditForm.name form)) = false
        /\ isFinite numericValue = true
        /\ gtb numericValue (int 0) = true))
  /\ ((exists p, saveEdit list (Some item) form = Update (Voucher.id item) p)
      \/ ((exists msg, saveEdit list (Some item) form = Alert msg)
          /\ forall v, stored_after (saveEdit list (Some item) form) v = v)).
Proof.
  intros nv. unfold saveEdit. fold nv.
  destruct (is_empty (trim (EditForm.name form))) eqn:Hn.
  { split.
    - split; [intros [p H]; discriminate | intros (H & _); discriminate].
    - right. split; [eauto | reflexivity]. }
  destruct (negb (isFinite nv) || leb nv (int 0)) eqn:Hv.
  { split.
    - split; [intros [p H]; discriminate|].
      intros (_ & Hf & Hp). rewrite Hf, (ltb_leb_false _ _ Hp) in Hv.
      discriminate.
    - right. split; [eauto | reflexivity]. }
  apply orb_false_iff in Hv. destruct Hv as [Hvf Hvp].
  apply negb_false_iff in Hvf.
  assert (Hacc : exists p,
    match find (fun x => String.eqb (Voucher.id x) (Voucher.id item)) list with
    | Some cur =>
        Update (Voucher.id item)
          (Payload.mk (Some (trim (EditForm.name form))) (Some nv)
             (Some (EditForm.category form))
             (Some (or_null (trim (EditForm.code form))))
             (Some (or_null (trim (EditForm.pin form))))
             (Some (or_null (EditForm.expires_on form)))
             (Some (Math_min (or0 (Voucher.spent cur)) nv))
             (Some (if geb (Math_min (or0 (Voucher.spent cur)) nv) nv
                    then used else status_or (Voucher.status cur) unused)))
    | None =>
        Update (Voucher.id item)
          (Payload.mk (Some (trim (EditForm.name form))) (Some nv)
             (Some (EditForm.category form))
             (Some (or_null (trim (EditForm.code form))))
             (Some (or_null (trim (EditForm.pin form))))
             (Some (or_null (EditForm.expires_on form))) None None)
    end = Update (Voucher.id item) p).
  { destruct (find _ list); eauto. }
  split; [|left; exact Hacc].
  split; [|intros _; exact Hacc].
  intros _. repeat split; try assumption.
  apply leb_false_ltb; [exact Hvf | reflexivity | exact Hvp].
Qed.

(** When the fetched list does not hold the voucher in the modal, a valid
    edit writes the new value but neither spent nor status: the stored
    voucher keeps both, so that its spent amount may exceed its new
    value. *)
Theorem saveEdit_unlisted (list : list Voucher) (item : Voucher)
    (form : EditForm.t) :
  is_empty (trim (EditForm.name form)) = false ->
  isFinite (parse_amount (EditForm.value form)) = true ->
  gtb (parse_amount (EditForm.value form)) (int 0) = true ->
  find (fun x => String.eqb (Voucher.id x) (Voucher.id item)) list = None ->
  let v' := stored_after (saveEdit list (Some item) form) item in
  Voucher.value v' = parse_amount (EditForm.value form)
  /\ Voucher.spent v' = Voucher.spent item
  /\ Voucher.status v' = Voucher.status item
  /\ (ltb (parse_amount (EditForm.value form)) (Voucher.spent item) = true ->
      ~ voucher_ledger_ok v').
Proof.
  intros Hn Hf Hp Hfind v'. subst v'. unfold saveEdit.
  rewrite Hn, Hf, (ltb_leb_false _ _ Hp), Hfind. cbn [negb orb].
  unfold stored_after. rewrite String.eqb_refl. fields.
  repeat split. intros Hlt Hok.
  unfold voucher_ledger_ok, ledger_ok in Hok. fields.
  destruct Hok as [_ Hle].
  rewrite (ltb_leb_false _ _ Hlt) in Hle. discriminate.
Qed.

Lemma saveEdit_unlisted_witness :
  let v' := stored_after (saveEdit [] (Some edit_down_voucher) edit_down_form)
              edit_down_voucher in
  Voucher.value v' = int 500 /\ Voucher.spent v' = int 700
  /\ ~ voucher_ledger_ok v'.
Proof.
  pose proof (saveEdit_unlisted [] edit_down_voucher edit_down_form
                eq_refl eq_refl eq_refl eq_refl) as H.
  cbv zeta in *. destruct H as (Hv & Hs & _ & Hbad).
  split; [exact Hv|]. split; [exact Hs | exact (Hbad eq_refl)].
Defined.

Lemma substring_all s : substring 0 (String.length s) s = s.
Proof. induction s as [|c r IH]; [reflexivity|]. cbn. rewrite IH. reflexivity. Qed.

Lemma parse_iso_date_length s :
  parse_iso_date s <> None -> String.length s = 10%nat.
Proof.
  unfold parse_iso_date.
  destruct (Nat.eqb_spec (String.length s) 10) as [E|E]; [intros _; exact E|].
  cbn [andb]. intros H. exfalso. apply H. reflexivity.
Qed.

Lemma written_text_kept o :
  written_text o -> or_null (trim (str_or (or_empty o) "")) = o.
Proof.
  destruct o as [s|]; [|reflexivity]. intros [Ht He].
  unfold or_empty, str_or. rewrite He, Ht. unfold or_null. rewrite He.
  reflexivity.
Qed.

Lemma stored_expiry_kept o :
  stored_expiry o ->
  or_null (match o with
           | Some s => if is_empty s then "" else substring 0 10 s
           | None => ""
           end) = o.
Proof.
  destruct o as [s|]; [|reflexivity]. intros H.
  rewrite (parse_iso_date_nonempty _ H).
  rewrite <- (parse_iso_date_length _ H), substring_all.
  unfold or_null. rewrite (parse_iso_date_nonempty _ H). reflexivity.
Qed.

(** Opening the edit modal on a settled voucher of the list (see
    [settled_voucher]: among others a code and a PIN without white space
    around them) and saving the form as it was filled leaves the stored
    voucher as it is. *)
Theorem edit_unchanged_is_noop (list : list Voucher) (v : Voucher) :
  settled_voucher v ->
  find (fun x => String.eqb (Voucher.id x) (Voucher.id v)) list = Some v ->
  stored_after (saveEdit list (fst (openEdit v)) (snd (openEdit v))) v = v.
Proof.
  intros ((Hv & Hs & [H0 H1] & Hpos & Htrim & Hname & Hcat)
          & Hcode & Hpin & Hexp & _ & Hused) Hfind.
  cbn [openEdit fst snd].
  assert (Hval : parse_amount (String_of_number (Voucher.value v))
                 = Voucher.value v) by (apply Number_reads_back; exact Hv).
  assert (Hn : str_or (Voucher.name v) "" = Voucher.name v)
    by (unfold str_or; rewrite Hname; reflexivity).
  assert (Hc : str_or (Voucher.category v) "General" = Voucher.category v)
    by (unfold str_or; rewrite Hcat; reflexivity).
  rewrite saveEdit_valid with (cur := v); cbn [EditForm.name EditForm.value
    EditForm.category EditForm.code EditForm.pin EditForm.expires_on];
    rewrite ?Hn, ?Hval, ?Htrim; try assumption; [|exact (proj1 Hv)].
  unfold stored_after. rewrite String.eqb_refl.
  rewrite Hc, (written_text_kept _ Hcode), (written_text_kept _ Hpin),
    (stored_expiry_kept _ Hexp), (or0_stored _ Hs).
  assert (Emin : Math_min (Voucher.spent v) (Voucher.value v)
                 = Voucher.spent v).
  { destruct Hs as [Hf _], Hv as [Hfv _].
    destruct (isFinite_inv _ Hf) as (m & k & E).
    destruct (isFinite_inv _ Hfv) as (mv & kv & Ev).
    rewrite E, Ev in *. rewrite Math_min_fin, (leb_ltb_false _ _ H1).
    reflexivity. }
  rewrite Emin.
  assert (Est : (if geb (Voucher.spent v) (Voucher.value v)
                 then used else Voucher.status v) = Voucher.status v).
  { destruct (geb (Voucher.spent v) (Voucher.value v)) eqn:G; [|reflexivity].
    symmetry. apply Hused. reflexivity. }
  rewrite Est. destruct v. reflexivity.
Qed.

Lemma edit_unchanged_is_noop_witness :
  stored_after
    (saveEdit [sample_voucher; new_year_voucher]
       (fst (openEdit new_year_voucher)) (snd (openEdit new_year_voucher)))
    new_year_voucher = new_year_voucher.
Proof.
  apply edit_unchanged_is_noop; [|reflexivity].
  repeat split; try reflexivity; try discriminate.
Defined.

(* ================================================================== *)
(** * Further properties: the numeric inputs *)
(* ================================================================== *)

Lemma keep_digits_and_dots_shape s :
  digits_and_dots (keep_digits_and_dots s) = true.
Proof.
  induction s as [|c r IH]; [reflexivity|]. cbn [keep_digits_and_dots].
  destruct (is_digit c || Ascii.eqb c ".") eqn:E; [|exact IH].
  cbn [digits_and_dots]. rewrite E, IH. reflexivity.
Qed.

Lemma keep_digits_and_dots_id s :
  digits_and_dots s = true -> keep_digits_and_dots s = s.
Proof.
  induction s as [|c r IH]; [reflexivity|]. cbn [digits_and_dots].
  intros H. apply andb_true_iff in H. destruct H as [Hc Hr].
  cbn [keep_digits_and_dots]. rewrite Hc, (IH Hr). reflexivity.
Qed.

Lemma strip_leading_zeros_cases s :
  strip_leading_zeros s = s
  \/ exists c r, s = String "0"%char (String c r) /\ is_digit c = true
                 /\ strip_leading_zeros s = strip_leading_zeros (String c r).
Proof.
  destruct s as [|a r]; [left; reflexivity|].
  destruct (ascii_dec a "0"%char) as [->|Ha].
  - destruct r as [|c r]; [left; reflexivity|].
    cbn [strip_leading_zeros]. destruct (is_digit c) eqn:E.
    + right. exists c, r. repeat split. exact E.
    + left. reflexivity.
  - left. apply strip_leading_zeros_nonzero. exact Ha.
Qed.

Lemma strip_leading_zeros_idem_shape s :
  strip_leading_zeros (strip_leading_zeros s) = strip_leading_zeros s
  /\ (digits_and_dots s = true ->
      digits_and_dots (strip_leading_zeros s) = true).
Proof.
  induction s as [|a r IH]; [split; reflexivity|].
  destruct (strip_leading_zeros_cases (String a r))
    as [E|(c & r' & Es & Hc & E)].
  - rewrite E. split; [exact E | trivial].
  - injection Es as -> ->. rewrite E. destruct IH as [IH1 IH2].
    split; [exact IH1|]. intros H. apply IH2.
    cbn [digits_and_dots] in H. apply andb_true_iff in H. apply H.
Qed.

Lemma cleanNumString_shape s :
  digits_and_dots (cleanNumString s) = true
  /\ strip_leading_zeros (cleanNumString s) = cleanNumString s.
Proof.
  unfold cleanNumString. destruct (is_empty s); [split; reflexivity|].
  split; [|apply strip_leading_zeros_idem_shape].
  apply strip_leading_zeros_idem_shape, keep_digits_and_dots_shape.
Qed.

(** The filter on the numeric inputs keeps digits and dots only, changes
    nothing when applied again, and leaves no leading zero for the
    handlers to remove. *)
Theorem cleanNumString_fixpoint (s : string) :
  digits_and_dots (cleanNumString s) = true
  /\ cleanNumString (cleanNumString s) = cleanNumString s
  /\ strip_leading_zeros (cleanNumString s) = cleanNumString s
  /\ parse_amount (cleanNumString s) = Number_of_string (cleanNumString s).
Proof.
  destruct (cleanNumString_shape s) as [Hshape Hstrip].
  split; [exact Hshape|]. split; [|split; [exact Hstrip|]].
  - unfold cleanNumString at 1.
    destruct (is_empty (cleanNumString s)) eqn:E.
    + destruct (cleanNumString s); [reflexivity | discriminate].
    + rewrite (keep_digits_and_dots_id _ Hshape). exact Hstrip.
  - unfold parse_amount. rewrite Hstrip. reflexivity.
Qed.

Lemma digits_and_dots_no_space s :
  digits_and_dots s = true -> no_space s = true.
Proof.
  induction s as [|c r IH]; [reflexivity|]. cbn [digits_and_dots no_space].
  intros H. apply andb_true_iff in H. destruct H as [Hc Hr].
  rewrite (IH Hr), andb_true_r. apply negb_true_iff.
  apply orb_true_iff in Hc. destruct Hc as [Hc|Hc].
  - apply is_digit_not_space. exact Hc.
  - apply Ascii.eqb_eq in Hc. subst c. reflexivity.
Qed.

Lemma span_digits_dd s :
  digits_and_dots s = true ->
  digits_only (fst (span_digits s)) = true
  /\ (snd (span_digits s) = ""
      \/ exists t, snd (span_digits s) = String "."%char t
                   /\ digits_and_dots t = true).
Proof.
  induction s as [|c r IH]; [intros _; split; [reflexivity | left; reflexivity]|].
  cbn [digits_and_dots]. intros H. apply andb_true_iff in H.
  destruct H as [Hc Hr]. cbn [span_digits].
  destruct (is_digit c) eqn:Ed.
  - destruct (IH Hr) as [H1 H2]. destruct (span_digits r) as [d t].
    cbn [fst snd] in *. cbn [digits_only].
    split; [rewrite Ed, H1; reflexivity | exact H2].
  - cbn [orb] in Hc. apply Ascii.eqb_eq in Hc. subst c. cbn [fst snd].
    split; [reflexivity|]. right. eauto.
Qed.

Lemma digits_val_nonneg s acc :
  digits_only s = true -> 0 <= acc -> 0 <= digits_val s acc.
Proof.
  revert acc. induction s as [|c r IH]; intros acc Hs Ha; [exact Ha|].
  cbn [digits_only] in Hs. apply andb_true_iff in Hs. destruct Hs as [Hc Hr].
  cbn [digits_val]. apply IH; [exact Hr|].
  unfold is_digit in Hc. apply andb_true_iff in Hc. destruct Hc as [Hc _].
  apply Z.leb_le in Hc. unfold digit_val. lia.
Qed.

Lemma norm_nonneg m k m' k' : 0 <= m -> norm m k = Fin m' k' -> 0 <= m'.
Proof.
  intros Hm H. destruct (norm_value m k) as (a & b & E & Hv).
  rewrite E in H. injection H as -> ->.
  pose proof (pow10_pos k). pose proof (pow10_pos k'). nia.
Qed.

Lemma parse_unsigned_dd s :
  digits_and_dots s = true ->
  parse_unsigned s = NaN
  \/ exists m k, parse_unsigned s = Fin m k /\ 0 <= m.
Proof.
  intros Hs. unfold parse_unsigned.
  assert (String.eqb s "Infinity" = false) as ->.
  { destruct s as [|c r]; [reflexivity|]. cbn [String.eqb].
    destruct (Ascii.eqb_spec c "I"%char) as [->|]; [discriminate Hs|reflexivity]. }
  destruct (span_digits_dd s Hs) as [Hi Hr1].
  destruct (span_digits s) as [i r1]. cbn [fst snd] in *.
  assert (Hfin : forall f, digits_only f = true ->
            exists m k, scale (digits_val (i ++ f) 0) (String.length f) 0
                        = Fin m k /\ 0 <= m).
  { intros f Hf. unfold scale. cbn [Z.ltb Z.compare Z.to_nat Nat.leb].
    rewrite Nat.sub_0_r.
    destruct (norm_value (digits_val (i ++ f) 0) (String.length f))
      as (m & k & E & _).
    exists m, k. split; [exact E|].
    apply (norm_nonneg _ _ _ _
             (digits_val_nonneg (i ++ f) 0
                ltac:(rewrite digits_only_app, Hi, Hf; reflexivity)
                ltac:(lia)) E). }
  destruct Hr1 as [->|(t & -> & Ht)].
  - destruct (is_empty i && is_empty ""); [left; reflexivity|].
    cbn [parse_exponent]. right. apply Hfin. reflexivity.
  - destruct (span_digits_dd t Ht) as [Hf Hr2].
    destruct (span_digits t) as [f r2]. cbn [fst snd] in *.
    destruct (is_empty i && is_empty f); [left; reflexivity|].
    destruct Hr2 as [->|(t' & -> & _)].
    + cbn [parse_exponent]. right. apply Hfin. exact Hf.
    + left. reflexivity.
Qed.

Lemma Number_dd s :
  digits_and_dots s = true -> Number_of_string s = int 0
  \/ Number_of_string s = parse_unsigned s.
Proof.
  intros Hs. unfold Number_of_string.
  rewrite (trim_no_space _ (digits_and_dots_no_space _ Hs)).
  destruct s as [|c r]; [left; reflexivity|]. right.
  cbn [digits_and_dots] in Hs. apply andb_true_iff in Hs.
  destruct Hs as [Hc Hr].
  destruct (ascii_dec c "0"%char) as [->|Hc0].
  - destruct r as [|c2 r2]; [reflexivity|].
    cbn [digits_and_dots] in Hr. apply andb_true_iff in Hr.
    destruct Hr as [Hc2 _].
    destruct c2 as [[] [] [] [] [] [] [] []];
      try (vm_compute in Hc2; discriminate Hc2); reflexivity.
  - destruct c as [[] [] [] [] [] [] [] []];
      try (vm_compute in Hc; discriminate Hc);
      try (exfalso; apply Hc0; reflexivity); reflexivity.
Qed.

(** What a numeric input holds never reads as a negative number: the
    amount read is [NaN] or is at least zero. *)
Theorem cleaned_amount_not_negative (s : string) :
  let x := parse_amount (cleanNumString s) in
  (x = NaN \/ leb (int 0) x = true)
  /\ ltb x (int 0) = false.
Proof.
  cbv zeta. destruct (cleanNumString_shape s) as [Hs Hstrip].
  unfold parse_amount. rewrite Hstrip.
  assert (H : Number_of_string (cleanNumString s) = NaN
              \/ exists m k, Number_of_string (cleanNumString s) = Fin m k
                             /\ 0 <= m).
  { destruct (Number_dd _ Hs) as [->| ->].
    - right. exists 0, 0%nat. split; [reflexivity | lia].
    - apply parse_unsigned_dd. exact Hs. }
  destruct H as [->|(m & k & -> & Hm)]; [split; [left|]; reflexivity|].
  pose proof (pow10_pos k). unfold ltb, leb, int. change (pow10 0) with 1.
  split; [right; apply Z.leb_le | apply Z.ltb_ge]; nia.
Qed.

(* ================================================================== *)
(** * Further properties: the displayed list *)
(* ================================================================== *)

Lemma Array_sort_tie_all {A : Type} (l : list A) :
  Array_sort (fun _ _ => int 0) l = l.
Proof.
  induction l as [|h t IH]; [reflexivity|].
  cbn [Array_sort fold_right]. fold (Array_sort (fun _ _ : A => int 0) t).
  rewrite IH. destruct t; reflexivity.
Qed.

Lemma filtered_as_sort tza now list filterCategory search sort :
  filtered tza now list filterCategory search sort
  = Array_sort (sort_comparefn tza now sort)
      (filter (inSearch (toLowerCase (trim search)))
         (filter (inCategory filterCategory) list)).
Proof.
  unfold filtered. rewrite filter_and.
  destruct sort; try reflexivity. cbn [sort_comparefn].
  rewrite Array_sort_tie_all. reflexivity.
Qed.

Lemma sort_insert_perm {A : Type} (cmp : A -> A -> number) x l :
  Permutation (x :: l) (sort_insert cmp x l).
Proof.
  induction l as [|h t IH]; [reflexivity|]. cbn [sort_insert].
  destruct (gtb (cmp x h) (int 0)); [|reflexivity].
  rewrite perm_swap. apply perm_skip. exact IH.
Qed.

Lemma Array_sort_perm {A : Type} (cmp : A -> A -> number) l :
  Permutation l (Array_sort cmp l).
Proof.
  induction l as [|h t IH]; [reflexivity|].
  cbn [Array_sort fold_right]. fold (Array_sort cmp t).
  rewrite <- sort_insert_perm. apply perm_skip. exact IH.
Qed.

(** The displayed list holds exactly the vouchers that pass the filter
    and the search, each as often as the list holds it, whatever the
    amounts and dates are: sorting drops and repeats nothing. *)
Theorem filtered_permutes_kept (tza now : Z) (list : list Voucher)
    (filterCategory search : string) (sort : SortKey) :
  Permutation
    (filter (inSearch (toLowerCase (trim search)))
       (filter (inCategory filterCategory) list))
    (filtered tza now list filterCategory search sort)
  /\ (List.length (filtered tza now list filterCategory search sort)
      <= List.length list)%nat.
Proof.
  rewrite filtered_as_sort. split; [apply Array_sort_perm|].
  rewrite <- (Permutation_length (Array_sort_perm _ _)).
  etransitivity; apply filter_length_le.
Qed.

(** The order of the sort keys on stored vouchers. *)
Lemma sort_order tza now sort :
  (forall x y, stored_voucher x -> stored_voucher y ->
     gtb (sort_comparefn tza now sort x y) (int 0)
     = sort_before tza now sort y x)
  /\ (forall x y, stored_voucher x -> stored_voucher y ->
        sort_before tza now sort x y = true ->
        sort_before tza now sort y x = false)
  /\ (forall x y z, stored_voucher x -> stored_voucher y ->
        stored_voucher z ->
        sort_before tza now sort y x = false ->
        sort_before tza now sort z y = false ->
        sort_before tza now sort z x = false).
Proof.
  destruct sort; cbn [sort_before sort_comparefn]; (split; [|split]).
  - reflexivity.
  - discriminate.
  - reflexivity.
  - intros x y (Hx & _) (Hy & _).
    rewrite (or0_stored _ Hx), (or0_stored _ Hy).
    apply sub_sign; apply stored_number_not_nan; assumption.
  - intros x y _ _. apply ltb_asym.
  - intros x y z (Hx & _) (Hy & _) (Hz & _) H1 H2.
    apply (ltb_negtrans _ (Voucher.value y)); auto;
      apply stored_number_not_nan; assumption.
  - intros x y (Hx & _) (Hy & _).
    rewrite (or0_stored _ Hx), (or0_stored _ Hy).
    apply sub_sign; apply stored_number_not_nan; assumption.
  - intros x y _ _. apply ltb_asym.
  - intros x y z (Hx & _) (Hy & _) (Hz & _).
    apply ltb_negtrans; apply stored_number_not_nan; assumption.
  - intros x y Hx Hy.
    destruct (expMs_stored x Hx) as (Nx & _ & _).
    destruct (expMs_stored y Hy) as (Ny & _ & Ey).
    rewrite (sub_sign _ _ Nx Ny). apply Ey. exact Hx.
  - intros x y _ _. apply ltb_asym.
  - intros x y z Hx Hy Hz H1 H2.
    destruct (expMs_stored x Hx) as (_ & Nx & _).
    destruct (expMs_stored y Hy) as (_ & Ny & _).
    destruct (expMs_stored z Hz) as (_ & Nz & _).
    apply (ltb_negtrans _ (expiry_day y)); auto.
  - intros x y Hx Hy.
    destruct (remaining_stored x Hx) as (Ex & Nx).
    destruct (remaining_stored y Hy) as (Ey & Ny).
    rewrite (sub_sign _ _ Ny Nx), Ex, Ey. reflexivity.
  - intros x y _ _. apply ltb_asym.
  - intros x y z Hx Hy Hz.
    destruct (remaining_stored x Hx) as (Ex & Nx).
    destruct (remaining_stored y Hy) as (Ey & Ny).
    destruct (remaining_stored z Hz) as (Ez & Nz).
    rewrite <- Ex, <- Ey, <- Ez. intros H1 H2.
    apply (ltb_negtrans _ (remaining y)); assumption.
  - intros x y _ _. cbv zeta. rewrite sub_sign by discriminate. apply ltb_int.
  - intros x y _ _ H. apply Z.ltb_lt in H. apply Z.ltb_ge. lia.
  - intros x y z _ _ _ H1 H2.
    apply Z.ltb_ge in H1, H2. apply Z.ltb_ge. lia.
  - intros x y _ _. cbv zeta. rewrite sub_sign by discriminate. apply ltb_int.
  - intros x y _ _ H. apply Z.ltb_lt in H. apply Z.ltb_ge. lia.
  - intros x y z _ _ _ H1 H2.
    apply Z.ltb_ge in H1, H2. apply Z.ltb_ge. lia.
Qed.

Lemma filtered_stable_sort tza now list filterCategory search sort :
  Forall stored_voucher list ->
  StableSortBy (sort_before tza now sort)
    (filter (inSearch (toLowerCase (trim search)))
       (filter (inCategory filterCategory) list))
    (filtered tza now list filterCategory search sort).
Proof.
  intros Hst. rewrite filtered_as_sort.
  destruct (sort_order tza now sort) as (Hsign & Hasym & Htrans).
  apply (stable_sort_intro stored_voucher); auto using Forall_filter.
Qed.

Lemma sort_before_irrefl tza now sort x : sort_before tza now sort x x = false.
Proof.
  destruct sort; cbn [sort_before]; try reflexivity;
    try apply Z.ltb_irrefl;
    match goal with |- ltb ?a ?a = false => destruct a; try reflexivity end;
    apply Z.ltb_irrefl.
Qed.

Lemma tied_refl {A : Type} (before : A -> A -> bool) x :
  before x x = false -> tied before x x = true.
Proof. intros H. unfold tied. rewrite H. reflexivity. Qed.

Lemma tied_sym {A : Type} (before : A -> A -> bool) x y :
  tied before x y = tied before y x.
Proof. unfold tied. apply andb_comm. Qed.

(** Two sorted lists with the same classes of tied elements are equal. *)
Lemma sorted_classes_unique {A : Type} (before : A -> A -> bool) :
  (forall x, before x x = false) ->
  forall o1 o2 : list A,
    StronglySorted (fun x y => before y x = false) o1 ->
    StronglySorted (fun x y => before y x = false) o2 ->
    (forall x, In x o1 \/ In x o2 ->
       filter (tied before x) o1 = filter (tied before x) o2) ->
    o1 = o2.
Proof.
  intros Hirr. induction o1 as [|h1 t1 IH]; intros o2 S1 S2 Hc.
  - destruct o2 as [|h2 t2]; [reflexivity|].
    specialize (Hc h2 (or_intror (or_introl eq_refl))).
    cbn [filter] in Hc. rewrite (tied_refl _ _ (Hirr h2)) in Hc.
    discriminate.
  - destruct o2 as [|h2 t2].
    { specialize (Hc h1 (or_introl (or_introl eq_refl))).
      cbn [filter] in Hc. rewrite (tied_refl _ _ (Hirr h1)) in Hc.
      discriminate. }
    inversion S1 as [|? ? S1t F1]; subst.
    inversion S2 as [|? ? S2t F2]; subst.
    rewrite Forall_forall in F1, F2.
    assert (h1 = h2) as <-.
    { pose proof (Hc h1 (or_introl (or_introl eq_refl))) as E1.
      pose proof (Hc h2 (or_intror (or_introl eq_refl))) as E2.
      cbn [filter] in E1, E2.
      rewrite (tied_refl _ _ (Hirr h1)) in E1.
      rewrite (tied_refl _ _ (Hirr h2)) in E2.
      rewrite (tied_sym before h2 h1) in E2.
      destruct (tied before h1 h2) eqn:T.
      - injection E1 as E1 _. exact E1.
      - exfalso.
        assert (In1 : In h1 t2).
        { assert (In h1 (filter (tied before h1) t2))
            by (rewrite <- E1; left; reflexivity).
          apply filter_In in H. apply H. }
        assert (In2 : In h2 t1).
        { assert (In h2 (filter (tied before h2) t1))
            by (rewrite E2; left; reflexivity).
          apply filter_In in H. apply H. }
        pose proof (F2 _ In1) as B1. pose proof (F1 _ In2) as B2.
        unfold tied in T. rewrite B1, B2 in T. discriminate. }
    f_equal. apply IH; try assumption.
    intros x Hx.
    assert (Hx' : In x (h1 :: t1) \/ In x (h1 :: t2))
      by (destruct Hx; [left | right]; right; assumption).
    specialize (Hc x Hx'). cbn [filter] in Hc.
    destruct (tied before x h1); [injection Hc as Hc|]; exact Hc.
Qed.

(** On vouchers that the sort key can sort the displayed list is the
    only stable sort of the kept vouchers by the sort key: every list
    that is one equals it. *)
Theorem filtered_is_the_stable_sort (tza now : Z) (list : list Voucher)
    (filterCategory search : string) (sort : SortKey)
    (out : Datatypes.list Voucher) :
  Forall (sortable sort) list ->
  StableSortBy (sort_before tza now sort)
    (filter (inSearch (toLowerCase (trim search)))
       (filter (inCategory filterCategory) list)) out ->
  out = filtered tza now list filterCategory search sort.
Proof.
  intros Hst (S1 & I1 & C1).
  destruct (filtered_sorts tza now list filterCategory search sort Hst)
    as (S2 & I2 & C2).
  apply (sorted_classes_unique (sort_before tza now sort));
    [apply sort_before_irrefl | assumption | assumption |].
  intros x [Hx|Hx].
  - rewrite (C1 x (I1 x Hx)), (C2 x (I1 x Hx)). reflexivity.
  - rewrite (C1 x (I2 x Hx)), (C2 x (I2 x Hx)). reflexivity.
Qed.

Lemma filtered_is_the_stable_sort_witness :
  filtered 0 0 expiry_examples "All" "" expiry_asc
  = [nth 2 expiry_examples sample_voucher;
     nth 1 expiry_examples sample_voucher;
     nth 0 expiry_examples sample_voucher].
Proof.
  symmetry. apply filtered_is_the_stable_sort.
  - repeat constructor; cbn; discriminate.
  - split; [|split].
    + repeat constructor.
    + intros x Hx. cbn in Hx. cbn. tauto.
    + intros x Hx.
      cbn in Hx. destruct Hx as [<-|[<-|[<-|[]]]]; reflexivity.
Defined.

Lemma Array_sort_sorted_id {A : Type} (P : A -> Prop)
    (cmp : A -> A -> number) (before : A -> A -> bool) (l : list A) :
  (forall x y, P x -> P y -> gtb (cmp x y) (int 0) = before y x) ->
  Forall P l ->
  StronglySorted (fun x y => before y x = false) l ->
  Array_sort cmp l = l.
Proof.
  intros Hsign Pl Hs. induction l as [|h t IH]; [reflexivity|].
  inversion Pl as [|? ? Ph Pt]; subst.
  inversion Hs as [|? ? Hst Hh]; subst.
  cbn [Array_sort fold_right]. fold (Array_sort cmp t).
  rewrite (IH Pt Hst). destruct t as [|y r]; [reflexivity|].
  cbn [sort_insert]. inversion Pt; subst. inversion Hh; subst.
  rewrite Hsign by assumption.
  match goal with H : before y h = false |- _ => rewrite H end.
  reflexivity.
Qed.

Lemma filter_id {A : Type} (f : A -> bool) (l : list A) :
  (forall x, In x l -> f x = true) -> filter f l = l.
Proof.
  induction l as [|h t IH]; intros H; [reflexivity|]. cbn [filter].
  rewrite (H h (or_introl eq_refl)), IH; [reflexivity|].
  intros x Hx. apply H. right. exact Hx.
Qed.

(** Projecting the displayed list once more, with the same filter, search
    and sort key, changes nothing. *)
Theorem filtered_idempotent (tza now : Z) (list : list Voucher)
    (filterCategory search : string) (sort : SortKey) :
  Forall stored_voucher list ->
  filtered tza now (filtered tza now list filterCategory search sort)
    filterCategory search sort
  = filtered tza now list filterCategory search sort.
Proof.
  intros Hst.
  destruct (filtered_stable_sort tza now list filterCategory search sort Hst)
    as (Hs & Hin & _).
  set (out := filtered tza now list filterCategory search sort) in *.
  rewrite (filtered_as_sort tza now out).
  assert (Hkept : forall x, In x out ->
            In x list /\ inCategory filterCategory x = true
            /\ inSearch (toLowerCase (trim search)) x = true).
  { intros x Hx. apply Hin in Hx. apply filter_In in Hx.
    destruct Hx as [Hx Hs']. apply filter_In in Hx. tauto. }
  rewrite (filter_id (inCategory filterCategory) out)
    by (intros x Hx; apply Hkept; exact Hx).
  rewrite (filter_id _ out) by (intros x Hx; apply Hkept; exact Hx).
  destruct (sort_order tza now sort) as (Hsign & _ & _).
  apply (Array_sort_sorted_id stored_voucher _ (sort_before tza now sort));
    [exact Hsign | | exact Hs].
  apply Forall_forall. intros x Hx. rewrite Forall_forall in Hst.
  apply Hst. apply Hkept. exact Hx.
Qed.

Lemma filtered_idempotent_witness :
  filtered 0 0 (filtered 0 0 expiry_examples "All" "" expiry_asc)
    "All" "" expiry_asc
  = filtered 0 0 expiry_examples "All" "" expiry_asc.
Proof.
  apply filtered_idempotent. repeat constructor; cbn; discriminate.
Defined.

(* ================================================================== *)
(** * Further properties: the search term *)
(* ================================================================== *)

Lemma lower_char_space c : is_space (lower_char c) = is_space c.
Proof. destruct c as [[] [] [] [] [] [] [] []]; reflexivity. Qed.

Lemma lower_char_idem c : lower_char (lower_char c) = lower_char c.
Proof. destruct c as [[] [] [] [] [] [] [] []]; reflexivity. Qed.

Lemma toLowerCase_idem s : toLowerCase (toLowerCase s) = toLowerCase s.
Proof.
  induction s as [|c r IH]; [reflexivity|]. cbn [toLowerCase].
  rewrite lower_char_idem, IH. reflexivity.
Qed.

Lemma is_empty_lower s : is_empty (toLowerCase s) = is_empty s.
Proof. destruct s; reflexivity. Qed.

Lemma trimStart_lower s : trimStart (toLowerCase s) = toLowerCase (trimStart s).
Proof.
  induction s as [|c r IH]; [reflexivity|]. cbn [toLowerCase trimStart].
  rewrite lower_char_space. destruct (is_space c); [exact IH|reflexivity].
Qed.

Lemma trimEnd_lower s : trimEnd (toLowerCase s) = toLowerCase (trimEnd s).
Proof.
  induction s as [|c r IH]; [reflexivity|]. cbn [toLowerCase trimEnd].
  rewrite lower_char_space, IH, is_empty_lower.
  destruct (is_space c && is_empty (trimEnd r)); reflexivity.
Qed.

Lemma trim_lower s : trim (toLowerCase s) = toLowerCase (trim s).
Proof. unfold trim. rewrite trimStart_lower, trimEnd_lower. reflexivity. Qed.

(** The displayed list does not depend on the case of the search term
    nor on the white space around it, and a search term of white space
    only searches nothing. *)
Theorem search_term_normalised (tza now : Z) (list : list Voucher)
    (filterCategory search : string) (sort : SortKey) :
  filtered tza now list filterCategory (toLowerCase search) sort
  = filtered tza now list filterCategory search sort
  /\ filtered tza now list filterCategory (trim search) sort
     = filtered tza now list filterCategory search sort
  /\ (is_empty (trim search) = true ->
      filtered tza now list filterCategory search sort
      = Array_sort (sort_comparefn tza now sort)
          (filter (inCategory filterCategory) list)).
Proof.
  rewrite !filtered_as_sort. split; [|split].
  - rewrite trim_lower, toLowerCase_idem. reflexivity.
  - rewrite trim_idem. reflexivity.
  - intros H. destruct (trim search); [|discriminate].
    f_equal. apply filter_id. reflexivity.
Qed.

(* ================================================================== *)
(** * Further properties: the Dashboard *)
(* ================================================================== *)

Lemma fold_add_sum {A : Type} (f : A -> number) (l : list A) :
  Forall (fun v => isFinite (f v) = true) l ->
  forall a, stored_number a ->
    stored_number (fold_left (fun a v => add a (f v)) l a)
    /\ Qof (fold_left (fun a v => add a (f v)) l a)
       == (Qof a + fold_right (fun v q => Qof (f v) + q) 0 l)%Q.
Proof.
  induction 1 as [|v l Hv _ IH]; intros a Ha; cbn [fold_left fold_right].
  - split; [exact Ha | lra].
  - destruct (IH (add a (f v))) as [S E].
    { apply add_stored; [apply Ha | exact Hv]. }
    split; [exact S|]. rewrite E.
    destruct Ha as [Ha _].
    destruct (isFinite_inv _ Ha) as (m1 & k1 & ->).
    destruct (isFinite_inv _ Hv) as (m2 & k2 & E2). rewrite E2.
    destruct (add_fin m1 k1 m2 k2) as (m & k & -> & Hq). rewrite Hq. lra.
Qed.

Lemma stored_int z : stored_number (int z).
Proof. split; reflexivity. Qed.

Lemma totals_balance_exact (tza now : Z) (vouchers : list Voucher) :
  Forall whole_amounts vouchers ->
  Forall voucher_ledger_ok vouchers ->
  let t := totals tza now vouchers in
  leb (int 0) (Totals.totalSpent t) = true
  /\ leb (Totals.totalSpent t) (Totals.totalValue t) = true
  /\ leb (int 0) (Totals.totalRem t) = true
  /\ Totals.totalRem t
     = fold_left (fun a v => add a (dashboard_remaining v)) vouchers (int 0).
Proof.
  intros Hw Hok. cbv zeta. unfold totals.
  cbn [Totals.totalSpent Totals.totalValue Totals.totalRem].
  assert (Hst : Forall (fun v => stored_number (Voucher.value v)
                                 /\ stored_number (Voucher.spent v) /\ True)
                  vouchers).
  { eapply Forall_impl; [|exact Hw]. intros v [Wv Ws].
    split; [|split]; auto using whole_amount_stored. }
  assert (FV : Forall (fun v => isFinite (or0 (Voucher.value v)) = true)
                 vouchers).
  { eapply Forall_impl; [|exact Hst]. intros v (Hv & _).
    rewrite (or0_stored _ Hv). apply Hv. }
  assert (FS : Forall (fun v => isFinite (or0 (Voucher.spent v)) = true)
                 vouchers).
  { eapply Forall_impl; [|exact Hst]. intros v (_ & Hs & _).
    rewrite (or0_stored _ Hs). apply Hs. }
  assert (FR : Forall (fun v => isFinite (dashboard_remaining v) = true)
                 vouchers).
  { eapply Forall_impl; [|exact Hst]. intros v (Hv & Hs & _).
    unfold dashboard_remaining. rewrite (or0_stored _ Hv), (or0_stored _ Hs).
    destruct Hv as [Hv _], Hs as [Hs _].
    destruct (isFinite_inv _ Hv) as (m1 & k1 & ->).
    destruct (isFinite_inv _ Hs) as (m2 & k2 & ->).
    destruct (sub_fin m1 k1 m2 k2) as (m & k & -> & _). reflexivity. }
  destruct (fold_add_sum (fun v => or0 (Voucher.value v)) vouchers FV
              (int 0) (stored_int 0)) as [SV EV].
  destruct (fold_add_sum (fun v => or0 (Voucher.spent v)) vouchers FS
              (int 0) (stored_int 0)) as [SS ES].
  destruct (fold_add_sum dashboard_remaining vouchers FR
              (int 0) (stored_int 0)) as [SR ER].
  set (tv := fold_left (fun a v => add a (or0 (Voucher.value v))) vouchers
               (int 0)) in *.
  set (ts := fold_left (fun a v => add a (or0 (Voucher.spent v))) vouchers
               (int 0)) in *.
  set (tr := fold_left (fun a v => add a (dashboard_remaining v)) vouchers
               (int 0)) in *.
  change (Qof (int 0)) with 0%Q in *.
  (* the sums, line by line *)
  assert (Sums :
    (0 <= fold_right (fun v q => Qof (or0 (Voucher.spent v)) + q) 0 vouchers)%Q
    /\ (fold_right (fun v q => Qof (or0 (Voucher.spent v)) + q) 0 vouchers
        <= fold_right (fun v q => Qof (or0 (Voucher.value v)) + q) 0 vouchers)%Q
    /\ (fold_right (fun v q => Qof (dashboard_remaining v) + q) 0 vouchers
        == fold_right (fun v q => Qof (or0 (Voucher.value v)) + q) 0 vouchers
           - fold_right (fun v q => Qof (or0 (Voucher.spent v)) + q) 0
               vouchers)%Q).
  { clear - Hst Hok.
    induction Hst as [|v l (Hv & Hs & _) _ IH]; cbn [fold_right].
    - repeat split; lra.
    - inversion Hok as [|? ? [H0 H1] Hok']; subst.
      destruct (IH Hok') as (I0 & I1 & I2).
      unfold dashboard_remaining.
      rewrite (or0_stored _ Hv), (or0_stored _ Hs).
      destruct Hv as [Hv _], Hs as [Hs _].
      destruct (isFinite_inv _ Hv) as (m1 & k1 & E1).
      destruct (isFinite_inv _ Hs) as (m2 & k2 & E2).
      rewrite E1, E2 in *.
      destruct (sub_fin m1 k1 m2 k2) as (m & k & -> & Hq).
      unfold int in H0. apply leb_Q in H0, H1.
      change (Qof (Fin 0 0)) with 0%Q in H0.
      rewrite I2, Hq. repeat split; lra. }
  destruct Sums as (Q0 & Q1 & Q2).
  destruct SV as [FtV CV], SS as [FtS CS].
  destruct (isFinite_inv _ FtV) as (mv & kv & Etv).
  destruct (isFinite_inv _ FtS) as (ms & ks & Ets).
  rewrite Etv, Ets in *.
  destruct (sub_fin mv kv ms ks) as (m & k & Esub & Hq).
  assert (Ssub : stored_number (sub (Fin mv kv) (Fin ms ks))).
  { unfold sub. apply add_stored; reflexivity. }
  repeat split.
  - unfold int. apply leb_Q. change (Qof (Fin 0 0)) with 0%Q. lra.
  - apply leb_Q. lra.
  - rewrite Esub. unfold int. apply leb_Q.
    change (Qof (Fin 0 0)) with 0%Q. lra.
  - apply stored_eq; [exact Ssub | exact SR |].
    rewrite Esub, Hq, ER, Q2, EV, ES. lra.
Qed.

(** A sum of whole amounts, in this embedding and in binary64. *)
Lemma fold_add_whole (f : Voucher -> number) (g : Voucher -> Double.double)
    (l : list Voucher) :
  Forall (fun v => exists z, 0 <= z /\ f v = int z /\ g v = Double.of_Z z) l ->
  forall acc, 0 <= acc ->
    exists total,
      fold_left (fun a v => add a (f v)) l (int acc) = int total
      /\ acc <= total
      /\ (total < 2 ^ 53 ->
          fold_left (fun a v => Double.add a (g v)) l (Double.of_Z acc)
          = Double.of_Z total).
Proof.
  induction 1 as [|v l (z & Hz & Ef & Eg) _ IH]; intros acc Hacc.
  - exists acc. cbn [fold_left]. split; [reflexivity|]. split; [lia|].
    reflexivity.
  - destruct (IH (acc + z)) as (total & E & Hle & Hd); [lia|].
    exists total. cbn [fold_left]. rewrite Ef, Eg, add_ints.
    split; [exact E|]. split; [lia|].
    intros Ht. rewrite add_int by lia. apply Hd. exact Ht.
Qed.

(** On vouchers of whole amounts that keep [0 <= spent <= value], with a
    total value that is a whole amount, the totals of the Dashboard keep
    it too: the total spent lies between zero and the total value, the
    total remaining is not negative, and it is the sum of the remaining
    amounts of the table's lines.  The totals and that sum are the same
    in binary64. *)
Theorem totals_balance (tza now : Z) (vouchers : list Voucher) :
  Forall whole_amounts vouchers ->
  Forall voucher_ledger_ok vouchers ->
  whole_amount (Totals.totalValue (totals tza now vouchers)) = true ->
  let t := totals tza now vouchers in
  leb (int 0) (Totals.totalSpent t) = true
  /\ leb (Totals.totalSpent t) (Totals.totalValue t) = true
  /\ leb (int 0) (Totals.totalRem t) = true
  /\ Totals.totalRem t
     = fold_left (fun a v => add a (dashboard_remaining v)) vouchers (int 0)
  /\ Double.totals vouchers
     = (Double.of_number (Totals.totalValue t),
        Double.of_number (Totals.totalSpent t),
        Double.of_number (Totals.totalRem t))
  /\ fold_left (fun a v => Double.add a (Double.table_remaining v))
       vouchers Double.zero
     = Double.of_number (Totals.totalRem t).
Proof.
  intros Hw Hok Htot. cbv zeta.
  destruct (totals_balance_exact tza now vouchers Hw Hok)
    as (Q0 & Q1 & Q2 & Q3).
  split; [exact Q0|]. split; [exact Q1|]. split; [exact Q2|].
  split; [exact Q3|].
  assert (O : forall z, Double.or0 (Double.of_Z z) = Double.of_Z z)
    by (intros [|p|p]; reflexivity).
  assert (FV : Forall (fun v => exists z, 0 <= z
                 /\ or0 (Voucher.value v) = int z
                 /\ Double.or0 (Double.of_number (Voucher.value v))
                    = Double.of_Z z) vouchers).
  { eapply Forall_impl; [|exact Hw]. intros v [Wv _].
    destruct (whole_amount_inv _ Wv) as (z & E & Hz). exists z.
    rewrite E, (or0_stored (int z)), of_number_int, O
      by (try split; try reflexivity; lia).
    split; [lia|]. split; reflexivity. }
  assert (FS : Forall (fun v => exists z, 0 <= z
                 /\ or0 (Voucher.spent v) = int z
                 /\ Double.or0 (Double.of_number (Voucher.spent v))
                    = Double.of_Z z) vouchers).
  { eapply Forall_impl; [|exact Hw]. intros v [_ Ws].
    destruct (whole_amount_inv _ Ws) as (z & E & Hz). exists z.
    rewrite E, (or0_stored (int z)), of_number_int, O
      by (try split; try reflexivity; lia).
    split; [lia|]. split; reflexivity. }
  assert (FR : Forall (fun v => exists z, 0 <= z
                 /\ dashboard_remaining v = int z
                 /\ Double.table_remaining v = Double.of_Z z) vouchers).
  { apply Forall_forall. intros v Hv. rewrite Forall_forall in Hw, Hok.
    destruct (Hw v Hv) as [Wv Ws]. destruct (Hok v Hv) as [_ H1].
    destruct (whole_amount_inv _ Wv) as (a & Ea & Ha).
    destruct (whole_amount_inv _ Ws) as (b & Eb & Hb).
    rewrite Ea, Eb, leb_ints in H1. apply Z.leb_le in H1.
    exists (a - b). unfold dashboard_remaining, Double.table_remaining.
    rewrite Ea, Eb.
    rewrite (or0_stored (int a)), (or0_stored (int b)) by (split; reflexivity).
    rewrite !of_number_int, !O, sub_ints, sub_int by lia.
    split; [lia|]. split; reflexivity. }
  destruct (fold_add_whole _ _ _ FV 0 (Z.le_refl 0)) as (tv & Ev & _ & Dv).
  destruct (fold_add_whole _ _ _ FS 0 (Z.le_refl 0)) as (ts & Es & Ps & Ds).
  destruct (fold_add_whole _ _ _ FR 0 (Z.le_refl 0)) as (tr & Er & Pr & Dr).
  change (int 0) with (Fin 0 0) in *. fold (int 0) in *.
  unfold totals in *.
  cbn [Totals.totalSpent Totals.totalValue Totals.totalRem] in *.
  rewrite Ev, Es in *. rewrite Er in Q3.
  rewrite sub_ints in *. injection Q3 as Q3.
  rewrite leb_ints in Q1. apply Z.leb_le in Q1.
  destruct (whole_amount_inv _ Htot) as (tv' & Etv & Htv).
  injection Etv as <-.
  rewrite !of_number_int by lia.
  change Double.zero with (Double.of_Z 0).
  unfold Double.totals. change Double.zero with (Double.of_Z 0).
  rewrite (Dv ltac:(lia)), (Ds ltac:(lia)), (Dr ltac:(lia)).
  rewrite sub_int by lia. rewrite Q3. split; reflexivity.
Qed.

Lemma totals_balance_witness :
  let l := [half_used_voucher; sample_voucher] in
  let t := totals 0 0 l in
  Totals.totalRem t
  = fold_left (fun a v => add a (dashboard_remaining v)) l (int 0)
  /\ Double.totals l
     = (Double.of_number (int 3000), Double.of_number (int 1200),
        Double.of_number (int 1800)).
Proof.
  cbv zeta.
  assert (Hw : Forall whole_amounts [half_used_voucher; sample_voucher])
    by (repeat constructor).
  assert (Hok : Forall voucher_ledger_ok [half_used_voucher; sample_voucher])
    by (repeat constructor).
  destruct (totals_balance 0 0 [half_used_voucher; sample_voucher]
              Hw Hok eq_refl) as (_ & _ & _ & H3 & H4 & _).
  split; [exact H3 | exact H4].
Defined.

(** The remaining amount of a line of the Dashboard's table is the one
    the voucher list shows exactly when the voucher is not overspent: an
    overspent voucher shows a negative amount on the Dashboard and zero
    in the list. *)
Theorem dashboard_remaining_agrees (v : Voucher) :
  stored_voucher v ->
  (dashboard_remaining v = remaining v
   <-> leb (Voucher.spent v) (Voucher.value v) = true)
  /\ (leb (Voucher.spent v) (Voucher.value v) = false ->
      ltb (dashboard_remaining v) (int 0) = true
      /\ remaining v = int 0).
Proof.
  intros (Hv & Hs & _). unfold dashboard_remaining, remaining.
  rewrite (or0_stored _ Hv), (or0_stored _ Hs).
  destruct (leb (Voucher.spent v) (Voucher.value v)) eqn:L.
  - rewrite (sub_nonneg_max _ _ Hv Hs L).
    split; [split; reflexivity | discriminate].
  - destruct Hv as [Hv _], Hs as [Hs _].
    destruct (isFinite_inv _ Hv) as (m1 & k1 & E1).
    destruct (isFinite_inv _ Hs) as (m2 & k2 & E2).
    rewrite E1, E2 in *.
    destruct (sub_fin m1 k1 m2 k2) as (m & k & -> & Hq).
    unfold int. rewrite Math_max_fin.
    apply leb_Q_false in L.
    assert (T : ltb (Fin 0 0) (Fin m k) = false).
    { apply ltb_Q_false. change (Qof (Fin 0 0)) with 0%Q. lra. }
    assert (N : ltb (Fin m k) (Fin 0 0) = true).
    { apply ltb_Q. change (Qof (Fin 0 0)) with 0%Q. lra. }
    rewrite T. split; [|intros _; split; [exact N | reflexivity]].
    split; [|discriminate]. intros E. rewrite E in N. discriminate.
Qed.

Lemma dashboard_remaining_agrees_witness :
  (dashboard_remaining overspent_by_50 = remaining overspent_by_50
   <-> leb (Voucher.spent overspent_by_50) (Voucher.value overspent_by_50)
       = true)
  /\ (leb (Voucher.spent overspent_by_50) (Voucher.value overspent_by_50)
      = false ->
      ltb (dashboard_remaining overspent_by_50) (int 0) = true
      /\ remaining overspent_by_50 = int 0).
Proof.
  apply dashboard_remaining_agrees. repeat split; cbn; discriminate.
Defined.

(* ================================================================== *)
(** * Further properties: what the sheet keeps *)
(* ================================================================== *)

Lemma or_null_or_empty o : o <> Some "" -> or_null (or_empty o) = o.
Proof.
  destruct o as [[|c r]|]; intros H; try reflexivity.
  exfalso. apply H. reflexivity.
Qed.

Lemma import_text_of_export tza now uid v :
  let r := import_row uid
             (row_object (map AStr export_columns) (export_cells tza now v)) in
  Row.user_id r = uid
  /\ Row.code r = or_null (or_empty (Voucher.code v))
  /\ Row.pin r = or_null (or_empty (Voucher.pin v))
  /\ Row.expires_on r = or_null (or_empty (Voucher.expires_on v)).
Proof.
  cbv zeta. unfold import_row; fields.
  change (get (row_object (map AStr export_columns) (export_cells tza now v))
            "code") with (AStr (or_empty (Voucher.code v))).
  change (get (row_object (map AStr export_columns) (export_cells tza now v))
            "pin") with (AStr (or_empty (Voucher.pin v))).
  change (get (row_object (map AStr export_columns) (export_cells tza now v))
            "expires_on") with (AStr (or_empty (Voucher.expires_on v))).
  unfold string_or_null, or_null. cbn [truthy String_of].
  repeat split;
    match goal with
    | |- context [is_empty ?s] => destruct (is_empty s); reflexivity
    | _ => reflexivity
    end.
Qed.

(** Importing the exported sheet of vouchers as the page writes them
    gives every row to the importing user and keeps code, PIN and expiry
    date, an empty text reading back as an absent one; so vouchers
    without an empty text get these three fields back as they were. *)
Theorem export_import_text_fields (tza now : Z) (uid : string)
    (list : list Voucher) :
  Forall written_voucher list ->
  let rows :=
    import_payload uid
      (sheet_to_json (export_data (map (export_row tza now) list))) in
  Forall (fun r => Row.user_id r = uid) rows
  /\ map (fun r => (Row.code r, Row.pin r, Row.expires_on r)) rows
     = map (fun v => (or_null (or_empty (Voucher.code v)),
                      or_null (or_empty (Voucher.pin v)),
                      or_null (or_empty (Voucher.expires_on v)))) list
  /\ (Forall (fun v => Voucher.code v <> Some ""
                       /\ Voucher.pin v <> Some ""
                       /\ Voucher.expires_on v <> Some "") list ->
      map (fun r => (Row.code r, Row.pin r, Row.expires_on r)) rows
      = map (fun v => (Voucher.code v, Voucher.pin v, Voucher.expires_on v))
          list).
Proof.
  intros Hl rows.
  destruct (import_payload_of_export tza now uid list Hl) as [Hrows _].
  fold rows in Hrows.
  assert (E : map (fun r => (Row.code r, Row.pin r, Row.expires_on r)) rows
              = map (fun v => (or_null (or_empty (Voucher.code v)),
                               or_null (or_empty (Voucher.pin v)),
                               or_null (or_empty (Voucher.expires_on v))))
                  list).
  { rewrite Hrows, map_map. apply map_ext. intros v.
    destruct (import_text_of_export tza now uid v) as (_ & -> & -> & ->).
    reflexivity. }
  split; [|split].
  - rewrite Hrows. apply Forall_forall. intros r Hr.
    apply in_map_iff in Hr. destruct Hr as (v & <- & _).
    apply (import_text_of_export tza now uid v).
  - exact E.
  - intros Hne. rewrite E. apply map_ext_in. intros v Hv.
    rewrite Forall_forall in Hne. destruct (Hne v Hv) as (Hc & Hp & He).
    rewrite !or_null_or_empty by assumption. reflexivity.
Qed.

Lemma export_import_text_fields_witness :
  let rows :=
    import_payload "u2"
      (sheet_to_json
         (export_data (map (export_row 0 0) [sample_voucher]))) in
  Forall (fun r => Row.user_id r = "u2") rows
  /\ map (fun r => (Row.code r, Row.pin r, Row.expires_on r)) rows
     = map (fun v => (or_null (or_empty (Voucher.code v)),
                      or_null (or_empty (Voucher.pin v)),
                      or_null (or_empty (Voucher.expires_on v))))
         [sample_voucher]
  /\ (Forall (fun v => Voucher.code v <> Some ""
                       /\ Voucher.pin v <> Some ""
                       /\ Voucher.expires_on v <> Some "") [sample_voucher] ->
      map (fun r => (Row.code r, Row.pin r, Row.expires_on r)) rows
      = map (fun v => (Voucher.code v, Voucher.pin v, Voucher.expires_on v))
          [sample_voucher]).
Proof.
  apply export_import_text_fields.
  repeat constructor; cbn; try discriminate; reflexivity.
Defined.

(** Every stored amount survives being printed and read again: the
    import's [toNum] reads the cell of a stored number, and the text of
    it, as that number, and so does the edit form's reading of the text
    [openEdit] fills in. *)
Theorem amounts_read_back (x : number) :
  stored_number x ->
  toNum (ANum x) = x
  /\ toNum (AStr (String_of_number x)) = x
  /\ (forall v, Voucher.value v = x ->
        parse_amount (EditForm.value (snd (openEdit v))) = x).
Proof.
  intros H. pose proof (Number_reads_back _ H) as E.
  assert (T : forall a, String_of a = String_of_number x -> toNum a = x).
  { intros a Ha. unfold toNum. rewrite Ha, E. destruct H as [-> _].
    reflexivity. }
  repeat split; try (apply T; reflexivity).
  intros v <-. exact E.
Qed.

Lemma amounts_read_back_witness :
  toNum (ANum (Fin 12345 2)) = Fin 12345 2
  /\ toNum (AStr (String_of_number (Fin 12345 2))) = Fin 12345 2
  /\ (forall v, Voucher.value v = Fin 12345 2 ->
        parse_amount (EditForm.value (snd (openEdit v))) = Fin 12345 2).
Proof. apply amounts_read_back. split; reflexivity. Defined.
